(** * Pocket Soul: generation cache and session orchestrator

    A shallow embedding of the integrated server of the repository
    ([integrated_app/server.js]), of its custom character generator
    ([CustomCharacterGenerator], the cache of generated variants) and of its
    emotion-to-video resolver ([VideoEmotionMapper]), followed by the
    properties of the specification that were checked against them.

    Conventions of the embedding.
    - A JavaScript string is a [string]: a sequence of 8-bit code units, the
      Latin-1 range of JavaScript's UTF-16 code units.  Lowercasing, the
      whitespace class and case-insensitive matching are written out for that
      range, where they are exact.
    - A plain object used as a dictionary and a [Map] are [gmap]s; the
      properties a plain object inherits from [Object.prototype] are written
      out where the code looks a key up without an own-property test.
    - An [async] function is cut at its [await]s: each piece of synchronous
      code is a function on the server state, and what is still to run is a
      value (a continuation) that is resumed with the collaborator's answer.
    - Collaborators (speech-to-text, text generation, speech synthesis, image
      and video synthesis, the download, the clock) are not code of this
      repository: their answers are inputs of the model. *)

From Stdlib Require Import ZArith Ascii String List Bool Lia.
From stdpp Require Import base option list gmap strings.

Local Open Scope string_scope.

(* ===================================================================== *)
(** * Definitions *)
(* ===================================================================== *)

(** ** JavaScript strings *)

Module Js.

Definition code (c : ascii) : N := N_of_ascii c.

Definition in_range (lo hi : N) (c : ascii) : bool :=
  (lo <=? code c)%N && (code c <=? hi)%N.

Definition is_lower_az (c : ascii) : bool := in_range 97 122 c.
Definition is_upper_AZ (c : ascii) : bool := in_range 65 90 c.
Definition is_digit (c : ascii) : bool := in_range 48 57 c.

(** [String.prototype.toLowerCase] on one code unit below 256: [A-Z], and the
    Latin-1 capitals U+00C0..U+00DE except the multiplication sign U+00D7,
    move up by 32. *)
Definition lower_char (c : ascii) : ascii :=
  if is_upper_AZ c then ascii_of_N (code c + 32)
  else if in_range 192 222 c && negb (code c =? 215)%N
       then ascii_of_N (code c + 32)
  else c.

Fixpoint map_chars (f : ascii -> ascii) (s : string) : string :=
  match s with
  | EmptyString => EmptyString
  | String c r => String (f c) (map_chars f r)
  end.

Definition toLowerCase (s : string) : string := map_chars lower_char s.

(** The class [\s] of a regular expression, which is also what [trim]
    removes: tab, line feed, vertical tab, form feed, carriage return, space
    and the no-break space. *)
Definition is_space (c : ascii) : bool :=
  in_range 9 13 c || (code c =? 32)%N || (code c =? 160)%N.

Fixpoint trimStart (s : string) : string :=
  match s with
  | EmptyString => EmptyString
  | String c r => if is_space c then trimStart r else s
  end.

Fixpoint trimEnd (s : string) : string :=
  match s with
  | EmptyString => EmptyString
  | String c r =>
      match trimEnd r with
      | EmptyString => if is_space c then EmptyString else String c EmptyString
      | r' => String c r'
      end
  end.

Definition trim (s : string) : string := trimEnd (trimStart s).

Definition is_empty (s : string) : bool :=
  match s with EmptyString => true | _ => false end.

(** Truthiness of a string: the empty string is the only falsy one. *)
Definition truthy (s : string) : bool := negb (is_empty s).

(** [p] is a prefix of [s], the code units compared through [f]. *)
Fixpoint starts_with_by (f : ascii -> ascii) (p s : string) : bool :=
  match p, s with
  | EmptyString, _ => true
  | String _ _, EmptyString => false
  | String a p', String b s' =>
      if Ascii.eqb (f a) (f b) then starts_with_by f p' s' else false
  end.

Definition starts_with : string -> string -> bool := starts_with_by id.

(** Case-insensitive comparison of a regular expression with the [i] flag and
    without the [u] flag: a code unit of 128 or more never matches an ASCII
    letter, so below 256 it is comparison after [lower_char]. *)
Definition starts_with_ci : string -> string -> bool :=
  starts_with_by lower_char.

(** [s.includes(sub)]. *)
Fixpoint includes (s sub : string) : bool :=
  starts_with sub s ||
  match s with
  | EmptyString => false
  | String _ r => includes r sub
  end.

(** Number of matches of [s.match(new RegExp(pat, 'g'))] for a pattern made
    of literal characters: occurrences counted from the left, a match
    consuming its characters.  [skip] is the number of characters of the
    last match still to pass. *)
Fixpoint count_matches_from (pat : string) (skip : nat) (s : string) : nat :=
  match s with
  | EmptyString => 0
  | String _ r =>
      match skip with
      | S k => count_matches_from pat k r
      | O =>
          if starts_with pat s
          then S (count_matches_from pat (String.length pat - 1) r)
          else count_matches_from pat 0 r
      end
  end.

Definition count_matches (s pat : string) : nat := count_matches_from pat 0 s.

(** [s.replace(new RegExp(kw, 'gi'), '')] for a keyword of literal
    characters: every match, found from the left, is removed. *)
Fixpoint remove_all_ci_from (kw : string) (skip : nat) (s : string) : string :=
  match s with
  | EmptyString => EmptyString
  | String c r =>
      match skip with
      | S k => remove_all_ci_from kw k r
      | O =>
          if starts_with_ci kw s
          then remove_all_ci_from kw (String.length kw - 1) r
          else String c (remove_all_ci_from kw 0 r)
      end
  end.

Definition remove_all_ci (s kw : string) : string := remove_all_ci_from kw 0 s.

(** [s.replace(/[...]/g, '')] and [s.replace(/[...]/g, c')] for a character
    class given as a predicate. *)
Fixpoint remove_chars (p : ascii -> bool) (s : string) : string :=
  match s with
  | EmptyString => EmptyString
  | String c r => if p c then remove_chars p r else String c (remove_chars p r)
  end.

Definition replace_chars (p : ascii -> bool) (c' : ascii) (s : string) : string :=
  map_chars (fun c => if p c then c' else c) s.

(** [s.replace(/\s+/g, ' ')]: every maximal run of whitespace becomes one
    space.  [in_run] tells that the previous character was whitespace. *)
Fixpoint collapse_spaces_from (in_run : bool) (s : string) : string :=
  match s with
  | EmptyString => EmptyString
  | String c r =>
      if is_space c
      then if in_run then collapse_spaces_from true r
           else String " " (collapse_spaces_from true r)
      else String c (collapse_spaces_from false r)
  end.

Definition collapse_spaces (s : string) : string := collapse_spaces_from false s.

(** [s.substring(0, n)]. *)
Fixpoint take (n : nat) (s : string) : string :=
  match n, s with
  | O, _ => EmptyString
  | _, EmptyString => EmptyString
  | S k, String c r => String c (take k r)
  end.

Fixpoint drop (n : nat) (s : string) : string :=
  match n, s with
  | O, _ => s
  | _, EmptyString => EmptyString
  | S k, String _ r => drop k r
  end.

(** [s.split(sep)] for a separator that is not empty.  [cur] holds, reversed,
    the characters of the part being read. *)
Fixpoint split_from (sep : string) (skip : nat) (cur : list ascii) (s : string)
  : list string :=
  match s with
  | EmptyString => [string_of_list_ascii (rev cur)]
  | String c r =>
      match skip with
      | S k => split_from sep k cur r
      | O =>
          if starts_with sep s
          then string_of_list_ascii (rev cur)
               :: split_from sep (String.length sep - 1) [] r
          else split_from sep 0 (c :: cur) r
      end
  end.

Definition split (s sep : string) : list string := split_from sep 0 [] s.

(** [words.join(' ')]. *)
Fixpoint join (sep : string) (l : list string) : string :=
  match l with
  | [] => EmptyString
  | [x] => x
  | x :: r => x +:+ sep +:+ join sep r
  end.

End Js.

(** ** The MD5 digest of Node's [crypto] module

    [crypto.createHash('md5').update(s).digest('hex')]: the string is
    encoded in UTF-8, padded, and folded block by block into four 32-bit
    words, here integers kept below [2^32] with the wrap-around written out. *)

Module Md5.

Local Open Scope Z_scope.

Definition w32 (x : Z) : Z := x mod 4294967296.

Definition rotl (x : Z) (n : Z) : Z :=
  w32 (Z.lor (Z.shiftl x n) (Z.shiftr x (32 - n))).

Definition not32 (x : Z) : Z := Z.lxor x 4294967295.

Definition shifts : list Z :=
  [7; 12; 17; 22; 7; 12; 17; 22; 7; 12; 17; 22; 7; 12; 17; 22;
   5; 9; 14; 20; 5; 9; 14; 20; 5; 9; 14; 20; 5; 9; 14; 20;
   4; 11; 16; 23; 4; 11; 16; 23; 4; 11; 16; 23; 4; 11; 16; 23;
   6; 10; 15; 21; 6; 10; 15; 21; 6; 10; 15; 21; 6; 10; 15; 21].

Definition sines : list Z :=
  [3614090360; 3905402710; 606105819; 3250441966; 4118548399; 1200080426;
   2821735955; 4249261313; 1770035416; 2336552879; 4294925233; 2304563134;
   1804603682; 4254626195; 2792965006; 1236535329; 4129170786; 3225465664;
   643717713; 3921069994; 3593408605; 38016083; 3634488961; 3889429448;
   568446438; 3275163606; 4107603335; 1163531501; 2850285829; 4243563512;
   1735328473; 2368359562; 4294588738; 2272392833; 1839030562; 4259657740;
   2763975236; 1272893353; 4139469664; 3200236656; 681279174; 3936430074;
   3572445317; 76029189; 3654602809; 3873151461; 530742520; 3299628645;
   4096336452; 1126891415; 2878612391; 4237533241; 1700485571; 2399980690;
   4293915773; 2240044497; 1873313359; 4264355552; 2734768916; 1309151649;
   4149444226; 3174756917; 718787259; 3951481745].

(** UTF-8 encoding of a code unit below 256. *)
Definition utf8 (c : ascii) : list Z :=
  let n := Z.of_N (N_of_ascii c) in
  if n <? 128 then [n] else [Z.lor 192 (Z.shiftr n 6); Z.lor 128 (Z.land n 63)].

Fixpoint bytes_of (s : string) : list Z :=
  match s with
  | EmptyString => []
  | String c r => utf8 c ++ bytes_of r
  end.

Fixpoint le_bytes (n : nat) (x : Z) : list Z :=
  match n with
  | O => []
  | S k => (x mod 256) :: le_bytes k (x / 256)
  end.

Definition pad (msg : list Z) : list Z :=
  let len := Z.of_nat (length msg) in
  let zeros := Z.to_nat ((55 - len) mod 64) in
  msg ++ [128] ++ repeat 0 zeros ++ le_bytes 8 (8 * len).

Fixpoint le_word (bs : list Z) : Z :=
  match bs with
  | [] => 0
  | b :: r => b + 256 * le_word r
  end.

(** The sixteen little-endian words of a 64-byte block. *)
Fixpoint words_of (n : nat) (bs : list Z) : list Z :=
  match n with
  | O => []
  | S k => le_word (firstn 4 bs) :: words_of k (skipn 4 bs)
  end.

Record regs := { ra : Z; rb : Z; rc : Z; rd : Z }.

Definition round (m : list Z) (i : Z) (r : regs) : regs :=
  let '(f, g) :=
    if i <? 16 then
      (Z.lor (Z.land (rb r) (rc r)) (Z.land (not32 (rb r)) (rd r)), i)
    else if i <? 32 then
      (Z.lor (Z.land (rd r) (rb r)) (Z.land (not32 (rd r)) (rc r)),
       (5 * i + 1) mod 16)
    else if i <? 48 then
      (Z.lxor (rb r) (Z.lxor (rc r) (rd r)), (3 * i + 5) mod 16)
    else
      (Z.lxor (rc r) (Z.lor (rb r) (not32 (rd r))), (7 * i) mod 16) in
  let f' := w32 (f + ra r + nth (Z.to_nat i) sines 0 + nth (Z.to_nat g) m 0) in
  {| ra := rd r; rd := rc r; rc := rb r;
     rb := w32 (rb r + rotl f' (nth (Z.to_nat i) shifts 0)) |}.

Definition block (h : regs) (bs : list Z) : regs :=
  let m := words_of 16 bs in
  let r := fold_left (fun r i => round m (Z.of_nat i) r) (seq 0 64) h in
  {| ra := w32 (ra h + ra r); rb := w32 (rb h + rb r);
     rc := w32 (rc h + rc r); rd := w32 (rd h + rd r) |}.

Fixpoint blocks (n : nat) (h : regs) (bs : list Z) : regs :=
  match n with
  | O => h
  | S k => blocks k (block h (firstn 64 bs)) (skipn 64 bs)
  end.

Definition init : regs :=
  {| ra := 1732584193; rb := 4023233417; rc := 2562383102; rd := 271733878 |}.

Definition hex_digit (n : Z) : ascii :=
  if n <? 10 then ascii_of_N (Z.to_N (48 + n)) else ascii_of_N (Z.to_N (87 + n)).

Fixpoint hex_of_bytes (bs : list Z) : string :=
  match bs with
  | [] => EmptyString
  | b :: r => String (hex_digit (b / 16)) (String (hex_digit (b mod 16)) (hex_of_bytes r))
  end.

Definition digest_hex (s : string) : string :=
  let bs := pad (bytes_of s) in
  let h := blocks (length bs / 64) init bs in
  hex_of_bytes (le_bytes 4 (ra h) ++ le_bytes 4 (rb h)
                ++ le_bytes 4 (rc h) ++ le_bytes 4 (rd h)).

End Md5.

(** ** Plain objects used as tables

    [table[key]] on an object literal also finds what the literal inherits
    from [Object.prototype]; every inherited value is a function, or the
    prototype itself for [__proto__]: truthy, without the fields of a table
    entry, and not iterable. *)

Definition object_prototype_names : list string :=
  ["constructor"; "__defineGetter__"; "__defineSetter__"; "hasOwnProperty";
   "__lookupGetter__"; "__lookupSetter__"; "isPrototypeOf";
   "propertyIsEnumerable"; "toString"; "valueOf"; "__proto__";
   "toLocaleString"].

Definition inherited (key : string) : bool :=
  existsb (String.eqb key) object_prototype_names.

Inductive property (A : Type) : Type :=
  | Own (a : A)          (* a property of the literal *)
  | Inherited            (* found on [Object.prototype] *)
  | Undefined.
Arguments Own {A} a.
Arguments Inherited {A}.
Arguments Undefined {A}.

Fixpoint assoc {A : Type} (key : string) (table : list (string * A)) : option A :=
  match table with
  | [] => None
  | (k, a) :: r => if String.eqb key k then Some a else assoc key r
  end.

Definition get_property {A : Type} (table : list (string * A)) (key : string)
  : property A :=
  match assoc key table with
  | Some a => Own a
  | None => if inherited key then Inherited else Undefined
  end.

(** What a call gives back: a value, or a thrown exception (for an [async]
    function, a rejected promise). *)
Inductive outcome (A : Type) : Type :=
  | Returns (a : A)
  | Throws (message : string).
Arguments Returns {A} a.
Arguments Throws {A} message.

(** ** CustomCharacterGenerator: the cache of generated variants *)

Module CustomCharacterGenerator.

(** An entry of the manifest, as [generateVariant] writes it. *)
Record entry : Type := {
  emotion : string;
  customDescription : string;
  prompt : string;
  filename : string;
  generatedAt : string;
  videoUrl : string
}.

(** The generator and the part of the file system it uses.  [manifest] is
    [None] until [initializeCache] has assigned it; it is only read and
    written at cache keys, which end in an underscore and eight hexadecimal
    digits and so never name an inherited property.  [files] are the names
    present in [cacheDir] (the file that a download that failed has left
    included), [images] those present in [imagesDir];
    [manifest_json] is the manifest last written to [manifest.json]. *)
Record state : Type := {
  manifest : option (gmap string entry);
  files : gset string;
  images : gset string;
  manifest_json : gmap string entry
}.

Definition is_key_char (c : ascii) : bool := Js.is_lower_az c || Js.is_digit c.

(** [`${emotion}_${customDescription}`.toLowerCase().replace(/[^a-z0-9]/g, '_')] *)
Definition normalize (emotion customDescription : string) : string :=
  Js.replace_chars (fun c => negb (is_key_char c)) "_"
    (Js.toLowerCase (emotion +:+ "_" +:+ customDescription)).

(** The same normalization applied to one string on its own (the code only
    normalizes the pair; this is for stating properties). *)
Definition normalize_one (s : string) : string :=
  Js.replace_chars (fun c => negb (is_key_char c)) "_" (Js.toLowerCase s).

Definition generateCacheKey (emotion customDescription : string) : string :=
  let normalized := normalize emotion customDescription in
  let hash := Js.take 8 (Md5.digest_hex normalized) in
  Js.take 30 normalized +:+ "_" +:+ hash.

(** The entry the manifest holds for a pair, if any. *)
Definition recorded (st : state) (emotion customDescription : string)
  : option entry :=
  manifest st ≫= fun m => m !! generateCacheKey emotion customDescription.

Definition emotionPrompts : list (string * (string * string)) :=
  [("joy", ("golden yellow character, joyful and happy",
            "bouncing cheerfully, mouth opening and closing as if talking happily, continuous speaking movements"));
   ("anger", ("bright red character, angry and furious",
              "shaking with rage, mouth opening aggressively as if yelling, steam effects, continuous angry talking"));
   ("fear", ("deep purple character, fearful and nervous",
             "trembling nervously, mouth quivering as if speaking fearfully, continuous worried talking"));
   ("disgust", ("bright green character, disgusted and repulsed",
                "recoiling with disgust, mouth twisted as if complaining, continuous disgusted talking"));
   ("anxiety", ("bright orange character, anxious and worried",
                "fidgeting constantly, mouth moving rapidly as if rambling nervously, continuous anxious talking"));
   ("sadness", ("deep blue character, sad and melancholy",
                "drooping sadly, mouth turned down as if crying softly, continuous sad talking"));
   ("calm", ("soft cyan character, peaceful and serene",
             "floating peacefully, mouth moving steadily as if speaking calmly, continuous gentle talking"));
   ("neutral", ("translucent character with soft glow",
                "gentle floating, mouth moving as if having a conversation, continuous talking"))].

Definition neutralPrompt : string * string :=
  ("translucent character with soft glow",
   "gentle floating, mouth moving as if having a conversation, continuous talking").

(** [emotionPrompts[emotion] || emotionPrompts.neutral]; an inherited
    property has neither [base] nor [animation], which print as
    [undefined]. *)
Definition buildCustomPrompt (emotion customDescription : string) : string :=
  let '(base, animation) :=
    match get_property emotionPrompts emotion with
    | Own config => config
    | Inherited => ("undefined", "undefined")
    | Undefined => neutralPrompt
    end in
  "The " +:+ base +:+ " dressed as a " +:+ customDescription +:+ ", "
  +:+ animation +:+ ", maintaining the cute ghost-like shape, 8 seconds".

(** The answer of the video synthesis service, as far as [generateVariant]
    reads it: the places where a URL may be. *)
Record fal_result : Type := {
  data_video_url : option string;   (* result.data.video.url *)
  video_dot_url : option string;    (* result.video.url *)
  video_url : option string;        (* result.video_url *)
  url : option string;              (* result.url *)
  output_video_url : option string  (* result.output.video_url *)
}.

Definition present (o : option string) : bool :=
  match o with Some s => Js.truthy s | None => false end.

(** The chain of tests that extracts [videoUrl]. *)
Definition extractVideoUrl (result : option fal_result) : option string :=
  match result with
  | None => None
  | Some r =>
      if present (data_video_url r) then data_video_url r
      else if present (video_dot_url r) then video_dot_url r
      else if present (video_url r) then video_url r
      else if present (url r) then url r
      else if present (output_video_url r) then output_video_url r
      else None
  end.

(** What the outside answers during one call: whether each write of
    [manifest.json] succeeds, whether the reference image can be read,
    whether the image model returns image data and the image is written,
    what the video service answers before the two minutes are over ([None]
    for a rejection or the timeout), whether the download succeeds ([curl]
    ends with status 0 and has written the file) and, when it does not,
    whether [curl] has left a file under the name all the same, the two
    readings of the clock ([toISOString]), and the message of the exception
    of the external call that fails, when one does. *)
Record answers : Type := {
  evict_saved : bool;
  reference_readable : bool;
  image_generated : bool;
  image_written : bool;
  fal_answer : option (option fal_result);
  downloaded : bool;
  left_behind : bool;
  clock_filename : string;
  clock_generatedAt : string;
  entry_saved : bool;
  failure_message : string
}.

(** [saveManifest]: the manifest in memory is written to [manifest.json]. *)
Definition saveManifest (ok : bool) (message : string) (st : state)
  : state * outcome unit :=
  if ok then
    match manifest st with
    | Some m =>
        ({| manifest := manifest st; files := files st; images := images st;
            manifest_json := m |}, Returns tt)
    | None =>
        (* JSON.stringify(undefined) is undefined, which writeFile refuses *)
        (st, Throws "The data argument must be of type string")
    end
  else (st, Throws message).

Definition set_manifest (m : gmap string entry) (st : state) : state :=
  {| manifest := Some m; files := files st; images := images st;
     manifest_json := manifest_json st |}.

Definition add_file (f : string) (st : state) : state :=
  {| manifest := manifest st; files := {[ f ]} ∪ files st; images := images st;
     manifest_json := manifest_json st |}.

Definition add_image (f : string) (st : state) : state :=
  {| manifest := manifest st; files := files st; images := {[ f ]} ∪ images st;
     manifest_json := manifest_json st |}.

Definition variant_path (filename : string) : string :=
  "/videos/custom_variants/" +:+ filename.

(** [{ exists: true, path, metadata }] or [{ exists: false }]. *)
Definition lookup_result : Type := option (string * entry).

(** [checkCache]: an entry whose file is there is a hit; an entry whose file
    is gone is deleted from the manifest, which is saved, and the call
    reports a miss. *)
Definition checkCache (a : answers) (st : state) (emotion customDescription : string)
  : state * outcome lookup_result :=
  let cacheKey := generateCacheKey emotion customDescription in
  match manifest st with
  | None => (st, Throws "Cannot read properties of undefined")
  | Some m =>
      match m !! cacheKey with
      | Some e =>
          if decide (filename e ∈ files st)
          then (st, Returns (Some (variant_path (filename e), e)))
          else
            let st1 := set_manifest (delete cacheKey m) st in
            match saveManifest (evict_saved a) (failure_message a) st1 with
            | (st2, Returns _) => (st2, Returns None)
            | (st2, Throws msg) => (st2, Throws msg)
            end
      | None => (st, Returns None)
      end
  end.

Inductive image_source : Type :=
  | GeneratedImage (name : string)   (* a file of [imagesDir] *)
  | ReferenceImage.

(** [generateCharacterImage]: the image cached under the key of
    [('image', customDescription)], else a newly generated one, else the
    reference image. *)
Definition generateCharacterImage (a : answers) (st : state)
    (customDescription emotion : string) : state * image_source :=
  let imageKey := generateCacheKey "image" customDescription in
  let name := imageKey +:+ ".png" in
  if decide (name ∈ images st) then (st, GeneratedImage name)
  else if reference_readable a && image_generated a && image_written a
       then (add_image name st, GeneratedImage name)
       else (st, ReferenceImage).

(** [{ success: true, path, metadata }] or [{ success: false, error }], and
    for [getOrCreateVariant] the [cached] tag. *)
Record result : Type := {
  success : bool;
  cached : bool;
  path : option string;
  metadata : option entry;
  error : option string
}.

(** [{ success: false, error: error.message || 'Failed to generate video' }] *)
Definition failure (message : string) : result :=
  {| success := false; cached := false; path := None; metadata := None;
     error := Some (if Js.truthy message then message
                    else "Failed to generate video") |}.

Definition stamp (iso : string) : string :=
  Js.replace_chars (fun c => Ascii.eqb c ":" || Ascii.eqb c ".") "-" iso.

(** [generateVariant]: image, video synthesis, download, manifest entry.
    Every exception is caught and becomes [{ success: false }]. *)
Definition generateVariant (a : answers) (st : state) (emotion customDescription : string)
  : state * result :=
  let cacheKey := generateCacheKey emotion customDescription in
  let prompt := buildCustomPrompt emotion customDescription in
  let '(st1, image) := generateCharacterImage a st customDescription emotion in
  let readable :=
    match image with
    | GeneratedImage _ => true
    | ReferenceImage => reference_readable a
    end in
  if negb readable then (st1, failure (failure_message a))
  else
    match fal_answer a with
    | None => (st1, failure (failure_message a))
    | Some response =>
        match extractVideoUrl response with
        | None => (st1, failure "No video URL in response")
        | Some videoUrl =>
            let filename := cacheKey +:+ "_" +:+ stamp (clock_filename a) +:+ ".mp4" in
            if negb (downloaded a)
            then (if left_behind a then add_file filename st1 else st1,
                  failure (failure_message a))
            else
              let st2 := add_file filename st1 in
              match manifest st2 with
              | None => (st2, failure "Cannot set properties of undefined")
              | Some m =>
                  let e := {| emotion := emotion;
                              customDescription := customDescription;
                              prompt := prompt;
                              filename := filename;
                              generatedAt := clock_generatedAt a;
                              videoUrl := videoUrl |} in
                  let st3 := set_manifest (<[cacheKey := e]> m) st2 in
                  match saveManifest (entry_saved a) (failure_message a) st3 with
                  | (st4, Returns _) =>
                      (st4, {| success := true; cached := false;
                               path := Some (variant_path filename);
                               metadata := Some e; error := None |})
                  | (st4, Throws msg) => (st4, failure msg)
                  end
              end
        end
    end.

(** [getOrCreateVariant]: the cache first, generation on a miss. *)
Definition getOrCreateVariant (a : answers) (st : state) (emotion customDescription : string)
  : state * outcome result :=
  match checkCache a st emotion customDescription with
  | (st1, Throws msg) => (st1, Throws msg)
  | (st1, Returns (Some (p, e))) =>
      (st1, Returns {| success := true; cached := true; path := Some p;
                       metadata := Some e; error := None |})
  | (st1, Returns None) =>
      let '(st2, r) := generateVariant a st1 emotion customDescription in
      (st2, Returns {| success := success r; cached := false; path := path r;
                       metadata := metadata r; error := error r |})
  end.

(** *** [parseUserRequest] *)

Definition emotionKeywords : list (string * list string) :=
  [("joy", ["happy"; "joyful"; "cheerful"; "excited"; "elated"]);
   ("anger", ["angry"; "mad"; "furious"; "rage"; "upset"]);
   ("fear", ["scared"; "afraid"; "fearful"; "terrified"; "nervous"]);
   ("disgust", ["disgusted"; "gross"; "ew"; "yuck"; "repulsed"]);
   ("anxiety", ["anxious"; "worried"; "stressed"; "nervous"; "tense"]);
   ("sadness", ["sad"; "crying"; "depressed"; "melancholy"; "blue"]);
   ("calm", ["calm"; "peaceful"; "serene"; "relaxed"; "zen"])].

(** The inner loop: the first keyword of the list that the lowercased
    prompt includes. *)
Fixpoint first_keyword (lowered : string) (keywords : list string)
  : option string :=
  match keywords with
  | [] => None
  | keyword :: rest =>
      if Js.includes lowered keyword then Some keyword
      else first_keyword lowered rest
  end.

(** The outer loop: it stops at the first emotion one of whose keywords is
    found (no emotion of the table is called [neutral]). *)
Fixpoint detect_keyword (lowered : string) (table : list (string * list string))
  : option (string * string) :=
  match table with
  | [] => None
  | (emotion, keywords) :: rest =>
      match first_keyword lowered keywords with
      | Some keyword => Some (emotion, keyword)
      | None => detect_keyword lowered rest
      end
  end.

(** One alternative of [/^(a|an|the)\s+/i]: the word, then whitespace, all
    of which is removed. *)
Definition strip_word (word s : string) : option string :=
  if Js.starts_with_ci word s then
    match Js.drop (String.length word) s with
    | String c rest => if Js.is_space c then Some (Js.trimStart rest) else None
    | EmptyString => None
    end
  else None.

(** [s.replace(/^(a|an|the)\s+/i, '')]: the alternatives are tried in
    order. *)
Definition strip_article (s : string) : string :=
  match strip_word "a" s with
  | Some r => r
  | None =>
      match strip_word "an" s with
      | Some r => r
      | None =>
          match strip_word "the" s with
          | Some r => r
          | None => s
          end
      end
  end.

(** The emotion detected and the description cleaned up, before the default
    for an empty description is applied. *)
Definition parse_cleaned (userPrompt : string) : string * string :=
  let '(detectedEmotion, customDescription) :=
    match detect_keyword (Js.toLowerCase userPrompt) emotionKeywords with
    | Some (emotion, keyword) =>
        (emotion, Js.trim (Js.remove_all_ci userPrompt keyword))
    | None => ("neutral", userPrompt)
    end in
  (detectedEmotion,
   Js.trim (Js.collapse_spaces (strip_article customDescription))).

(** [{ emotion, customDescription }] *)
Record request : Type := {
  request_emotion : string;
  request_customDescription : string
}.

Definition parseUserRequest (userPrompt : string) : request :=
  let '(detectedEmotion, customDescription) := parse_cleaned userPrompt in
  {| request_emotion := detectedEmotion;
     request_customDescription :=
       if Js.truthy customDescription then customDescription else "character" |}.

(** The emotions [parseUserRequest] can name. *)
Definition parsed_emotions : list string :=
  ["joy"; "anger"; "fear"; "disgust"; "anxiety"; "sadness"; "calm"; "neutral"].

End CustomCharacterGenerator.

(** ** Calls of [getOrCreateVariant] that overlap

    Node runs one piece of synchronous code at a time; a call gives way to
    others at the [await]s that wait for the outside: the file system, the
    image model, the video service, the download.  A call in progress is a
    [task]: the [await] it is suspended at, with the local variables that
    are live there. *)

Module Tasks.

Import CustomCharacterGenerator.

Inductive task : Type :=
  | AwaitAccess (filename : string)  (* checkCache: fs.access(filePath) *)
  | AwaitEvictSave (json : gmap string entry)
                                     (* checkCache: saveManifest() *)
  | AwaitImageAccess                 (* generateCharacterImage: fs.access(imagePath) *)
  | AwaitReadReference               (* generateCharacterImage: fs.readFile(referenceImage) *)
  | AwaitImageModel                  (* generateCharacterImage: model.generateContent *)
  | AwaitWriteImage                  (* generateCharacterImage: fs.writeFile(imagePath) *)
  | AwaitReadImage (image : image_source)
                                     (* generateVariant: fs.readFile(characterImagePath) *)
  | AwaitFal                         (* generateVariant: Promise.race([apiCall, timeout]) *)
  | AwaitDownload (filename videoUrl : string)
                                     (* generateVariant: execPromise(curl) *)
  | AwaitEntrySave (filename : string) (e : entry) (json : gmap string entry)
                                     (* generateVariant: saveManifest() *)
  | Done (r : outcome result).

(** What a call does that the outside can see, kept to count invocations. *)
Inductive effect : Type :=
  | GenerateVariant (cacheKey : string)     (* generateVariant is entered *)
  | FalRun (cacheKey prompt : string)       (* the video service is called *)
  | Download (filename videoUrl : string).  (* curl has written the file *)

Section Call.

Variables emotion customDescription : string.

Let cacheKey : string := generateCacheKey emotion customDescription.
Let imageName : string := generateCacheKey "image" customDescription +:+ ".png".

Definition hit (p : string) (e : entry) : result :=
  {| success := true; cached := true; path := Some p; metadata := Some e;
     error := None |}.

Definition tag_uncached (r : result) : result :=
  {| success := success r; cached := false; path := path r;
     metadata := metadata r; error := error r |}.

(** [checkCache] has reported a miss: [generateVariant] is entered and runs
    up to the first [await] of [generateCharacterImage]. *)
Definition enter_generateVariant (st : state) : state * task * list effect :=
  (st, AwaitImageAccess, [GenerateVariant cacheKey]).

(** The catch block of [checkCache]: the entry is deleted and
    [saveManifest] is called with the manifest as it is now. *)
Definition evict (st : state) : state * task * list effect :=
  match manifest st with
  | Some m =>
      let m' := delete cacheKey m in
      (set_manifest m' st, AwaitEvictSave m', [])
  | None => (st, Done (Throws "Cannot convert undefined or null to object"), [])
  end.

(** The call itself: the synchronous code up to the first [await]. *)
Definition start (st : state) : state * task * list effect :=
  match manifest st with
  | None => (st, Done (Throws "Cannot read properties of undefined"), [])
  | Some m =>
      match m !! cacheKey with
      | Some e => (st, AwaitAccess (filename e), [])
      | None => enter_generateVariant st
      end
  end.

(** The task is resumed: the awaited operation has completed, with the
    answer [a] gives for it, and the code runs up to the next [await]. *)
Definition resume (a : answers) (st : state) (t : task)
  : state * task * list effect :=
  match t with
  | AwaitAccess tested =>
      (* the file named by the entry read before the await is tested; the
         entry is read again for the result, and when it is gone the
         exception lands in the same catch block as a missing file *)
      if decide (tested ∈ files st) then
        match manifest st with
        | Some m =>
            match m !! cacheKey with
            | Some e => (st, Done (Returns (hit (variant_path (filename e)) e)), [])
            | None => evict st
            end
        | None => evict st
        end
      else evict st
  | AwaitEvictSave json =>
      if evict_saved a
      then enter_generateVariant
             {| manifest := manifest st; files := files st;
                images := images st; manifest_json := json |}
      else (st, Done (Throws (failure_message a)), [])
  | AwaitImageAccess =>
      if decide (imageName ∈ images st)
      then (st, AwaitReadImage (GeneratedImage imageName), [])
      else (st, AwaitReadReference, [])
  | AwaitReadReference =>
      if reference_readable a then (st, AwaitImageModel, [])
      else (st, AwaitReadImage ReferenceImage, [])
  | AwaitImageModel =>
      if image_generated a then (st, AwaitWriteImage, [])
      else (st, AwaitReadImage ReferenceImage, [])
  | AwaitWriteImage =>
      if image_written a
      then (add_image imageName st, AwaitReadImage (GeneratedImage imageName), [])
      else (st, AwaitReadImage ReferenceImage, [])
  | AwaitReadImage image =>
      let readable :=
        match image with
        | GeneratedImage _ => true
        | ReferenceImage => reference_readable a
        end in
      if readable
      then (st, AwaitFal,
            [FalRun cacheKey (buildCustomPrompt emotion customDescription)])
      else (st, Done (Returns (tag_uncached (failure (failure_message a)))), [])
  | AwaitFal =>
      match fal_answer a with
      | None => (st, Done (Returns (tag_uncached (failure (failure_message a)))), [])
      | Some response =>
          match extractVideoUrl response with
          | None =>
              (st, Done (Returns (tag_uncached (failure "No video URL in response"))), [])
          | Some videoUrl =>
              let filename :=
                cacheKey +:+ "_" +:+ stamp (clock_filename a) +:+ ".mp4" in
              (st, AwaitDownload filename videoUrl, [])
          end
      end
  | AwaitDownload filename videoUrl =>
      if downloaded a then
        let st1 := add_file filename st in
        match manifest st1 with
        | None =>
            (st1, Done (Returns (tag_uncached
                    (failure "Cannot set properties of undefined"))),
             [Download filename videoUrl])
        | Some m =>
            let e := Build_entry emotion customDescription
                       (buildCustomPrompt emotion customDescription)
                       filename (clock_generatedAt a) videoUrl in
            let m' := <[cacheKey := e]> m in
            (set_manifest m' st1, AwaitEntrySave filename e m',
             [Download filename videoUrl])
        end
      else (if left_behind a then add_file filename st else st,
            Done (Returns (tag_uncached (failure (failure_message a)))), [])
  | AwaitEntrySave filename e json =>
      if entry_saved a
      then
        (* the result reads [this.manifest[cacheKey]] again *)
        ({| manifest := manifest st; files := files st; images := images st;
            manifest_json := json |},
         Done (Returns
           {| success := true; cached := false;
              path := Some (variant_path filename);
              metadata := match manifest st with
                          | Some m => m !! cacheKey
                          | None => None
                          end;
              error := None |}), [])
      else (st, Done (Returns (tag_uncached (failure (failure_message a)))), [])
  | Done r => (st, Done r, [])
  end.

(** A call that nothing interrupts: it is resumed until it is done.  Twelve
    resumptions are more than the longest path has. *)
Fixpoint resume_n (n : nat) (a : answers) (st : state) (t : task)
  : state * task * list effect :=
  match n with
  | O => (st, t, [])
  | S k =>
      let '(st1, t1, l1) := resume a st t in
      let '(st2, t2, l2) := resume_n k a st1 t1 in
      (st2, t2, (l1 ++ l2)%list)
  end.

Definition run_alone (a : answers) (st : state) : state * task * list effect :=
  let '(st0, t0, l0) := start st in
  let '(st1, t1, l1) := resume_n 12 a st0 t0 in
  (st1, t1, (l0 ++ l1)%list).

(** Two calls with the same arguments.  A schedule says which call moves
    next, and with which answers of the outside; a call that has not been
    made yet is made by its first move. *)
Record system : Type := {
  cache : state;
  first : option task;
  second : option task;
  effects : list effect
}.

Inductive caller : Type := First | Second.

Definition move (who : caller) (a : answers) (s : system) : system :=
  let t := match who with First => first s | Second => second s end in
  let '(st, t', l) :=
    match t with
    | None => start (cache s)
    | Some t => resume a (cache s) t
    end in
  {| cache := st;
     first := match who with First => Some t' | Second => first s end;
     second := match who with First => second s | Second => Some t' end;
     effects := (effects s ++ l)%list |}.

Definition run (schedule : list (caller * answers)) (s : system) : system :=
  fold_left (fun s m => move (fst m) (snd m) s) schedule s.

Definition initial (st : state) : system :=
  {| cache := st; first := None; second := None; effects := [] |}.

Definition is_generation (e : effect) : bool :=
  match e with GenerateVariant _ => true | _ => false end.

Definition is_download (e : effect) : bool :=
  match e with Download _ _ => true | _ => false end.

Definition generations (s : system) : nat :=
  length (filter (fun e => is_generation e = true) (effects s)).

Definition downloads (s : system) : list effect :=
  filter (fun e => is_download e = true) (effects s).

Definition finished (t : option task) : option (outcome result) :=
  match t with Some (Done r) => Some r | _ => None end.

End Call.

End Tasks.



(** ** VideoEmotionMapper: the standard videos, indexed by emotion *)

Module VideoEmotionMapper.

Record video : Type := {
  filename : string;
  path : string;
  emotion : string;
  timestamp : Z
}.

(** The mapper: [emotionVideoMap] is a [Map] from an emotion to the array of
    its videos, [availableVideos] the array of all videos, most recent
    first. *)
Record mapper : Type := {
  emotionVideoMap : gmap string (list video);
  availableVideos : list video;
  initialized : bool
}.

(** [new VideoEmotionMapper()] *)
Definition create : mapper :=
  {| emotionVideoMap := ∅; availableVideos := []; initialized := false |}.

(** [extractEmotionFromFilename]: the first emotion the lowercased name
    includes, then the first alias, else [neutral]. *)
Definition emotions : list string :=
  ["anger"; "anxiety"; "calm"; "disgust"; "excitement"; "fear";
   "happiness"; "joy"; "love"; "neutral"; "sadness"; "surprise"].

Definition emotionAliases : list (string * string) :=
  [("happy", "happiness"); ("excited", "excitement"); ("sad", "sadness")].

Definition extractEmotionFromFilename (name : string) : string :=
  let lowerFilename := Js.toLowerCase name in
  match find (fun emotion => Js.includes lowerFilename emotion) emotions with
  | Some emotion => emotion
  | None =>
      match find (fun alias => Js.includes lowerFilename (fst alias)) emotionAliases with
      | Some (_, emotion) => emotion
      | None => "neutral"
      end
  end.

(** [buildEmotionMap]: the map is cleared, and every video is pushed on the
    array of its emotion, which is created when the emotion is new. *)
Definition buildEmotionMap_step (m : gmap string (list video)) (v : video)
  : gmap string (list video) :=
  <[emotion v := (default [] (m !! emotion v) ++ [v])%list]> m.

Definition buildEmotionMap (videos : list video) : gmap string (list video) :=
  fold_left buildEmotionMap_step videos ∅.

(** [refresh], given the videos that [scanGeneratedVideos] has found;
    [initialize] is the same and sets the flag. *)
Definition refresh (scanned : list video) (m : mapper) : mapper :=
  {| emotionVideoMap := buildEmotionMap scanned;
     availableVideos := scanned;
     initialized := initialized m |}.

Definition initialize (scanned : list video) (m : mapper) : mapper :=
  {| emotionVideoMap := buildEmotionMap scanned;
     availableVideos := scanned;
     initialized := true |}.

Definition fallbackMap : list (string * list string) :=
  [("anger", ["disgust"; "fear"; "neutral"]);
   ("anxiety", ["fear"; "sadness"; "neutral"]);
   ("calm", ["neutral"; "happiness"; "joy"]);
   ("disgust", ["anger"; "fear"; "neutral"]);
   ("excitement", ["happiness"; "joy"; "surprise"]);
   ("fear", ["anxiety"; "sadness"; "neutral"]);
   ("happiness", ["joy"; "excitement"; "neutral"]);
   ("joy", ["happiness"; "excitement"; "surprise"]);
   ("love", ["happiness"; "joy"; "neutral"]);
   ("neutral", ["calm"; "happiness"]);
   ("sadness", ["fear"; "anxiety"; "neutral"]);
   ("surprise", ["excitement"; "happiness"; "neutral"])].

(** [videos && videos.length > 0] *)
Definition some_videos (o : option (list video)) : option (list video) :=
  match o with
  | Some (v :: vs) => Some (v :: vs)
  | _ => None
  end.

(** The loop of [getFallbackVideos]: the videos of the first fallback
    emotion that has some. *)
Fixpoint first_fallback (m : mapper) (fallbacks : list string)
  : option (list video) :=
  match fallbacks with
  | [] => None
  | fallback :: rest =>
      match some_videos (emotionVideoMap m !! fallback) with
      | Some videos => Some videos
      | None => first_fallback m rest
      end
  end.

(** [getFallbackVideos].  [fallbackMap[emotion] || ['neutral']] is an
    inherited property for [constructor] and [__proto__]: a value that is
    truthy and that [for ... of] cannot iterate. *)
Definition getFallbackVideos (m : mapper) (emotion : string)
  : outcome (list video) :=
  match get_property fallbackMap emotion with
  | Inherited => Throws "fallbacks is not iterable"
  | p =>
      let fallbacks := match p with Own l => l | _ => ["neutral"] end in
      match first_fallback m fallbacks with
      | Some videos => Returns videos
      | None => Returns (firstn 1 (availableVideos m))
      end
  end.

(** [getVideoForEmotion(emotion, preferRecent)].  [random] stands for the
    value of [Math.floor(Math.random() * videos.length)], which is below
    the length. *)
Definition getVideoForEmotion (m : mapper) (emotion : string)
    (preferRecent : bool) (random : nat) : outcome (option video) :=
  if negb (initialized m) then Returns None
  else
    let emotion := Js.toLowerCase emotion in
    let found :=
      match some_videos (emotionVideoMap m !! emotion) with
      | Some videos => Returns videos
      | None => getFallbackVideos m emotion
      end in
    match found with
    | Throws message => Throws message
    | Returns [] => Returns None
    | Returns (v :: vs) =>
        if preferRecent then Returns (Some v)
        else Returns (nth_error (v :: vs) (random mod length (v :: vs)))
    end.

(** The videos indexed under an emotion, and the fallback list of an
    emotion: its own list, or [neutral] alone for an emotion the table does
    not have. *)
Definition indexed (m : mapper) (emotion : string) : list video :=
  default [] (emotionVideoMap m !! emotion).

Definition fallbacks_of (emotion : string) : list string :=
  match assoc emotion fallbackMap with
  | Some l => l
  | None => ["neutral"]
  end.

End VideoEmotionMapper.

(** ** The integrated server *)

Module Server.

(** *** The two detectors of [server.js] *)

Definition customTriggers : list string :=
  ["be a"; "become a"; "turn into"; "transform into";
   "can you be"; "could you be"; "please be";
   "show me a"; "let me see a"; "i want a";
   "be like a"; "act like a"].

Definition stopWords : list string :=
  ["and"; "tell"; "show"; "me"; "the"; "a"; "an"; "that"; "can"; "will";
   "would"; "should"; "please"; "now"; "today"; "tomorrow"; "about"; "what";
   "how"; "why"; "when"; "where"].

Definition is_stop_word (w : string) : bool := existsb (String.eqb w) stopWords.

Definition is_punctuation (c : ascii) : bool :=
  existsb (Ascii.eqb c) ["?"; "!"; "."; ","; ";"; ":"]%char.

(** The loop over [words[0..min(4, words.length))]: a word that is not a
    stop word and has more than one character is kept; the loop stops when
    two are kept, or when the next word is a stop word. *)
Fixpoint character_words (rounds : nat) (words kept : list string) : list string :=
  match rounds, words with
  | O, _ => kept
  | _, [] => kept
  | S n, w :: rest =>
      let word := Js.toLowerCase w in
      if negb (is_stop_word word) && (1 <? String.length word)%nat
      then
        let kept' := (kept ++ [word])%list in
        if (2 <=? length kept')%nat
           || ((1 <=? length kept')%nat
               && match rest with
                  | next :: _ => is_stop_word next
                  | [] => false
                  end)
        then kept'
        else character_words n rest kept'
      else character_words n rest kept
  end.

(** The body of the loop over the triggers, for a trigger the text
    includes and that splits it in two parts at least. *)
Definition describe (part : string) : string :=
  let characterDescription :=
    Js.trim (Js.remove_chars is_punctuation (Js.trim part)) in
  let words := Js.split characterDescription " " in
  match character_words 4 words [] with
  | [] =>
      match words with
      | w :: _ => if Js.truthy w then w else "character"
      | [] => "character"
      end
  | kept => Js.join " " kept
  end.

Fixpoint describe_first (text : string) (triggers : list string) : string :=
  match triggers with
  | [] => text
  | trigger :: rest =>
      if Js.includes text trigger then
        match Js.split text trigger with
        | _ :: part :: _ => describe part
        | _ => describe_first text rest
        end
      else describe_first text rest
  end.

(** [detectCustomCharacterRequest]: [null], or the description of the
    character asked for. *)
Definition detectCustomCharacterRequest (userInput : string) : option string :=
  let text := Js.toLowerCase userInput in
  if existsb (Js.includes text) customTriggers
  then Some (describe_first text customTriggers)
  else None.

Definition emotionPatterns : list (string * list string) :=
  [("anger", ["angry"; "mad"; "furious"; "rage"; "pissed"; "irritated";
              "annoyed"; "frustrated"; "upset"; "hate"; "disgusting";
              "terrible"; "awful"; "stupid"; "damn"; "shit"; "fuck"]);
   ("sadness", ["sad"; "crying"; "depressed"; "miserable"; "heartbroken";
                "grief"; "sorrow"; "melancholy"; "blue"; "down";
                "disappointed"; "sorry"; "unfortunately"; "tragic"; "loss"]);
   ("happiness", ["happy"; "joy"; "joyful"; "cheerful"; "delighted";
                  "pleased"; "glad"; "content"; "satisfied"; "great";
                  "wonderful"; "amazing"; "fantastic"; "awesome"; "excellent";
                  "perfect"; "love"; "smile"; "laugh"]);
   ("fear", ["afraid"; "scared"; "terrified"; "frightened"; "nervous";
             "worried"; "anxious"; "panic"; "dread"; "horror"; "concern";
             "stress"]);
   ("surprise", ["wow"; "omg"; "whoa"; "incredible"; "unbelievable";
                 "shocking"; "amazing"; "astonishing"; "unexpected"; "sudden";
                 "surprise"]);
   ("disgust", ["disgusting"; "gross"; "yuck"; "eww"; "revolting";
                "repulsive"; "nasty"; "sick"; "vomit"]);
   ("excitement", ["excited"; "thrilled"; "enthusiastic"; "pumped";
                   "energetic"; "hyped"; "eager"; "fired up"; "ready";
                   "let's go"]);
   ("calm", ["calm"; "peaceful"; "relaxed"; "serene"; "tranquil"; "quiet";
             "still"; "zen"; "meditation"; "breathe"]);
   ("anxiety", ["anxious"; "stressed"; "nervous"; "worried"; "tense";
                "overwhelmed"; "panic"; "restless"]);
   ("joy", ["joy"; "bliss"; "elated"; "euphoric"; "ecstatic"; "overjoyed";
            "celebration"; "party"; "fun"])].

Definition score (combinedText : string) (patterns : list string) : nat :=
  fold_left (fun total pattern => total + Js.count_matches combinedText pattern)
    patterns 0.

(** The loop that keeps the first emotion of the highest score. *)
Fixpoint highest (scores : list (string * nat)) (maxEmotion : string) (maxScore : nat)
  : string * nat :=
  match scores with
  | [] => (maxEmotion, maxScore)
  | (emotion, sc) :: rest =>
      if (maxScore <? sc)%nat then highest rest emotion sc
      else highest rest maxEmotion maxScore
  end.

(** [detectEmotionFromText] *)
Definition detectEmotionFromText (userInput aiResponse : string) : string :=
  let combinedText := Js.toLowerCase (userInput +:+ " " +:+ aiResponse) in
  let emotionScores :=
    map (fun '(emotion, patterns) => (emotion, score combinedText patterns))
      emotionPatterns in
  let '(maxEmotion, maxScore) := highest emotionScores "neutral" 0 in
  if (0 <? maxScore)%nat then maxEmotion else "neutral".

Definition resetCommands : list string :=
  ["go back to normal"; "be normal"; "reset character"; "default character";
   "stop being"; "go back to default"].

Definition isResetCommand (text : string) : bool :=
  existsb (Js.includes (Js.toLowerCase text)) resetCommands.

(** *** The state of the server *)

Record turn : Type := {
  role : string;
  content : string;
  timestamp : Z
}.

(** A session; [currentAudioStream] and [currentVideoStream] are created
    [null] and never assigned. *)
Record session : Type := {
  conversationHistory : list turn;
  isProcessing : bool;
  clientType : string
}.

(** A connection; its socket is named by its id. *)
Record connection : Type := {
  connectedAt : Z;
  isHologram : bool
}.

(** The custom video of a session: [{ url, emotion, description, cached }]. *)
Record customVideo : Type := {
  url : option string;
  emotion : string;
  description : string;
  cached : bool
}.

(** The [video] field of what is sent: a custom video, or
    [{ filename, url, emotion }] for a standard one. *)
Inductive videoData : Type :=
  | Custom (c : customVideo)
  | Standard (filename url emotion : string).

Record timing : Type := {
  timing_transcription : option Z;
  timing_response : option Z;
  timing_audio : option Z;
  timing_total : Z
}.

(** The bundle of [conversation-complete]; [customCharacter] is [None] when
    it is [null] or left out. *)
Record bundle : Type := {
  bundle_transcription : string;
  bundle_response : string;
  bundle_emotion : string;
  bundle_audio : option string;
  bundle_video : option videoData;
  bundle_customCharacter : option (string * bool);
  bundle_timing : option timing;
  bundle_error : option string
}.

(** The content of [display-content]. *)
Record display : Type := {
  display_audio : option string;
  display_video : option videoData;
  display_text : string;
  display_emotion : string;
  display_customCharacter : option (string * bool)
}.

Inductive event : Type :=
  | Config
  | Status (state : string)
  | TranscriptionResult (text : string)
  | ConversationComplete (b : bundle)
  | DisplayContent (c : display)
  | Error (message error : string)
  | ResetComplete.

(** The server: the maps of [server.js], the two metrics the handlers
    count, the two services that have a state, and the events emitted so
    far, each with the id of the socket it was emitted on.  [connections]
    keeps the order of insertion, which is the order of a broadcast. *)
Record server : Type := {
  sessions : gmap string session;
  connections : list (string * connection);
  activeCustomCharacters : gmap string customVideo;
  conversationsProcessed : nat;
  videosStreamed : nat;
  videoEmotionMapper : VideoEmotionMapper.mapper;
  customCharacterGenerator : CustomCharacterGenerator.state;
  emitted : list (string * event)
}.

Definition with_sessions (f : gmap string session -> gmap string session)
    (s : server) : server :=
  {| sessions := f (sessions s); connections := connections s;
     activeCustomCharacters := activeCustomCharacters s;
     conversationsProcessed := conversationsProcessed s;
     videosStreamed := videosStreamed s;
     videoEmotionMapper := videoEmotionMapper s;
     customCharacterGenerator := customCharacterGenerator s;
     emitted := emitted s |}.

Definition with_connections (f : list (string * connection) -> list (string * connection))
    (s : server) : server :=
  {| sessions := sessions s; connections := f (connections s);
     activeCustomCharacters := activeCustomCharacters s;
     conversationsProcessed := conversationsProcessed s;
     videosStreamed := videosStreamed s;
     videoEmotionMapper := videoEmotionMapper s;
     customCharacterGenerator := customCharacterGenerator s;
     emitted := emitted s |}.

Definition with_activeCustomCharacters
    (f : gmap string customVideo -> gmap string customVideo) (s : server) : server :=
  {| sessions := sessions s; connections := connections s;
     activeCustomCharacters := f (activeCustomCharacters s);
     conversationsProcessed := conversationsProcessed s;
     videosStreamed := videosStreamed s;
     videoEmotionMapper := videoEmotionMapper s;
     customCharacterGenerator := customCharacterGenerator s;
     emitted := emitted s |}.

Definition with_customCharacterGenerator (g : CustomCharacterGenerator.state)
    (s : server) : server :=
  {| sessions := sessions s; connections := connections s;
     activeCustomCharacters := activeCustomCharacters s;
     conversationsProcessed := conversationsProcessed s;
     videosStreamed := videosStreamed s;
     videoEmotionMapper := videoEmotionMapper s;
     customCharacterGenerator := g;
     emitted := emitted s |}.

(** [metrics.conversationsProcessed++; if (video) metrics.videosStreamed++] *)
Definition count_conversation (with_video : bool) (s : server) : server :=
  {| sessions := sessions s; connections := connections s;
     activeCustomCharacters := activeCustomCharacters s;
     conversationsProcessed := S (conversationsProcessed s);
     videosStreamed := if with_video then S (videosStreamed s) else videosStreamed s;
     videoEmotionMapper := videoEmotionMapper s;
     customCharacterGenerator := customCharacterGenerator s;
     emitted := emitted s |}.

Definition send (l : list (string * event)) (s : server) : server :=
  {| sessions := sessions s; connections := connections s;
     activeCustomCharacters := activeCustomCharacters s;
     conversationsProcessed := conversationsProcessed s;
     videosStreamed := videosStreamed s;
     videoEmotionMapper := videoEmotionMapper s;
     customCharacterGenerator := customCharacterGenerator s;
     emitted := (emitted s ++ l)%list |}.

(** [socket.emit(...)] on the socket of [id]. *)
Definition emit (id : string) (e : event) (s : server) : server := send [(id, e)] s.

(** [Array.from(connections.values()).filter(c => c.isHologram)], and an
    [emit] on the socket of each. *)
Definition hologramConnections (s : server) : list string :=
  map fst (List.filter (fun c => isHologram (snd c)) (connections s)).

Definition broadcast (c : display) (s : server) : server :=
  send (map (fun id => (id, DisplayContent c)) (hologramConnections s)) s.

(** [session.isProcessing = b] and [session.conversationHistory.push(t)],
    on the session of [id]. *)
Definition set_isProcessing (b : bool) (x : session) : session :=
  {| conversationHistory := conversationHistory x; isProcessing := b;
     clientType := clientType x |}.

Definition push_turn (t : turn) (x : session) : session :=
  {| conversationHistory := (conversationHistory x ++ [t])%list;
     isProcessing := isProcessing x; clientType := clientType x |}.

Definition on_session (id : string) (f : session -> session) (s : server) : server :=
  with_sessions (alter f id) s.

(** The flag of a session; a session that does not exist is not busy. *)
Definition busy (s : server) (id : string) : bool :=
  match sessions s !! id with
  | Some x => isProcessing x
  | None => false
  end.

Definition history (s : server) (id : string) : list turn :=
  match sessions s !! id with
  | Some x => conversationHistory x
  | None => []
  end.

(** *** The handlers

    A handler runs up to its first [await]; what it still has to do is a
    [pending] value that holds the variables that are live at the [await].
    [now] is the reading of the clock while the piece of code runs.  A
    handler that is suspended keeps the session object it has read; the
    model follows a run while its socket is connected, so that this object
    is the session of the socket ([disconnect] is not modelled). *)

Inductive origin : Type := TextInput | AudioForTranscription.

Record run : Type := {
  run_origin : origin;
  run_socket : string;
  run_text : string;        (* [text], or [transcription.text] *)
  run_startTime : Z
}.

Inductive pending : Type :=
  | AwaitTranscription (id : string)
      (* whisperService.transcribeAudio *)
  | AwaitResponse (r : run)
      (* geminiService.generateResponse *)
  | AwaitCharacter (r : run) (response : string) (responseTime : Z)
      (detectedEmotion description : string)
      (* customCharacterGenerator.getOrCreateVariant *)
  | AwaitAudio (r : run) (response : string) (responseTime audioStartTime : Z)
      (detectedEmotion : string) (video : option VideoEmotionMapper.video)
      (custom : option customVideo).
      (* elevenLabsStream.generateAudioREST *)

(** The socket a suspended run belongs to. *)
Definition socket_of (k : pending) : string :=
  match k with
  | AwaitTranscription id => id
  | AwaitResponse r => run_socket r
  | AwaitCharacter r _ _ _ _ => run_socket r
  | AwaitAudio r _ _ _ _ _ _ => run_socket r
  end.

(** [io.on('connection')] *)
Fixpoint set_connection (id : string) (c : connection)
    (l : list (string * connection)) : list (string * connection) :=
  match l with
  | [] => [(id, c)]
  | (id', c') :: rest =>
      if String.eqb id id' then (id, c) :: rest
      else (id', c') :: set_connection id c rest
  end.

Definition on_connection (now : Z) (id : string) (s : server) : server :=
  let s := with_sessions
             (insert id {| conversationHistory := []; isProcessing := false;
                           clientType := "unknown" |}) s in
  let s := with_connections
             (set_connection id {| connectedAt := now; isHologram := false |}) s in
  emit id Config s.

(** [socket.on('identify')] *)
Definition on_identify (id type : string) (s : server) : server :=
  match sessions s !! id, assoc id (connections s) with
  | Some _, Some c =>
      let s := on_session id
                 (fun x => {| conversationHistory := conversationHistory x;
                              isProcessing := isProcessing x;
                              clientType := type |}) s in
      with_connections
        (set_connection id
           {| connectedAt := connectedAt c;
              isHologram := String.eqb type "hologram" || String.eqb type "mobile" |}) s
  | _, _ => s
  end.

(** The outer [catch] of the two conversation handlers. *)
Definition outer_catch (message : string) (id error : string) (s : server) : server :=
  let s := on_session id (set_isProcessing false) s in
  let s := emit id (Error message error) s in
  emit id (Status "idle") s.

Definition failure_message (o : origin) : string :=
  match o with
  | TextInput => "Failed to process text"
  | AudioForTranscription => "Failed to process audio"
  end.

(** [socket.emit('status', { state: 'idle' }); session.isProcessing = false] *)
Definition back_to_idle (id : string) (s : server) : server :=
  on_session id (set_isProcessing false) (emit id (Status "idle") s).

(** [{ filename, url: `/generated_files/${filename}`, emotion }] *)
Definition standard (v : VideoEmotionMapper.video) : videoData :=
  Standard (VideoEmotionMapper.filename v)
    ("/generated_files/" +:+ VideoEmotionMapper.filename v)
    (VideoEmotionMapper.emotion v).

(** The video is chosen: [generating-audio] is announced and the voice is
    asked for. *)
Definition ask_for_audio (now : Z) (r : run) (response : string) (responseTime : Z)
    (detectedEmotion : string) (video : option VideoEmotionMapper.video)
    (custom : option customVideo) (s : server) : server * option pending :=
  (emit (run_socket r) (Status "generating-audio") s,
   Some (AwaitAudio r response responseTime now detectedEmotion video custom)).

(** [video = videoEmotionMapper.getVideoForEmotion(detectedEmotion)], an
    exception of which reaches the outer [catch]. *)
Definition with_standard_video (now : Z) (r : run) (response : string)
    (responseTime : Z) (detectedEmotion : string) (s : server)
  : server * option pending :=
  match VideoEmotionMapper.getVideoForEmotion (videoEmotionMapper s)
          detectedEmotion true 0 with
  | Returns video =>
      ask_for_audio now r response responseTime detectedEmotion video None s
  | Throws error =>
      (outer_catch (failure_message (run_origin r)) (run_socket r) error s, None)
  end.

(** [socket.on('text-input')] on a payload whose [text] is a string, up to
    [await generateResponse]; what the handler does on the other payloads
    is in [Payloads.on_text_input_data]. *)
Definition on_text_input (now : Z) (id text : string) (s : server)
  : server * option pending :=
  match sessions s !! id with
  | None => (s, None)
  | Some x =>
      if isProcessing x || negb (Js.truthy text) || negb (Js.truthy (Js.trim text))
      then (s, None)
      else
        let s := on_session id (set_isProcessing true) s in
        let s := emit id (Status "thinking") s in
        let s := on_session id
                   (push_turn {| role := "user"; content := text;
                                 timestamp := now |}) s in
        (s, Some (AwaitResponse {| run_origin := TextInput; run_socket := id;
                                   run_text := text; run_startTime := now |}))
  end.

(** [socket.on('audio-for-transcription')], up to [await transcribeAudio]. *)
Definition on_audio_for_transcription (id : string) (s : server)
  : server * option pending :=
  match sessions s !! id with
  | None => (s, None)
  | Some x =>
      if isProcessing x then (s, None)
      else
        let s := on_session id (set_isProcessing true) s in
        (emit id (Status "transcribing") s, Some (AwaitTranscription id))
  end.

(** The transcription has arrived, or [transcribeAudio] has thrown. *)
Definition resume_transcription (now : Z) (answer : outcome string) (id : string)
    (s : server) : server * option pending :=
  match answer with
  | Throws error => (outer_catch "Failed to process audio" id error s, None)
  | Returns text =>
      let s := emit id (TranscriptionResult text) s in
      if Js.truthy text && Js.truthy (Js.trim text) then
        let s := on_session id
                   (push_turn {| role := "user"; content := text;
                                 timestamp := now |}) s in
        let s := emit id (Status "thinking") s in
        (s, Some (AwaitResponse {| run_origin := AudioForTranscription;
                                   run_socket := id; run_text := text;
                                   run_startTime := now |}))
      else (s, None)
  end.

(** The reply has arrived ([generateResponse] catches its own exceptions
    and always answers). *)
Definition resume_response (now : Z) (response : string) (r : run) (s : server)
  : server * option pending :=
  let id := run_socket r in
  let text := run_text r in
  let responseTime := (now - run_startTime r)%Z in
  let s := on_session id
             (push_turn {| role := "assistant"; content := response;
                           timestamp := now |}) s in
  let reset :=
    match run_origin r with
    | TextInput => isResetCommand text
    | AudioForTranscription => false
    end in
  let s := if reset then with_activeCustomCharacters (delete id) s else s in
  let customCharacterRequest := detectCustomCharacterRequest text in
  let detectedEmotion := detectEmotionFromText text response in
  let activeCustomChar := activeCustomCharacters s !! id in
  let continue_with (c : customVideo) :=
    Js.truthy (description c) && negb reset in
  match customCharacterRequest, activeCustomChar with
  | Some request, _ =>
      if Js.truthy request then
        (emit id (Status "generating-character") s,
         Some (AwaitCharacter r response responseTime detectedEmotion request))
      else
        match activeCustomChar with
        | Some c =>
            if continue_with c then
              ((match run_origin r with
                | TextInput => emit id (Status "generating-character") s
                | AudioForTranscription => s
                end),
               Some (AwaitCharacter r response responseTime detectedEmotion
                       (description c)))
            else with_standard_video now r response responseTime detectedEmotion s
        | None => with_standard_video now r response responseTime detectedEmotion s
        end
  | None, Some c =>
      if continue_with c then
        ((match run_origin r with
          | TextInput => emit id (Status "generating-character") s
          | AudioForTranscription => s
          end),
         Some (AwaitCharacter r response responseTime detectedEmotion
                 (description c)))
      else with_standard_video now r response responseTime detectedEmotion s
  | None, None => with_standard_video now r response responseTime detectedEmotion s
  end.

(** [getOrCreateVariant] has returned or thrown; it is run here in one
    piece, with the answers the outside gave it. *)
Definition resume_character (now : Z) (a : CustomCharacterGenerator.answers)
    (r : run) (response : string) (responseTime : Z)
    (detectedEmotion description : string) (s : server)
  : server * option pending :=
  let id := run_socket r in
  let '(g, customResult) :=
    CustomCharacterGenerator.getOrCreateVariant a (customCharacterGenerator s)
      detectedEmotion description in
  let s := with_customCharacterGenerator g s in
  let succeeded :=
    match customResult with
    | Returns res =>
        if CustomCharacterGenerator.success res then Some res else None
    | Throws _ => None
    end in
  match succeeded with
  | Some res =>
      let custom := {| url := CustomCharacterGenerator.path res;
                       emotion := detectedEmotion;
                       description := description;
                       cached := CustomCharacterGenerator.cached res |} in
      let s := with_activeCustomCharacters (insert id custom) s in
      ask_for_audio now r response responseTime detectedEmotion None (Some custom) s
  | None => with_standard_video now r response responseTime detectedEmotion s
  end.

(** The voice has arrived, or [generateAudioREST] has thrown. *)
Definition resume_audio (now : Z) (answer : outcome string) (r : run)
    (response : string) (responseTime audioStartTime : Z)
    (detectedEmotion : string) (video : option VideoEmotionMapper.video)
    (custom : option customVideo) (s : server) : server * option pending :=
  let id := run_socket r in
  match answer with
  | Returns audio =>
      let videoData :=
        match custom with
        | Some c => Some (Custom c)
        | None => standard <$> video
        end in
      let shown_emotion :=
        match custom with Some c => emotion c | None => detectedEmotion end in
      let customCharacter := (fun c => (description c, cached c)) <$> custom in
      let s := emit id (ConversationComplete
                 {| bundle_transcription := run_text r;
                    bundle_response := response;
                    bundle_emotion := shown_emotion;
                    bundle_audio := Some audio;
                    bundle_video := videoData;
                    bundle_customCharacter := customCharacter;
                    bundle_timing :=
                      Some match run_origin r with
                           | TextInput =>
                               {| timing_transcription := None;
                                  timing_response := None;
                                  timing_audio := None;
                                  timing_total := (now - run_startTime r)%Z |}
                           | AudioForTranscription =>
                               {| timing_transcription := Some 0%Z;
                                  timing_response := Some responseTime;
                                  timing_audio := Some (now - audioStartTime)%Z;
                                  timing_total := (now - run_startTime r)%Z |}
                           end;
                    bundle_error := None |}) s in
      let s := broadcast {| display_audio := Some audio;
                            display_video := videoData;
                            display_text := response;
                            display_emotion := shown_emotion;
                            display_customCharacter := customCharacter |} s in
      let s := count_conversation (bool_decide (is_Some video)) s in
      (back_to_idle id s, None)
  | Throws error =>
      match run_origin r with
      | TextInput =>
          let s := emit id (ConversationComplete
                     {| bundle_transcription := run_text r;
                        bundle_response := response;
                        bundle_emotion := detectedEmotion;
                        bundle_audio := None;
                        bundle_video := standard <$> video;
                        bundle_customCharacter := None;
                        bundle_timing := None;
                        bundle_error := Some "Failed to generate audio" |}) s in
          let s := broadcast {| display_audio := None;
                                display_video := standard <$> video;
                                display_text := response;
                                display_emotion := detectedEmotion;
                                display_customCharacter := None |} s in
          (back_to_idle id s, None)
      | AudioForTranscription =>
          let s := emit id (Error "Failed to generate audio" error) s in
          (back_to_idle id s, None)
      end
  end.

(** What a collaborator answers. *)
Inductive answer : Type :=
  | Transcribed (text : outcome string)
  | Responded (response : string)
  | Generated (a : CustomCharacterGenerator.answers)
  | Spoken (audio : outcome string).

(** A suspended run is resumed with the answer it waits for; an answer of
    another kind is not for it. *)
Definition resume (now : Z) (k : pending) (a : answer) (s : server)
  : server * option pending :=
  match k, a with
  | AwaitTranscription id, Transcribed text => resume_transcription now text id s
  | AwaitResponse r, Responded response => resume_response now response r s
  | AwaitCharacter r response responseTime detectedEmotion description, Generated a =>
      resume_character now a r response responseTime detectedEmotion description s
  | AwaitAudio r response responseTime audioStartTime detectedEmotion video custom,
    Spoken audio =>
      resume_audio now audio r response responseTime audioStartTime
        detectedEmotion video custom s
  | _, _ => (s, Some k)
  end.

(** [socket.on('interrupt')] *)
Definition on_interrupt (id : string) (s : server) : server :=
  match sessions s !! id with
  | Some _ => emit id (Status "idle") (on_session id (set_isProcessing false) s)
  | None => s
  end.

(** [socket.on('reset')] *)
Definition on_reset (id : string) (s : server) : server :=
  match sessions s !! id with
  | Some _ =>
      let s := on_session id
                 (fun x => {| conversationHistory := [];
                              isProcessing := false;
                              clientType := clientType x |}) s in
      emit id ResetComplete s
  | None => s
  end.

(** The events emitted between two states of the server. *)
Definition emitted_since (s s' : server) : list (string * event) :=
  skipn (length (emitted s)) (emitted s').

Definition is_conversation_complete (e : string * event) : bool :=
  match snd e with ConversationComplete _ => true | _ => false end.

Definition is_display_content (e : string * event) : bool :=
  match snd e with DisplayContent _ => true | _ => false end.

Definition is_idle (e : string * event) : bool :=
  match snd e with Status state => String.eqb state "idle" | _ => false end.

(** A run is driven with the answers of its collaborators, each with the
    reading of the clock when it arrives, until it has nothing more to wait
    for. *)
Fixpoint drive (answers : list (Z * answer)) (s : server) (k : option pending)
  : server * option pending :=
  match answers, k with
  | (now, a) :: rest, Some k =>
      let '(s', k') := resume now k a s in drive rest s' k'
  | _, _ => (s, k)
  end.

(** *** Relations between two states of the server *)

(** Two sessions that differ at most by their busy flag. *)
Definition same_session (x y : session) : Prop :=
  conversationHistory x = conversationHistory y /\ clientType x = clientType y.

(** Two servers that differ at most by the busy flags of their sessions and
    by what they have emitted. *)
Definition alike (s s' : server) : Prop :=
  (forall id, option_Forall2 same_session (sessions s !! id) (sessions s' !! id)) /\
  connections s = connections s' /\
  activeCustomCharacters s = activeCustomCharacters s' /\
  conversationsProcessed s = conversationsProcessed s' /\
  videosStreamed s = videosStreamed s' /\
  videoEmotionMapper s = videoEmotionMapper s' /\
  customCharacterGenerator s = customCharacterGenerator s'.

(** Two such servers that have emitted the same events since they had
    emitted [b] and [b']. *)
Definition tracks (b b' : list (string * event)) (s s' : server) : Prop :=
  alike s s' /\
  exists l, emitted s = (b ++ l)%list /\ emitted s' = (b' ++ l)%list.

End Server.

(** ** Predicates on tasks used to state properties *)

Module TaskFacts.

Import CustomCharacterGenerator Tasks.

(** The task has not entered [generateVariant] yet. *)
Definition before_generation (t : task) : bool :=
  match t with
  | AwaitAccess _ | AwaitEvictSave _ => true
  | _ => false
  end.

(** What a task that runs alone can rely on: the file it tests is the one
    of the entry, the entry it is saving is in the manifest with its file
    written, and the result it returned with [success] names a recorded
    file that is there. *)
Definition consistent (emotion customDescription : string) (st : state) (t : task)
  : Prop :=
  match t with
  | AwaitAccess tested =>
      forall ent, recorded st emotion customDescription = Some ent ->
                  filename ent = tested
  | AwaitEntrySave fn ent _ =>
      recorded st emotion customDescription = Some ent /\
      filename ent = fn /\ fn ∈ files st
  | Done (Returns r) =>
      success r = true ->
      exists ent,
        recorded st emotion customDescription = Some ent /\
        filename ent ∈ files st /\
        path r = Some (variant_path (filename ent)) /\
        metadata r = Some ent
  | _ => True
  end.

(** The first call moves with each of the answers in turn; the second call
    is not made. *)
Definition first_alone (l : list answers) : list (caller * answers) :=
  map (pair First) l.

(** The state of the two calls while only the first has moved. *)
Definition alone (emotion customDescription : string) (s : system) : Prop :=
  second s = None /\
  match first s with
  | None => effects s = [] /\ generations s = 0
  | Some t =>
      consistent emotion customDescription (cache s) t /\
      generations s <= 1 /\
      (before_generation t = true -> generations s = 0)
  end.

(** The state of the two calls once the first has returned the recorded
    entry [ent]: since [s0] nothing was written and nothing was invoked, and
    the second call is not made, or tests the file of [ent], or has returned
    [ent] as a hit. *)
Definition settled (ent : entry) (s0 s : system) : Prop :=
  cache s = cache s0 /\ effects s = effects s0 /\ first s = first s0 /\
  (second s = None \/
   second s = Some (AwaitAccess (filename ent)) \/
   second s = Some (Done (Returns (hit (variant_path (filename ent)) ent)))).

End TaskFacts.

(** ** Sample inputs

    Concrete states and answers, used to run the definitions. *)

Module Sample.

Import CustomCharacterGenerator.

(** A generator whose cache is empty. *)
Definition empty_cache : state :=
  {| manifest := Some ∅; files := ∅; images := ∅; manifest_json := ∅ |}.

(** The outside when everything works: the video service answers with
    [{ video: { url } }]. *)
Definition all_well (clock : string) : answers :=
  {| evict_saved := true; reference_readable := true;
     image_generated := true; image_written := true;
     fal_answer :=
       Some (Some {| data_video_url := None;
                     video_dot_url := Some "https://fal.media/files/a.mp4";
                     video_url := None; url := None;
                     output_video_url := None |});
     downloaded := true;
     left_behind := false;
     clock_filename := clock; clock_generatedAt := clock;
     entry_saved := true; failure_message := "" |}.

Definition morning : answers := all_well "2025-09-01T10:00:00.000Z".
Definition noon : answers := all_well "2025-09-01T12:00:00.000Z".

Definition after_first_call : state * outcome result :=
  Eval vm_compute in getOrCreateVariant morning empty_cache "neutral" "grumpy pirate".

Definition first_result : result :=
  Eval vm_compute in
    match snd after_first_call with
    | Returns r => r
    | Throws m => failure m
    end.

(** Two calls for the same character that overlap: both are made before
    either has gone further than its first await, then they take turns. *)
Definition overlapping : list (Tasks.caller * answers) :=
  [(Tasks.First, morning); (Tasks.Second, noon)]
  ++ concat (repeat [(Tasks.First, morning); (Tasks.Second, noon)] 8).

Definition after_overlap : Tasks.system :=
  Tasks.run "neutral" "grumpy pirate" overlapping (Tasks.initial empty_cache).

(** The first call alone, to its end. *)
Definition first_to_its_end : list answers := repeat morning 9.

(** Then the second call, while the first is asked to move again. *)
Definition second_afterwards : list (Tasks.caller * answers) :=
  [(Tasks.Second, noon); (Tasks.First, noon); (Tasks.Second, noon)].

(** Sample mappers: one video of joy, one of neutral. *)
Definition joy_video : VideoEmotionMapper.video :=
  {| VideoEmotionMapper.filename := "joy_20250901_100000.mp4";
     VideoEmotionMapper.path := "/srv/generated_files/joy_20250901_100000.mp4";
     VideoEmotionMapper.emotion := "joy";
     VideoEmotionMapper.timestamp := 1756720800000 |}.

Definition neutral_video : VideoEmotionMapper.video :=
  {| VideoEmotionMapper.filename := "neutral_20250801_090000.mp4";
     VideoEmotionMapper.path := "/srv/generated_files/neutral_20250801_090000.mp4";
     VideoEmotionMapper.emotion := "neutral";
     VideoEmotionMapper.timestamp := 1754038800000 |}.

(** [initialize()] has run. *)
Definition ready_mapper : VideoEmotionMapper.mapper :=
  VideoEmotionMapper.initialize [joy_video; neutral_video]
    VideoEmotionMapper.create.

(** [refresh()] has run on a new mapper, [initialize()] has not. *)
Definition refreshed_mapper : VideoEmotionMapper.mapper :=
  VideoEmotionMapper.refresh [joy_video; neutral_video]
    VideoEmotionMapper.create.

(** A server on which two clients are connected: [talker] talks, and
    [viewer] has identified itself as a mobile display. *)
Definition talker : string := "Jq3xW_abc".
Definition viewer : string := "k9TzR_xyz".

Definition boot : Server.server :=
  {| Server.sessions := ∅; Server.connections := [];
     Server.activeCustomCharacters := ∅;
     Server.conversationsProcessed := 0; Server.videosStreamed := 0;
     Server.videoEmotionMapper := ready_mapper;
     Server.customCharacterGenerator := empty_cache;
     Server.emitted := [] |}.

Definition two_clients : Server.server :=
  Server.on_identify viewer "mobile"
    (Server.on_connection 1000 viewer
       (Server.on_identify talker "web"
          (Server.on_connection 900 talker boot))).

(** The talker sends audio in which nothing is said. *)
Definition silence_submitted : Server.server * option Server.pending :=
  Server.on_audio_for_transcription talker two_clients.

Definition silence_transcribed : Server.server * option Server.pending :=
  Server.drive [(2000%Z, Server.Transcribed (Returns "  "))]
    (fst silence_submitted) (snd silence_submitted).

(** The talker sends audio; the voice synthesis fails. *)
Definition spoken_turn_without_voice : Server.server * option Server.pending :=
  let '(s, k) := Server.on_audio_for_transcription talker two_clients in
  Server.drive
    [(2000%Z, Server.Transcribed (Returns "hello there"));
     (2600%Z, Server.Responded "Hi! Nice to see you.");
     (3100%Z, Server.Spoken (Throws "quota exceeded"))] s k.

(** The talker types; the voice synthesis fails. *)
Definition typed_turn_without_voice : Server.server * option Server.pending :=
  let '(s, k) := Server.on_text_input 1500 talker "hello there" two_clients in
  Server.drive
    [(2000%Z, Server.Responded "Hi! Nice to see you.");
     (2500%Z, Server.Spoken (Throws "quota exceeded"))] s k.

(** The talker asks for a character; it is generated; the voice synthesis
    fails. *)
Definition typed_pirate_without_voice : Server.server * option Server.pending :=
  let '(s, k) :=
    Server.on_text_input 1500 talker "can you be a grumpy pirate" two_clients in
  Server.drive
    [(2000%Z, Server.Responded "Arr, matey!");
     (60000%Z, Server.Generated morning);
     (60500%Z, Server.Spoken (Throws "quota exceeded"))] s k.

(** The talker types, and interrupts while the reply is awaited; the
    reply and the voice arrive afterwards. *)
Definition typed : Server.server * option Server.pending :=
  Server.on_text_input 1500 talker "hello there" two_clients.

Definition interrupted : Server.server :=
  Server.on_interrupt talker (fst typed).

Definition after_interrupt : Server.server * option Server.pending :=
  Server.drive
    [(2000%Z, Server.Responded "Hi! Nice to see you.");
     (2500%Z, Server.Spoken (Returns "UklGRg=="))]
    interrupted (snd typed).

(** The talker has a pirate as custom character and a turn in progress. *)
Definition pirate_in_progress : Server.server :=
  fst (Server.drive
         [(2000%Z, Server.Responded "Arr, matey!");
          (60000%Z, Server.Generated morning)]
         (fst (Server.on_text_input 1500 talker "can you be a grumpy pirate"
                 two_clients))
         (snd (Server.on_text_input 1500 talker "can you be a grumpy pirate"
                 two_clients))).

End Sample.

(** ** Further definitions: strings *)

Module JsFacts.

(** Every code unit of the string satisfies [p]. *)
Fixpoint all_chars (p : ascii -> bool) (s : string) : bool :=
  match s with
  | EmptyString => true
  | String c r => p c && all_chars p r
  end.

(** The string begins, or ends, with whitespace. *)
Definition starts_with_space (s : string) : bool :=
  match s with
  | String c _ => Js.is_space c
  | EmptyString => false
  end.

Fixpoint ends_with_space (s : string) : bool :=
  match s with
  | EmptyString => false
  | String c EmptyString => Js.is_space c
  | String _ r => ends_with_space r
  end.

(** Two whitespace characters follow each other somewhere in the string. *)
Fixpoint has_double_space (s : string) : bool :=
  match s with
  | String c ((String c' _) as r) =>
      (Js.is_space c && Js.is_space c') || has_double_space r
  | _ => false
  end.

(** The characters of a cache key: lowercase letters, digits, underscore. *)
Definition is_key_safe (c : ascii) : bool :=
  Js.is_lower_az c || Js.is_digit c || Ascii.eqb c "_".

(** A character that is not whitespace, or is the plain space. *)
Definition plain (c : ascii) : bool := negb (Js.is_space c) || Ascii.eqb c " ".

End JsFacts.



(** ** Further definitions: the keywords of [parseUserRequest] *)

Module Keywords.

(** All the keywords of the table, in the order the loops visit them. *)
Definition all_keywords : list string :=
  concat (map snd CustomCharacterGenerator.emotionKeywords).

(** A keyword occurs in a prompt, whatever the case of its letters. *)
Definition occurs (userPrompt keyword : string) : bool :=
  Js.includes (Js.toLowerCase userPrompt) keyword.

End Keywords.

(** ** Further definitions: the rest of the generator and its HTTP routes *)

Module CacheAdmin.

Import CustomCharacterGenerator.

Definition remove_file (f : string) (st : state) : state :=
  {| manifest := manifest st; files := files st ∖ {[ f ]};
     images := images st; manifest_json := manifest_json st |}.

(** The name of [imagesDir] inside [cacheDir]. *)
Definition images_directory : string := "generated_images".

(** The loop of [clearCache] over the names that [readdir(cacheDir)] has
    listed: every name but [manifest.json] is unlinked.  [unlink] fails on
    a directory, and [generated_images] is one; it fails on a name that is
    not there.  [message] is the message of the exception. *)
Fixpoint unlink_each (message : string) (listing : list string) (st : state)
  : state * outcome unit :=
  match listing with
  | [] => (st, Returns tt)
  | file :: rest =>
      if String.eqb file "manifest.json" then unlink_each message rest st
      else if String.eqb file images_directory then (st, Throws message)
      else if decide (file ∈ files st)
           then unlink_each message rest (remove_file file st)
           else (st, Throws message)
  end.

(** [clearCache]: the files are unlinked, then the manifest is emptied and
    saved.  No exception is caught. *)
Definition clearCache (listing : list string) (saved : bool) (message : string)
    (st : state) : state * outcome unit :=
  match unlink_each message listing st with
  | (st1, Throws m) => (st1, Throws m)
  | (st1, Returns _) => saveManifest saved message (set_manifest ∅ st1)
  end.

(** [POST /generate] of the router: what is answered, and what is emitted
    to the displays. *)
Record answer_json : Type := {
  status : nat;
  json_success : bool;
  json_emotion : option string;
  json_description : option string;
  json_videoPath : option string;
  json_cached : option bool;
  json_metadata : option entry;
  json_error : option string
}.

Definition refused (code : nat) (message : option string) : answer_json :=
  {| status := code; json_success := false; json_emotion := None;
     json_description := None; json_videoPath := None; json_cached := None;
     json_metadata := None; json_error := message |}.

(** ['custom-character-ready']: emotion, description, videoPath, cached. *)
Definition ready : Type := (string * string * option string * bool)%type.

Definition post_generate (a : answers) (io : bool) (prompt : string) (st : state)
  : state * answer_json * option ready :=
  if negb (Js.truthy prompt) then
    (st, refused 400 (Some "Prompt is required"), None)
  else
    let parsed := parseUserRequest prompt in
    let emotion := request_emotion parsed in
    let customDescription := request_customDescription parsed in
    match getOrCreateVariant a st emotion customDescription with
    | (st', Returns result) =>
        if success result then
          (st',
           {| status := 200; json_success := true;
              json_emotion := Some emotion;
              json_description := Some customDescription;
              json_videoPath := path result;
              json_cached := Some (cached result);
              json_metadata := metadata result;
              json_error := None |},
           if io then Some (emotion, customDescription, path result, cached result)
           else None)
        else (st', refused 500 (error result), None)
    | (st', Throws message) => (st', refused 500 (Some message), None)
    end.

End CacheAdmin.

(** ** Further sample inputs *)

Module Cases.

Import CustomCharacterGenerator.

(** The cache after the pirate was generated, its file deleted by hand. *)
Definition stale_cache : state :=
  {| manifest := manifest (fst Sample.after_first_call);
     files := ∅;
     images := images (fst Sample.after_first_call);
     manifest_json := manifest_json (fst Sample.after_first_call) |}.

(** The outside when the video service answers and the transfer breaks
    off: [curl] ends with a status that is not 0 and leaves the part of the
    file that it has received. *)
Definition download_cut : answers :=
  {| evict_saved := true; reference_readable := true;
     image_generated := true; image_written := true;
     fal_answer := fal_answer Sample.morning;
     downloaded := false;
     left_behind := true;
     clock_filename := "2025-09-01T10:00:00.000Z";
     clock_generatedAt := "2025-09-01T10:00:00.000Z";
     entry_saved := true;
     failure_message := "Command failed: curl" |}.

Definition after_failed_call : state * outcome result :=
  Eval vm_compute in
    getOrCreateVariant download_cut Sample.empty_cache "neutral" "grumpy pirate".

Definition failed_result : result :=
  Eval vm_compute in
    match snd after_failed_call with
    | Returns r => r
    | Throws m => failure m
    end.

Definition pirate_entry : entry :=
  {| emotion := "neutral"; customDescription := "grumpy pirate";
     prompt := buildCustomPrompt "neutral" "grumpy pirate";
     filename := "neutral_grumpy_pirate_6787d769_2025-09-01T10-00-00-000Z.mp4";
     generatedAt := "2025-09-01T10:00:00.000Z";
     videoUrl := "https://fal.media/files/a.mp4" |}.

(** What [readdir(cacheDir)] lists after the pirate was generated, with
    and without the directory of the images. *)
Definition listing_with_images : list string :=
  ["generated_images"; "manifest.json";
   "neutral_grumpy_pirate_6787d769_2025-09-01T10-00-00-000Z.mp4"].

Definition listing_without_images : list string :=
  ["manifest.json";
   "neutral_grumpy_pirate_6787d769_2025-09-01T10-00-00-000Z.mp4"].

(** A first request to [POST /generate]. *)
Definition first_request
  : state * CacheAdmin.answer_json * option CacheAdmin.ready :=
  Eval vm_compute in
    CacheAdmin.post_generate Sample.morning true "a grumpy pirate"
      Sample.empty_cache.

End Cases.

(** ** Further definitions: scanning the generated videos *)

Module Scan.

Import VideoEmotionMapper.

(** [s.endsWith(suffix)] *)
Fixpoint endsWith (s suffix : string) : bool :=
  String.eqb s suffix ||
  match s with
  | EmptyString => false
  | String _ r => endsWith r suffix
  end.

(** The value of a string of decimal digits, as [parseInt] reads it. *)
Definition digit_value (c : ascii) : Z := (Z.of_N (Js.code c) - 48)%Z.

Fixpoint parse_digits (acc : Z) (s : string) : Z :=
  match s with
  | EmptyString => acc
  | String c r => parse_digits (10 * acc + digit_value c)%Z r
  end.

(** [s.substr(from, len)] *)
Definition substr (from len : nat) (s : string) : string :=
  Js.take len (Js.drop from s).

(** The place of the first match of [/(\d{8}_\d{6})/]: eight digits, an
    underscore, six digits. *)
Definition stamp_here (s : string) : bool :=
  (String.length (Js.take 15 s) =? 15)%nat
  && JsFacts.all_chars Js.is_digit (substr 0 8 s)
  && String.eqb (substr 8 1 s) "_"
  && JsFacts.all_chars Js.is_digit (substr 9 6 s).

Fixpoint first_stamp (s : string) : option string :=
  if stamp_here s then Some (Js.take 15 s)
  else match s with
       | EmptyString => None
       | String _ r => first_stamp r
       end.

(** [extractTimestampFromFilename].  [date] stands for
    [new Date(year, month, day, hour, minute, second).getTime()], which
    reads the fields in the time zone of the process. *)
Definition extractTimestampFromFilename
    (date : Z -> Z -> Z -> Z -> Z -> Z -> Z) (name : string) : Z :=
  match first_stamp name with
  | Some timestamp =>
      let year := parse_digits 0 (substr 0 4 timestamp) in
      let month := (parse_digits 0 (substr 4 2 timestamp) - 1)%Z in
      let day := parse_digits 0 (substr 6 2 timestamp) in
      let hour := parse_digits 0 (substr 9 2 timestamp) in
      let minute := parse_digits 0 (substr 11 2 timestamp) in
      let second := parse_digits 0 (substr 13 2 timestamp) in
      date year month day hour minute second
  | None => 0%Z
  end.

(** [Array.prototype.sort((a, b) => b.timestamp - a.timestamp)]: the most
    recent first; videos of the same timestamp keep their order. *)
Fixpoint insert_by_timestamp (v : video) (sorted : list video) : list video :=
  match sorted with
  | [] => [v]
  | w :: rest =>
      if (timestamp w <=? timestamp v)%Z then v :: w :: rest
      else w :: insert_by_timestamp v rest
  end.

Definition sort_by_timestamp (videos : list video) : list video :=
  fold_right insert_by_timestamp [] videos.

(** The object that [scanGeneratedVideos] makes of a file name;
    [generatedFilesPath] is a normalized path without a final separator, so
    that [path.join] adds the separator and the name. *)
Definition describe_file (date : Z -> Z -> Z -> Z -> Z -> Z -> Z)
    (generatedFilesPath file : string) : video :=
  {| filename := file;
     path := generatedFilesPath +:+ "/" +:+ file;
     emotion := extractEmotionFromFilename file;
     timestamp := extractTimestampFromFilename date file |}.

(** [scanGeneratedVideos], given what [readdir(generatedFilesPath)] answers:
    the names that end with [.mp4] become videos, sorted; when [readdir]
    throws there are no videos. *)
Definition scanGeneratedVideos (date : Z -> Z -> Z -> Z -> Z -> Z -> Z)
    (generatedFilesPath : string) (readdir : outcome (list string))
  : list video :=
  match readdir with
  | Returns files =>
      sort_by_timestamp
        (map (describe_file date generatedFilesPath)
           (List.filter (fun file => endsWith file ".mp4") files))
  | Throws _ => []
  end.

(** [initialize()] on a new mapper. *)
Definition initialized_from (date : Z -> Z -> Z -> Z -> Z -> Z -> Z)
    (generatedFilesPath : string) (readdir : outcome (list string)) : mapper :=
  initialize (scanGeneratedVideos date generatedFilesPath readdir) create.

(** A reading of the fields as a time in UTC, for the samples: days since
    1970 by the civil calendar, then seconds, then milliseconds. *)
Definition utc (year month day hour minute second : Z) : Z :=
  (let y := if month <? 2 then year - 1 else year in
   let era := y / 400 in
   let yoe := y - era * 400 in
   let mp := (month + 10) mod 12 in
   let doy := (153 * mp + 2) / 5 + day - 1 in
   let doe := yoe * 365 + yoe / 4 - yoe / 100 + doy in
   let days := era * 146097 + doe - 719468 in
   (((days * 24 + hour) * 60 + minute) * 60 + second) * 1000)%Z.

End Scan.

(** ** Further definitions: order of the videos *)

Module ScanFacts.

Import VideoEmotionMapper.

(** Every video is at least as recent as the videos after it. *)
Fixpoint descending (l : list video) : Prop :=
  match l with
  | [] => True
  | v :: rest =>
      Forall (fun w => (timestamp w <= timestamp v)%Z) rest /\ descending rest
  end.

End ScanFacts.

(** ** Further sample inputs: a directory of videos *)

Module Listings.

Import VideoEmotionMapper.

Definition directory : outcome (list string) :=
  Returns ["joy_20250901_100000.mp4"; "notes.txt";
           "joy_20250902_100000.mp4"; "sad_20250903_100000.mp4"].

Definition older : video :=
  Scan.describe_file Scan.utc "generated_files" "joy_20250901_100000.mp4".

End Listings.

(** ** Further definitions: the words of a description *)

Module Words.

(** A character that may stand in a word of a description: neither the
    space the words are split at, nor one of the punctuation marks that
    are removed. *)
Definition in_word (c : ascii) : bool :=
  negb (Ascii.eqb c " ") && negb (Server.is_punctuation c).

(** A word that is not empty and made of such characters. *)
Definition is_word (w : string) : bool :=
  Js.truthy w && JsFacts.all_chars in_word w.

End Words.

(** ** Further definitions: what a run may touch *)

Module ServerFacts.

Import Server.

(** An event on the socket of [id], or a [display-content] on the socket
    of a connection that has identified itself as a display. *)
Definition routed (s : server) (id : string) (e : string * event) : Prop :=
  fst e = id \/
  (is_display_content e = true /\ In (fst e) (hologramConnections s)).

(** From [s] to [s'] the connections and the mapper are the same, the
    sessions and the custom characters of the sockets other than [id] are
    the same, and the events of [s] are followed by events that are
    [routed]. *)
Definition confined (id : string) (s s' : server) : Prop :=
  connections s' = connections s /\
  videoEmotionMapper s' = videoEmotionMapper s /\
  (forall id', id' <> id ->
     sessions s' !! id' = sessions s !! id' /\
     activeCustomCharacters s' !! id' = activeCustomCharacters s !! id') /\
  exists l, emitted s' = (emitted s ++ l)%list /\ Forall (routed s id) l.

(** The conversation turns of the two roles. *)
Definition user_turn (text : string) (now : Z) : turn :=
  {| role := "user"; content := text; timestamp := now |}.

Definition assistant_turn (response : string) (now : Z) : turn :=
  {| role := "assistant"; content := response; timestamp := now |}.

(** The points at which a typed run is suspended once the reply has
    arrived; the emotion with which a character is asked for is one that
    [detectEmotionFromText] has returned. *)
Definition after_reply (r : run) (response : string) (k : pending) : Prop :=
  match k with
  | AwaitCharacter r' response' _ de _ =>
      r' = r /\ response' = response /\
      exists text, de = detectEmotionFromText text response
  | AwaitAudio r' response' _ _ _ _ _ => r' = r /\ response' = response
  | _ => False
  end.

(** What is known when a typed run has ended after the reply. *)
Definition completed (r : run) (response : string) (s s' : server) : Prop :=
  history s' (run_socket r) = history s (run_socket r) /\
  busy s' (run_socket r) = false /\
  exists l b,
    emitted s' = (emitted s ++ l)%list /\
    List.filter is_conversation_complete l
    = [(run_socket r, ConversationComplete b)] /\
    bundle_transcription b = run_text r /\
    bundle_response b = response.

(** What is known while it is still suspended. *)
Definition suspended (r : run) (s s' : server) : Prop :=
  history s' (run_socket r) = history s (run_socket r) /\
  exists l,
    emitted s' = (emitted s ++ l)%list /\
    List.filter is_conversation_complete l = [].

End ServerFacts.

(** ** Further sample inputs: a typed turn *)

Module Typed.

(** The talker types the words that drop the custom character. *)
Definition be_normal : Server.run :=
  {| Server.run_origin := Server.TextInput;
     Server.run_socket := Sample.talker;
     Server.run_text := "be normal";
     Server.run_startTime := 65000 |}.

End Typed.

(** ** Further definitions: GeminiService, the reply of the character *)

Module GeminiService.

(** [/^Pocket Soul:?\s*/i], replaced by the empty string. *)
Definition strip_role_prefix (response : string) : string :=
  if Js.starts_with_ci "Pocket Soul" response then
    let rest := Js.drop 11 response in
    let rest :=
      match rest with
      | String ":" after_colon => after_colon
      | _ => rest
      end in
    Js.trimStart rest
  else response.

(** After an asterisk: the number of characters up to and including the
    next asterisk, when at least one other character comes before it. *)
Fixpoint to_next_asterisk (s : string) : option nat :=
  match s with
  | EmptyString => None
  | String c r =>
      if Ascii.eqb c "*" then Some 1%nat
      else option_map S (to_next_asterisk r)
  end.

Definition action_length (after_asterisk : string) : option nat :=
  match after_asterisk with
  | String c r => if Ascii.eqb c "*" then None else option_map S (to_next_asterisk r)
  | EmptyString => None
  end.

(** [/\*([^*]+)\*/g], replaced by the empty string.  [skip] is the number of
    characters of the last match still to pass. *)
Fixpoint remove_actions_from (skip : nat) (s : string) : string :=
  match s with
  | EmptyString => EmptyString
  | String c r =>
      match skip with
      | S k => remove_actions_from k r
      | O =>
          if Ascii.eqb c "*" then
            match action_length r with
            | Some n => remove_actions_from n r
            | None => String c (remove_actions_from 0 r)
            end
          else String c (remove_actions_from 0 r)
      end
  end.

Definition remove_actions (s : string) : string := remove_actions_from 0 s.

Definition is_terminator (c : ascii) : bool :=
  Ascii.eqb c "." || Ascii.eqb c "!" || Ascii.eqb c "?".

(** [s.match(/[^.!?]+[.!?]+/g)], the empty list standing for [null].  [cur]
    holds, reversed, the characters of the match being read, and
    [in_terminators] tells that its terminators have begun.  A terminator
    where a match should begin is passed; characters at the end that no
    terminator follows belong to no match. *)
Fixpoint match_sentences_from (cur : list ascii) (in_terminators : bool)
    (s : string) : list string :=
  match s with
  | EmptyString =>
      if in_terminators then [string_of_list_ascii (rev cur)] else []
  | String c r =>
      if is_terminator c then
        match cur with
        | [] => match_sentences_from [] false r
        | _ => match_sentences_from (c :: cur) true r
        end
      else if in_terminators
           then string_of_list_ascii (rev cur) :: match_sentences_from [c] false r
           else match_sentences_from (c :: cur) false r
  end.

Definition match_sentences (s : string) : list string :=
  match_sentences_from [] false s.

Definition fallbacks : list string :=
  ["Oh! Something went fuzzy in my circuits! Could you say that again?";
   "Oops! My holographic brain had a little glitch there. Let's try again!";
   "Sorry, I got a bit confused. What were we talking about?"].

(** The clean-up of the text the model has answered. *)
Definition clean (response : string) : string :=
  let cleanResponse := Js.trim (remove_actions (strip_role_prefix response)) in
  let sentences :=
    match match_sentences cleanResponse with
    | [] => [cleanResponse]
    | matches => matches
    end in
  if (3 <? length sentences)%nat
  then Js.join " " (firstn 3 sentences)
  else cleanResponse.

(** [generateResponse]: [answer] is the text of the model, or what the call
    or the reading of its result has thrown; [random] is
    [Math.floor(Math.random() * fallbacks.length)]. *)
Definition generateResponse (answer : outcome string) (random : nat) : string :=
  match answer with
  | Returns response => clean response
  | Throws _ => nth (random mod length fallbacks) fallbacks EmptyString
  end.

End GeminiService.

(** ** Further definitions: the form of a sentence *)

Module Sentences.

Import GeminiService.

(** One character or more that are not terminators, followed by one
    terminator or more. *)
Definition shaped_list (l : list ascii) : Prop :=
  exists body terminators,
    l = (body ++ terminators)%list /\
    body <> [] /\
    forallb (fun c => negb (is_terminator c)) body = true /\
    terminators <> [] /\
    forallb is_terminator terminators = true.

Definition shaped (w : string) : Prop :=
  exists l, w = string_of_list_ascii l /\ shaped_list l.

(** What [match_sentences_from] has read of the match in progress. *)
Definition reading (cur : list ascii) (in_terminators : bool) : Prop :=
  if in_terminators then shaped_list (rev cur)
  else forallb (fun c => negb (is_terminator c)) cur = true.

End Sentences.

(** ** Further definitions: the calls that have entered [generateVariant] *)

Module CallFacts.

Import Tasks TaskFacts.

(** One for a call that is past the check of the cache, none for a call
    that is not made yet or is still checking. *)
Definition past_check (t : option task) : nat :=
  match t with
  | None => 0
  | Some t => if before_generation t then 0 else 1
  end.

End CallFacts.

(** ** Further definitions: ElevenLabsStream, the text sent in pieces *)

Module ElevenLabsStream.

(** What is sent on the socket: [{ text, flush }]. *)
Record message : Type := {
  text : string;
  flush : bool
}.

(** What becomes of a [ws.send] behind its test of [ws.readyState]: the
    message is sent, or the socket is not open and nothing is tried, or
    [send] throws. *)
Inductive attempt : Type := Sent | Closed | Thrown.

(** What one run of [sendChunk] finds: whether the stream is still
    registered and active, and what becomes of its first and of its second
    [ws.send]. *)
Record tick : Type := {
  active : bool;
  first_send : attempt;
  second_send : attempt
}.

(** [currentChunk.match(/[.!?,;]/)] and [currentChunk.match(/[.!?]/)] *)
Definition is_pause (c : ascii) : bool :=
  existsb (Ascii.eqb c) ["."; "!"; "?"; ","; ";"]%char.

Definition is_sentence_end (c : ascii) : bool :=
  existsb (Ascii.eqb c) ["."; "!"; "?"]%char.

Fixpoint has_char (p : ascii -> bool) (s : string) : bool :=
  match s with
  | EmptyString => false
  | String c r => p c || has_char p r
  end.

(** The runs of [sendChunk], one for each tick of the timer.  [words] holds
    the words from [words[chunkIndex]] on. *)
Fixpoint sendChunk (ticks : list tick) (words : list string) (chunkIndex : nat)
    (currentChunk : string) : list message :=
  match ticks with
  | [] => []
  | t :: later =>
      if negb (active t) then []
      else
        match words with
        | [] =>
            let last := [{| text := EmptyString; flush := true |}] in
            let last :=
              match second_send t with Sent => last | _ => [] end in
            if Js.truthy (Js.trim currentChunk) then
              match first_send t with
              | Sent =>
                  {| text := currentChunk +:+ " "; flush := true |} :: last
              | Closed => last
              | Thrown => []
              end
            else last
        | word :: rest =>
            let currentChunk := currentChunk +:+ word +:+ " " in
            let chunkIndex := S chunkIndex in
            let shouldSend :=
              (chunkIndex mod 3 =? 0)%nat
              || has_char is_pause currentChunk
              || match rest with [] => true | _ => false end in
            if shouldSend then
              match first_send t with
              | Sent =>
                  {| text := currentChunk;
                     flush := has_char is_sentence_end currentChunk |}
                  :: sendChunk later rest chunkIndex EmptyString
              | _ => []
              end
            else sendChunk later rest chunkIndex currentChunk
        end
  end.

(** [streamTextInChunks]: the messages sent on the socket. *)
Definition streamTextInChunks (ticks : list tick) (text : string) : list message :=
  sendChunk ticks (Js.split text " ") 0 EmptyString.

(** The texts of the messages, one after the other. *)
Definition texts (l : list message) : string :=
  fold_right (fun m rest => text m +:+ rest) EmptyString l.

(** Nothing stops the stream at this tick. *)
Definition unhindered (t : tick) : Prop :=
  active t = true /\ first_send t = Sent /\ second_send t = Sent.

(** The words, each followed by a space. *)
Definition spaced (words : list string) : string :=
  fold_right (fun word rest => word +:+ " " +:+ rest) EmptyString words.

(** The message that ends the stream. *)
Definition end_of_stream : message := {| text := EmptyString; flush := true |}.

(** The message that [sendChunk] sends for the words gathered in
    [currentChunk]. *)
Definition piece (words : list string) : message :=
  {| text := spaced words;
     flush := has_char is_sentence_end (spaced words) |}.

Definition steady : tick :=
  {| active := true; first_send := Sent; second_send := Sent |}.

End ElevenLabsStream.

(** ** Further definitions: the moves of the second call *)

Module Schedules.

Import CustomCharacterGenerator Tasks.

Definition is_second (m : caller * answers) : bool :=
  match fst m with
  | Second => true
  | First => false
  end.

(** How often the second call moves in a schedule: its first move is the
    call itself, up to its first [await]; every other one resumes it. *)
Definition second_moves (schedule : list (caller * answers)) : nat :=
  length (List.filter is_second schedule).

End Schedules.

(** ** Further definitions: the payload of [text-input] *)

Module Payloads.

Import Server.

(** The [text] of a payload: a string; a value that is falsy and not a
    string ([undefined] when the payload has no [text], [null], [0],
    [false]); or a value that is truthy and has no [trim], on which
    [text.trim()] throws with the message [error]. *)
Inductive text_value : Type :=
  | Text (text : string)
  | Falsy
  | Truthy (error : string).

(** What the event carries: [undefined] or [null], on which
    [const { text } = data] throws with the message [error]; or a value
    whose [text] is read. *)
Inductive payload : Type :=
  | NoData (error : string)
  | Data (text : text_value).

(** [socket.on('text-input')] on any payload, up to
    [await generateResponse].  The payload is destructured inside the [try]
    and before the guard, so that without payload the outer [catch] runs,
    whatever the flag of the session is; [text.trim()] is reached only
    when the session exists, is not busy and [text] is truthy. *)
Definition on_text_input_data (now : Z) (id : string) (data : payload)
    (s : server) : server * option pending :=
  match data with
  | NoData error => (outer_catch "Failed to process text" id error s, None)
  | Data value =>
      match sessions s !! id with
      | None => (s, None)
      | Some x =>
          if isProcessing x then (s, None)
          else
            match value with
            | Falsy => (s, None)
            | Truthy error =>
                (outer_catch "Failed to process text" id error s, None)
            | Text text => on_text_input now id text s
            end
      end
  end.

(** The session is cleared of its flag by something else than the end of
    its run: [interrupt], [reset], or a [text-input] without payload. *)
Definition flag_cleared_by_event (now : Z) (id : string) (s s0 : server) : Prop :=
  s0 = on_interrupt id s \/
  s0 = on_reset id s \/
  exists error, s0 = fst (on_text_input_data now id (NoData error) s).

End Payloads.

(** ** Further sample inputs: two runs of one session *)

Module TwoRuns.

(** The talker types and interrupts while the reply is awaited
    ([Sample.interrupted]), then types again: the second text is accepted
    while the first run is still suspended. *)
Definition second_typed : Server.server * option Server.pending :=
  Payloads.on_text_input_data 1700 Sample.talker
    (Payloads.Data (Payloads.Text "and again")) Sample.interrupted.

(** The answers for the first run arrive, then those for the second. *)
Definition first_driven : Server.server * option Server.pending :=
  Server.drive
    [(2000%Z, Server.Responded "Hi! Nice to see you.");
     (2500%Z, Server.Spoken (Returns "UklGRg=="))]
    (fst second_typed) (snd Sample.typed).

Definition both_driven : Server.server * option Server.pending :=
  Server.drive
    [(2600%Z, Server.Responded "Here I am.");
     (3000%Z, Server.Spoken (Returns "UklGRg=="))]
    (fst first_driven) (snd second_typed).

(** A [text-input] without payload while the first run is suspended. *)
Definition without_payload : Server.server * option Server.pending :=
  Payloads.on_text_input_data 1600 Sample.talker
    (Payloads.NoData
       "Cannot destructure property 'text' of 'data' as it is undefined.")
    (fst Sample.typed).

End TwoRuns.

(** ** Further definitions: what is left of a prompt *)

Module Leftover.

Import CustomCharacterGenerator.

(** The string holds whitespace only. *)
Definition blank (s : string) : bool := JsFacts.all_chars Js.is_space s.

(** The articles of [/^(a|an|the)\s+/i], in lowercase. *)
Definition articles : list string := ["a"; "an"; "the"].

(** [keyword], a keyword of [emotion], is the first keyword that occurs in
    the prompt, in the order in which the table lists the keywords. *)
Definition first_occurring (userPrompt emotion keyword : string) : Prop :=
  exists earlier keywords later before after,
    emotionKeywords = (earlier ++ (emotion, keywords) :: later)%list /\
    keywords = (before ++ keyword :: after)%list /\
    Keywords.occurs userPrompt keyword = true /\
    Forall (fun k => Keywords.occurs userPrompt k = false)
      (concat (map snd earlier) ++ before).

(** The answer with the default description. *)
Definition default_for (emotion : string) : request :=
  {| request_emotion := emotion; request_customDescription := "character" |}.

End Leftover.

(** ** Further sample inputs: a listing with a file before the directory *)

Module CacheListing.

Definition file_first : list string :=
  ["neutral_grumpy_pirate_6787d769_2025-09-01T10-00-00-000Z.mp4";
   "generated_images"; "manifest.json"].

End CacheListing.

(** ** Further definitions: hexadecimal digits *)

Module Hex.

(** A digit of [digest('hex')]: [0-9a-f]. *)
Definition is_hex_digit (c : ascii) : bool :=
  Js.is_digit c || Js.in_range 97 102 c.

End Hex.

(* ===================================================================== *)
(** * Properties *)
(* ===================================================================== *)

(** ** The digest agrees with reference values *)

Example md5_empty : Md5.digest_hex "" = "d41d8cd98f00b204e9800998ecf8427e".
Proof. vm_compute. reflexivity. Qed.

Example md5_joy_cowboy :
  Md5.digest_hex "joy_cowboy" = "7d9884ecbaeea9b776c84762bfab619f".
Proof. vm_compute. reflexivity. Qed.

Example md5_two_blocks :
  Md5.digest_hex
    "aaaaaaaaaaaaaaaaaaaaaaaaaaaaaaaaaaaaaaaaaaaaaaaaaaaaaaaaaaaaaaaaaaaaaa"
  = "0f5c6c4e740bfcc08c3c26ccb2673d46".
Proof. vm_compute. reflexivity. Qed.

(** ** The cache key *)

Section CacheKey.

Import CustomCharacterGenerator.

Example generateCacheKey_joy_cowboy :
  generateCacheKey "joy" "cowboy" = "joy_cowboy_7d9884ec".
Proof. vm_compute. reflexivity. Qed.

Example generateCacheKey_long :
  generateCacheKey "neutral" "Grumpy Pirate with a wooden leg"
  = "neutral_grumpy_pirate_with_a_w_" +:+
    Js.take 8 (Md5.digest_hex "neutral_grumpy_pirate_with_a_wooden_leg").
Proof. vm_compute. reflexivity. Qed.

Lemma map_chars_app f (s t : string) :
  Js.map_chars f (s +:+ t) = Js.map_chars f s +:+ Js.map_chars f t.
Proof. induction s as [|c s IH]; simpl; [reflexivity | now rewrite IH]. Qed.

Lemma normalize_components e d :
  normalize e d = normalize_one e +:+ "_" +:+ normalize_one d.
Proof.
  unfold normalize, normalize_one, Js.replace_chars, Js.toLowerCase.
  now rewrite !map_chars_app.
Qed.

(** Normalizing is idempotent: a normalized string is its own normal form. *)
Lemma normalize_one_idempotent s :
  normalize_one (normalize_one s) = normalize_one s.
Proof.
  unfold normalize_one, Js.replace_chars, Js.toLowerCase.
  induction s as [|c s IH]; simpl; [reflexivity|].
  rewrite IH. f_equal.
  generalize (Js.lower_char c). clear. intros c.
  destruct (is_key_char c) eqn:K; simpl.
  - assert (L : Js.lower_char c = c).
    { unfold Js.lower_char.
      destruct c as [[] [] [] [] [] [] [] []]; vm_compute in K |- *;
        congruence. }
    now rewrite L, K.
  - reflexivity.
Qed.

(** The key is computed from the normalized pair alone. *)
Lemma generateCacheKey_of_normalized e d e' d' :
  normalize e d = normalize e' d' ->
  generateCacheKey e d = generateCacheKey e' d'.
Proof. unfold generateCacheKey. now intros ->. Qed.

(** C3. [generateCacheKey] is a function of the normalized emotion and
    description: two pairs whose emotions have the same normalization
    (lowercased, every character outside [a-z0-9] replaced by an
    underscore) and whose descriptions have the same normalization get the
    same key; in particular the same pair always gets the same key. *)
Theorem generateCacheKey_normalization e d e' d' :
  normalize_one e = normalize_one e' ->
  normalize_one d = normalize_one d' ->
  generateCacheKey e d = generateCacheKey e' d'.
Proof.
  intros He Hd. apply generateCacheKey_of_normalized.
  rewrite !normalize_components. now rewrite He, Hd.
Qed.

Lemma generateCacheKey_normalization_witness :
  normalize_one "Joy" = normalize_one "joy" /\
  normalize_one "Cow Boy!" = normalize_one "cow-boy?" /\
  generateCacheKey "Joy" "Cow Boy!" = generateCacheKey "joy" "cow-boy?".
Proof.
  assert (He : normalize_one "Joy" = normalize_one "joy")
    by (vm_compute; reflexivity).
  assert (Hd : normalize_one "Cow Boy!" = normalize_one "cow-boy?")
    by (vm_compute; reflexivity).
  split; [exact He|]. split; [exact Hd|].
  exact (generateCacheKey_normalization _ _ _ _ He Hd).
Defined.

(** Normalizing the inputs before the call does not change the key. *)
Corollary generateCacheKey_idempotent e d :
  generateCacheKey (normalize_one e) (normalize_one d) = generateCacheKey e d.
Proof.
  apply generateCacheKey_of_normalized.
  now rewrite !normalize_components, !normalize_one_idempotent.
Qed.

(** Pairs that differ in their components can still share a normalized
    pair, and then a key: the underscore that joins emotion and description
    is also what a character outside [a-z0-9] becomes. *)
Example generateCacheKey_shared :
  generateCacheKey "joy cow" "boy" = generateCacheKey "joy" "cow boy".
Proof. apply generateCacheKey_of_normalized. vm_compute. reflexivity. Qed.

End CacheKey.

(** ** The cache: a second call is a hit *)

Section Cache.

Import CustomCharacterGenerator.

(** A hit leaves everything as it is. *)
Lemma checkCache_hit a st e d ent :
  recorded st e d = Some ent ->
  filename ent ∈ files st ->
  checkCache a st e d = (st, Returns (Some (variant_path (filename ent), ent))).
Proof.
  unfold recorded, checkCache. intros Hrec Hfile.
  destruct (manifest st) as [m|]; simpl in Hrec; [|discriminate].
  rewrite Hrec. now rewrite decide_True.
Qed.

Lemma saveManifest_keeps ok msg st st' r :
  saveManifest ok msg st = (st', r) ->
  manifest st' = manifest st /\ files st' = files st /\ images st' = images st.
Proof.
  unfold saveManifest. destruct ok; [destruct (manifest st) eqn:M|];
    intros [= <- <-]; simpl; auto.
Qed.

Lemma generateCharacterImage_keeps a st d e st' i :
  generateCharacterImage a st d e = (st', i) ->
  manifest st' = manifest st /\ files st' = files st.
Proof.
  unfold generateCharacterImage.
  repeat case_match; intros [= <- <-]; simpl; auto.
Qed.

(** A successful generation has recorded its file, and the file is there. *)
Lemma generateVariant_success a st e d st' r :
  generateVariant a st e d = (st', r) ->
  success r = true ->
  exists ent,
    recorded st' e d = Some ent /\ filename ent ∈ files st' /\
    path r = Some (variant_path (filename ent)) /\ metadata r = Some ent.
Proof.
  unfold generateVariant.
  destruct (generateCharacterImage a st d e) as [st1 image] eqn:Himg.
  destruct (generateCharacterImage_keeps _ _ _ _ _ _ Himg) as [Hm Hf].
  destruct (negb _); [intros [= <- <-]; discriminate|].
  destruct (fal_answer a) as [response|]; [|intros [= <- <-]; discriminate].
  destruct (extractVideoUrl response) as [videoUrl|];
    [|intros [= <- <-]; discriminate].
  destruct (negb (downloaded a)); [intros [= <- <-]; discriminate|].
  simpl. destruct (manifest st1) as [m|] eqn:M;
    [|intros [= <- <-]; discriminate].
  match goal with |- context [saveManifest ?ok ?msg ?s] =>
    destruct (saveManifest ok msg s) as [st4 [[]|msg']] eqn:Hsave end;
    [|intros [= <- <-]; discriminate].
  destruct (saveManifest_keeps _ _ _ _ _ Hsave) as (Hm4 & Hf4 & _).
  simpl in Hm4, Hf4.
  intros [= <- <-] _. eexists. unfold recorded. rewrite Hm4. simpl.
  rewrite lookup_insert_eq. split; [reflexivity|].
  split; [|split; reflexivity].
  rewrite Hf4. simpl. apply elem_of_union_l, elem_of_singleton. reflexivity.
Qed.

(** A successful call, hit or miss, leaves an entry whose file is there and
    returns the path of that file. *)
Lemma getOrCreateVariant_success a st e d st' r :
  getOrCreateVariant a st e d = (st', Returns r) ->
  success r = true ->
  exists ent,
    recorded st' e d = Some ent /\ filename ent ∈ files st' /\
    path r = Some (variant_path (filename ent)) /\ metadata r = Some ent.
Proof.
  unfold getOrCreateVariant.
  destruct (checkCache a st e d) as [st1 [[[p ent]|]|msg]] eqn:Hc;
    [| |discriminate].
  - (* hit *)
    intros [= <- <-] _. exists ent.
    unfold checkCache in Hc. unfold recorded.
    destruct (manifest st) as [m|] eqn:M; [|discriminate]. simpl.
    destruct (m !! generateCacheKey e d) as [e0|] eqn:L; [|discriminate].
    destruct (decide (filename e0 ∈ files st)) as [Hin|Hout].
    + injection Hc as <- <- <-. rewrite M. simpl. rewrite L. auto.
    + destruct (saveManifest _ _ _) as [? [[]|?]]; discriminate.
  - (* miss *)
    destruct (generateVariant a st1 e d) as [st2 r2] eqn:Hg.
    intros [= <- <-]. simpl. intros Hs.
    destruct (generateVariant_success _ _ _ _ _ _ Hg Hs) as (ent & ? & ? & ? & ?).
    exists ent. auto.
Qed.

(** C1. After a successful call of [getOrCreateVariant], a second call with
    the same emotion and description, whatever the outside answers, is a
    hit: it returns [cached = true], changes nothing, and its path is the
    path the first call returned, which is that of the file name the
    manifest recorded. *)
Theorem getOrCreateVariant_second_call_cached a1 a2 st e d st1 r1 :
  getOrCreateVariant a1 st e d = (st1, Returns r1) ->
  success r1 = true ->
  exists ent r2,
    recorded st1 e d = Some ent /\
    getOrCreateVariant a2 st1 e d = (st1, Returns r2) /\
    success r2 = true /\ cached r2 = true /\
    path r2 = Some (variant_path (filename ent)) /\
    path r2 = path r1 /\ metadata r2 = metadata r1.
Proof.
  intros H1 Hs.
  destruct (getOrCreateVariant_success _ _ _ _ _ _ H1 Hs)
    as (ent & Hrec & Hfile & Hpath & Hmeta).
  exists ent. eexists. split; [exact Hrec|].
  unfold getOrCreateVariant at 1.
  rewrite (checkCache_hit a2 _ _ _ _ Hrec Hfile).
  split; [reflexivity|]. simpl. rewrite Hpath, Hmeta. auto.
Qed.

End Cache.

Lemma getOrCreateVariant_second_call_cached_witness :
  exists ent r2,
    CustomCharacterGenerator.recorded (fst Sample.after_first_call)
      "neutral" "grumpy pirate" = Some ent /\
    CustomCharacterGenerator.getOrCreateVariant Sample.noon
      (fst Sample.after_first_call) "neutral" "grumpy pirate"
    = (fst Sample.after_first_call, Returns r2) /\
    CustomCharacterGenerator.success r2 = true /\
    CustomCharacterGenerator.cached r2 = true /\
    CustomCharacterGenerator.path r2
    = Some (CustomCharacterGenerator.variant_path
              (CustomCharacterGenerator.filename ent)) /\
    CustomCharacterGenerator.path r2
    = CustomCharacterGenerator.path Sample.first_result /\
    CustomCharacterGenerator.metadata r2
    = CustomCharacterGenerator.metadata Sample.first_result.
Proof.
  apply (getOrCreateVariant_second_call_cached Sample.morning Sample.noon
           Sample.empty_cache "neutral" "grumpy pirate").
  - vm_compute. reflexivity.
  - reflexivity.
Defined.

Example first_call_generates :
  CustomCharacterGenerator.path Sample.first_result
  = Some "/videos/custom_variants/neutral_grumpy_pirate_6787d769_2025-09-01T10-00-00-000Z.mp4"
  /\ CustomCharacterGenerator.cached Sample.first_result = false.
Proof. split; reflexivity. Qed.

(** ** Overlapping calls *)

Section Overlap.

Import CustomCharacterGenerator Tasks.

Lemma resume_n_Done e d n a st r :
  resume_n e d n a st (Done r) = (st, Done r, []).
Proof. induction n as [|n IH]; simpl; [reflexivity | now rewrite IH]. Qed.

Lemma resume_n_S e d n a st t :
  resume_n e d (S n) a st t =
  let '(st1, t1, l1) := resume e d a st t in
  let '(st2, t2, l2) := resume_n e d n a st1 t1 in
  (st2, t2, (l1 ++ l2)%list).
Proof. reflexivity. Qed.

Ltac step :=
  rewrite ?resume_n_Done, ?resume_n_S;
  cbn -[generateCacheKey buildCustomPrompt stamp resume_n].

(** From the entry of [generateVariant] on, the resumed task does what
    [generateVariant] does. *)
Lemma resume_n_generateVariant a st e d k m :
  manifest st = Some m ->
  let '(st1, t, _) := resume_n e d (8 + k) a st AwaitImageAccess in
  let '(st2, r) := generateVariant a st e d in
  st1 = st2 /\ t = Done (Returns (tag_uncached r)).
Proof.
  intros M. unfold generateVariant, generateCharacterImage.
  change (8 + k) with (S (S (S (S (S (S (S (S k)))))))).
  destruct a as [es rr ig iw fa dl lb cf cg esv fm].
  destruct (decide (generateCacheKey "image" d +:+ ".png" ∈ images st))
    as [I|I] eqn:D;
  destruct rr, ig, iw, dl, lb, esv;
  (destruct fa as [resp|]; [destruct (extractVideoUrl resp) as [u|] eqn:U|]);
  repeat (step; rewrite ?D, ?U, ?M, ?lookup_insert_eq); auto.
Qed.


Lemma run_alone_getOrCreateVariant a st e d :
  let '(st1, t, _) := run_alone e d a st in
  let '(st2, r) := getOrCreateVariant a st e d in
  st1 = st2 /\ t = Done r.
Proof.
  unfold run_alone, start, getOrCreateVariant, checkCache, enter_generateVariant.
  destruct (manifest st) as [m|] eqn:M; [|rewrite resume_n_Done; auto].
  destruct (m !! generateCacheKey e d) as [e0|] eqn:L.
  - step. destruct (decide (filename e0 ∈ files st)) as [F|F].
    + rewrite M, L. step. auto.
    + unfold evict. rewrite M. step.
      destruct (evict_saved a) eqn:ES; step; [|auto].
      pose proof (resume_n_generateVariant a
        {| manifest := Some (delete (generateCacheKey e d) m);
           files := files st; images := images st;
           manifest_json := delete (generateCacheKey e d) m |} e d 2 _ eq_refl) as G.
      cbn -[generateCacheKey resume_n generateVariant] in G.
      destruct (resume_n _ _ _ _ _ _) as [[st1 t] l].
      destruct (generateVariant _ _ _ _) as [st2 r].
      destruct G as [-> ->]. auto.
  - pose proof (resume_n_generateVariant a st e d 4 m M) as G.
    cbn -[generateCacheKey resume_n generateVariant] in G.
    destruct (resume_n _ _ _ _ _ _) as [[st1 t] l].
    destruct (generateVariant _ _ _ _) as [st2 r].
    destruct G as [-> ->]. auto.
Qed.

End Overlap.
Section Sequential.

Import CustomCharacterGenerator Tasks TaskFacts.

Variables e d : string.

Lemma start_consistent st st' t l :
  start e d st = (st', t, l) -> consistent e d st' t.
Proof.
  unfold start, enter_generateVariant.
  destruct (manifest st) as [m|] eqn:M; [|intros [= <- <- <-]; exact I].
  destruct (m !! generateCacheKey e d) as [e0|] eqn:L;
    intros [= <- <- <-]; simpl; [|exact I].
  unfold recorded. rewrite M. simpl. rewrite L. now intros ent [= <-].
Qed.

Lemma resume_consistent a st t st' t' l :
  consistent e d st t ->
  resume e d a st t = (st', t', l) -> consistent e d st' t'.
Proof.
  intros C. destruct t as [tested| | | | | |image| | | |];
    cbn -[generateCacheKey buildCustomPrompt stamp].
  - (* AwaitAccess *)
    assert (E : forall st' t' l, evict e d st = (st', t', l) -> consistent e d st' t').
    { unfold evict. intros st1 t1 l1.
      destruct (manifest st); intros [= <- <- <-]; exact I. }
    simpl in C. unfold recorded in C.
    destruct (decide (tested ∈ files st)) as [F|F]; [|apply E].
    destruct (manifest st) as [m|] eqn:M; [|apply E].
    destruct (m !! generateCacheKey e d) as [e0|] eqn:L; [|apply E].
    intros [= <- <- <-]. simpl. intros _. exists e0.
    unfold recorded. rewrite M. simpl. rewrite L.
    rewrite (C e0) by (simpl; exact L). auto.
  - destruct (evict_saved a); intros [= <- <- <-]; simpl; auto.
  - case_decide; intros [= <- <- <-]; simpl; auto.
  - destruct (reference_readable a); intros [= <- <- <-]; simpl; auto.
  - destruct (image_generated a); intros [= <- <- <-]; simpl; auto.
  - destruct (image_written a); intros [= <- <- <-]; simpl; auto.
  - destruct (match image with GeneratedImage _ => true | _ => _ end);
      intros [= <- <- <-]; simpl; auto; discriminate.
  - destruct (fal_answer a) as [resp|]; [destruct (extractVideoUrl resp)|];
      intros [= <- <- <-]; simpl; auto; discriminate.
  - destruct (downloaded a); [destruct (manifest st) as [m|] eqn:M|];
      intros [= <- <- <-]; simpl; auto; try discriminate.
    unfold recorded. simpl. rewrite lookup_insert_eq.
    repeat split. apply elem_of_union_l, elem_of_singleton. reflexivity.
  - destruct C as (R & Fn & Ff).
    destruct (entry_saved a); intros [= <- <- <-]; simpl; [|discriminate].
    intros _. exists e0. unfold recorded in *. simpl.
    destruct (manifest st) as [m|]; simpl in R; [|discriminate].
    rewrite R, Fn. auto.
  - intros [= <- <- <-]. exact C.
Qed.

Lemma count_generations_app (l1 l2 : list effect) :
  length (filter (fun x => is_generation x = true) (l1 ++ l2)%list)
  = length (filter (fun x => is_generation x = true) l1)
    + length (filter (fun x => is_generation x = true) l2).
Proof. now rewrite filter_app, length_app. Qed.

(** A resumption enters [generateVariant] at most once, and only from a
    task that had not entered it. *)
Lemma resume_generations a st t st' t' l :
  resume e d a st t = (st', t', l) ->
  length (filter (fun x => is_generation x = true) l)
  <= (if before_generation t then 1 else 0) /\
  (before_generation t' = true ->
   before_generation t = true /\
   length (filter (fun x => is_generation x = true) l) = 0).
Proof.
  destruct t; cbn -[generateCacheKey buildCustomPrompt stamp];
    unfold evict, enter_generateVariant;
    repeat case_match; intros [= <- <- <-]; simpl; split;
    auto; try discriminate; try lia.
Qed.

End Sequential.
Section TwoCalls.

Import CustomCharacterGenerator Tasks TaskFacts.

Variables e d : string.

Lemma run_snoc schedule m s :
  run e d (schedule ++ [m]) s = move e d (fst m) (snd m) (run e d schedule s).
Proof. unfold run. now rewrite fold_left_app. Qed.

Lemma move_first_alone a s :
  alone e d s -> alone e d (move e d First a s).
Proof.
  intros [S2 H]. unfold move, alone, generations in *.
  destruct (first s) as [t|] eqn:F.
  - destruct H as (C & G & B).
    destruct (resume e d a (cache s) t) as [[st' t'] l] eqn:R. simpl.
    split; [exact S2|]. rewrite count_generations_app.
    pose proof (resume_generations e d _ _ _ _ _ _ R) as [G1 G2].
    split; [exact (resume_consistent e d _ _ _ _ _ _ C R)|].
    destruct (before_generation t) eqn:Bt.
    + rewrite (B eq_refl). split; [lia|]. intros Bt'.
      destruct (G2 Bt') as [_ ->]. reflexivity.
    + split; [lia|]. intros Bt'. destruct (G2 Bt') as [? _]. discriminate.
  - destruct H as [E _].
    destruct (start e d (cache s)) as [[st' t'] l] eqn:R. simpl.
    split; [exact S2|]. rewrite E. simpl.
    split; [exact (start_consistent e d _ _ _ _ R)|].
    revert R. unfold start, enter_generateVariant.
    repeat case_match; intros [= <- <- <-]; simpl; split;
      auto; discriminate.
Qed.

Lemma first_alone_invariant l st :
  alone e d (run e d (first_alone l) (initial st)).
Proof.
  induction l as [|a l IH] using rev_ind.
  - simpl. unfold alone, generations. simpl. auto.
  - unfold first_alone. rewrite map_app. simpl. rewrite run_snoc. simpl.
    now apply move_first_alone.
Qed.

Lemma move_settled ent r1 s0 s who a :
  first s0 = Some (Done (Returns r1)) ->
  recorded (cache s0) e d = Some ent ->
  filename ent ∈ files (cache s0) ->
  settled ent s0 s -> settled ent s0 (move e d who a s).
Proof.
  intros F0 Rec File (Hc & He & Hf & Hs). unfold move, settled.
  destruct who.
  - rewrite Hf, F0. simpl. rewrite app_nil_r. auto.
  - unfold recorded in Rec. rewrite <- Hc in Rec, File.
    destruct (manifest (cache s)) as [m|] eqn:M; simpl in Rec; [|discriminate].
    destruct Hs as [Hs|[Hs|Hs]]; rewrite Hs.
    + unfold start. rewrite M, Rec. simpl. rewrite app_nil_r. auto 6.
    + cbn -[generateCacheKey]. rewrite decide_True by exact File.
      rewrite M, Rec. simpl. rewrite app_nil_r. auto 6.
    + simpl. rewrite app_nil_r. auto 6.
Qed.

Lemma run_settled ent r1 s0 schedule : forall s,
  first s0 = Some (Done (Returns r1)) ->
  recorded (cache s0) e d = Some ent ->
  filename ent ∈ files (cache s0) ->
  settled ent s0 s -> settled ent s0 (run e d schedule s).
Proof.
  induction schedule as [|[who a] schedule IH]; intros s F0 Rec File H.
  - exact H.
  - simpl. apply IH; auto. eapply move_settled; eauto.
Qed.

(** Once the first call has returned the recorded entry, the second call
    is as far as the number of its moves says: not made, then testing the
    file of the entry, then returned with the entry as a hit. *)
Lemma run_second_moves ent r1 s0 schedule : forall s,
  first s0 = Some (Done (Returns r1)) ->
  recorded (cache s0) e d = Some ent ->
  filename ent ∈ files (cache s0) ->
  settled ent s0 s ->
  let returned := Some (Done (Returns (hit (variant_path (filename ent)) ent))) in
  let n := Schedules.second_moves schedule in
  (second s = None ->
   second (run e d schedule s)
   = match n with
     | 0 => None
     | 1 => Some (AwaitAccess (filename ent))
     | _ => returned
     end) /\
  (second s = Some (AwaitAccess (filename ent)) ->
   second (run e d schedule s)
   = match n with
     | 0 => Some (AwaitAccess (filename ent))
     | _ => returned
     end) /\
  (second s = returned -> second (run e d schedule s) = returned).
Proof.
  induction schedule as [|[who a] schedule IH]; intros s F0 Rec File H;
    [cbn; auto|].
  pose proof (move_settled ent r1 s0 s who a F0 Rec File H) as H'.
  destruct (IH (move e d who a s) F0 Rec File H') as (I0 & I1 & I2).
  change (run e d ((who, a) :: schedule) s)
    with (run e d schedule (move e d who a s)).
  destruct H as (Hc & He & Hf & Hs).
  assert (M : recorded (cache s) e d = Some ent) by (now rewrite Hc).
  assert (Fl : filename ent ∈ files (cache s)) by (now rewrite Hc).
  unfold recorded in M.
  destruct (manifest (cache s)) as [m|] eqn:Mm; simpl in M; [|discriminate].
  destruct who.
  - (* the first call moves: the second stays where it is *)
    assert (S2 : second (move e d First a s) = second s).
    { unfold move.
      destruct (match first s with None => _ | Some t => _ end) as [[? ?] ?].
      reflexivity. }
    unfold Schedules.second_moves. cbn [List.filter Schedules.is_second fst].
    fold (Schedules.second_moves schedule).
    rewrite <- S2. auto.
  - unfold Schedules.second_moves.
    cbn [List.filter Schedules.is_second fst length].
    fold (Schedules.second_moves schedule).
    split; [|split]; intros E.
    + (* the call is made *)
      assert (S2 : second (move e d Second a s)
                   = Some (AwaitAccess (filename ent))).
      { unfold move. rewrite E. unfold start. rewrite Mm, M. reflexivity. }
      rewrite (I1 S2). now destruct (Schedules.second_moves schedule).
    + (* the test of the file has answered *)
      assert (S2 : second (move e d Second a s)
                   = Some (Done (Returns (hit (variant_path (filename ent)) ent)))).
      { unfold move. rewrite E. cbn -[generateCacheKey].
        rewrite decide_True by exact Fl. rewrite Mm, M. reflexivity. }
      exact (I2 S2).
    + assert (S2 : second (move e d Second a s)
                   = Some (Done (Returns (hit (variant_path (filename ent)) ent)))).
      { unfold move. rewrite E. reflexivity. }
      exact (I2 S2).
Qed.

End TwoCalls.

(** C2, as it holds.  When the first call has returned with success before
    the second call is made, then however the two calls are scheduled from
    there on and whatever the outside answers, nothing more is generated or
    downloaded and [generateVariant] has been entered at most once.  The
    second call has one [await], the test of the file: it returns at its
    second move, and what it returns is a hit on the path the first call
    returned. *)
Theorem second_call_after_first_does_not_generate
    e d st (answers1 : list CustomCharacterGenerator.answers) schedule2 r1 :
  let s1 := Tasks.run e d (TaskFacts.first_alone answers1) (Tasks.initial st) in
  let s2 := Tasks.run e d schedule2 s1 in
  Tasks.finished (Tasks.first s1) = Some (Returns r1) ->
  CustomCharacterGenerator.success r1 = true ->
  Tasks.generations s2 <= 1 /\
  Tasks.effects s2 = Tasks.effects s1 /\
  Tasks.cache s2 = Tasks.cache s1 /\
  exists r2,
    CustomCharacterGenerator.success r2 = true /\
    CustomCharacterGenerator.cached r2 = true /\
    CustomCharacterGenerator.path r2 = CustomCharacterGenerator.path r1 /\
    Tasks.finished (Tasks.second s2)
    = (if (2 <=? Schedules.second_moves schedule2)%nat
       then Some (Returns r2) else None).
Proof.
  intros s1 s2 Fin Succ.
  pose proof (first_alone_invariant e d answers1 st) as [S2 A].
  fold s1 in S2, A.
  destruct (Tasks.first s1) as [[| | | | | | | | | |o]|] eqn:F1;
    try discriminate.
  injection Fin as ->.
  destruct A as (C & G & _). simpl in C.
  destruct (C Succ) as (ent & Rec & File & Path & _).
  assert (H0 : TaskFacts.settled ent s1 s1).
  { unfold TaskFacts.settled. auto. }
  pose proof (run_settled e d ent r1 s1 schedule2 s1 F1 Rec File H0)
    as (Hc & He & Hf & Hs).
  destruct (run_second_moves e d ent r1 s1 schedule2 s1 F1 Rec File H0)
    as (P & _).
  specialize (P S2).
  fold s2 in Hc, He, Hf, Hs, P.
  unfold Tasks.generations in *. rewrite He.
  split; [exact G|]. split; [reflexivity|]. split; [exact Hc|].
  exists (Tasks.hit (CustomCharacterGenerator.variant_path
                       (CustomCharacterGenerator.filename ent)) ent).
  split; [reflexivity|]. split; [reflexivity|]. split; [simpl; auto|].
  rewrite P.
  destruct (Schedules.second_moves schedule2) as [|[|n]]; reflexivity.
Qed.

Lemma second_call_after_first_does_not_generate_witness :
  Tasks.generations
    (Tasks.run "neutral" "grumpy pirate" Sample.second_afterwards
       (Tasks.run "neutral" "grumpy pirate"
          (TaskFacts.first_alone Sample.first_to_its_end)
          (Tasks.initial Sample.empty_cache))) <= 1 /\
  Tasks.effects
    (Tasks.run "neutral" "grumpy pirate" Sample.second_afterwards
       (Tasks.run "neutral" "grumpy pirate"
          (TaskFacts.first_alone Sample.first_to_its_end)
          (Tasks.initial Sample.empty_cache)))
  = Tasks.effects
      (Tasks.run "neutral" "grumpy pirate"
         (TaskFacts.first_alone Sample.first_to_its_end)
         (Tasks.initial Sample.empty_cache)) /\
  Tasks.cache
    (Tasks.run "neutral" "grumpy pirate" Sample.second_afterwards
       (Tasks.run "neutral" "grumpy pirate"
          (TaskFacts.first_alone Sample.first_to_its_end)
          (Tasks.initial Sample.empty_cache)))
  = Tasks.cache
      (Tasks.run "neutral" "grumpy pirate"
         (TaskFacts.first_alone Sample.first_to_its_end)
         (Tasks.initial Sample.empty_cache)) /\
  exists r2,
    CustomCharacterGenerator.success r2 = true /\
    CustomCharacterGenerator.cached r2 = true /\
    CustomCharacterGenerator.path r2
    = CustomCharacterGenerator.path Sample.first_result /\
    Tasks.finished
      (Tasks.second
         (Tasks.run "neutral" "grumpy pirate" Sample.second_afterwards
            (Tasks.run "neutral" "grumpy pirate"
               (TaskFacts.first_alone Sample.first_to_its_end)
               (Tasks.initial Sample.empty_cache))))
    = Some (Returns r2).
Proof.
  apply (second_call_after_first_does_not_generate
           "neutral" "grumpy pirate" Sample.empty_cache
           Sample.first_to_its_end Sample.second_afterwards
           Sample.first_result).
  - vm_compute. reflexivity.
  - reflexivity.
Defined.

(** C2, as stated, fails.  Two calls for ("neutral", "grumpy pirate") on an
    empty cache, the second made while the first is suspended: both miss,
    both enter [generateVariant], both call the video service and both
    download, each to a file of its own. *)
Lemma overlapping_calls_generate_twice :
  Tasks.generations Sample.after_overlap = 2 /\
  Tasks.downloads Sample.after_overlap =
    [Tasks.Download
       "neutral_grumpy_pirate_6787d769_2025-09-01T10-00-00-000Z.mp4"
       "https://fal.media/files/a.mp4";
     Tasks.Download
       "neutral_grumpy_pirate_6787d769_2025-09-01T12-00-00-000Z.mp4"
       "https://fal.media/files/a.mp4"] /\
  exists r1 r2,
    Tasks.finished (Tasks.first Sample.after_overlap) = Some (Returns r1) /\
    Tasks.finished (Tasks.second Sample.after_overlap) = Some (Returns r2) /\
    CustomCharacterGenerator.success r1 = true /\
    CustomCharacterGenerator.success r2 = true /\
    CustomCharacterGenerator.cached r1 = false /\
    CustomCharacterGenerator.cached r2 = false /\
    CustomCharacterGenerator.path r1 <> CustomCharacterGenerator.path r2.
Proof.
  split; [vm_compute; reflexivity|].
  split; [vm_compute; reflexivity|].
  eexists. eexists.
  split; [vm_compute; reflexivity|].
  split; [vm_compute; reflexivity|].
  repeat split; discriminate.
Qed.

(** ** Parsing a request for a custom character *)

Section Parse.

Import CustomCharacterGenerator.

Example parse_happy_cowboy :
  parseUserRequest "happy cowboy"
  = {| request_emotion := "joy"; request_customDescription := "cowboy" |}.
Proof. vm_compute. reflexivity. Qed.

Example parse_a_SAD_clown :
  parseUserRequest "a SAD   little clown "
  = {| request_emotion := "sadness"; request_customDescription := "little clown" |}.
Proof. vm_compute. reflexivity. Qed.

Example parse_keyword_only :
  parseUserRequest "Happy"
  = {| request_emotion := "joy"; request_customDescription := "character" |}.
Proof. vm_compute. reflexivity. Qed.

Example parse_the_wizard :
  parseUserRequest "The  wizard"
  = {| request_emotion := "neutral"; request_customDescription := "wizard" |}.
Proof. vm_compute. reflexivity. Qed.

Example parse_empty :
  parseUserRequest ""
  = {| request_emotion := "neutral"; request_customDescription := "character" |}.
Proof. vm_compute. reflexivity. Qed.

Lemma detect_keyword_emotion lowered table emotion keyword :
  detect_keyword lowered table = Some (emotion, keyword) ->
  In emotion (map fst table).
Proof.
  induction table as [|[em kws] table IH]; simpl; [discriminate|].
  destruct (first_keyword lowered kws).
  - intros [= <- _]. now left.
  - intros H. right. now apply IH.
Qed.

End Parse.

(** ** Resolving an emotion to a standard video *)

Section Resolve.

Import VideoEmotionMapper.

Lemma some_videos_indexed m g :
  some_videos (emotionVideoMap m !! g)
  = match indexed m g with [] => None | l => Some l end.
Proof.
  unfold indexed. destruct (emotionVideoMap m !! g) as [[|v vs]|]; reflexivity.
Qed.

Lemma first_fallback_none m l :
  (forall g, In g l -> indexed m g = []) -> first_fallback m l = None.
Proof.
  induction l as [|f l IH]; intros H; simpl; [reflexivity|].
  rewrite some_videos_indexed, (H f) by now left.
  apply IH. intros g Hg. apply H. now right.
Qed.

Lemma first_fallback_first m skipped f rest v vs :
  (forall g, In g skipped -> indexed m g = []) ->
  indexed m f = v :: vs ->
  first_fallback m (skipped ++ f :: rest) = Some (v :: vs).
Proof.
  induction skipped as [|g skipped IH]; intros Hs Hf; simpl.
  - now rewrite some_videos_indexed, Hf.
  - rewrite some_videos_indexed, (Hs g) by now left.
    apply IH; [|exact Hf]. intros g' Hg'. apply Hs. now right.
Qed.

Lemma get_property_not_inherited {A} (table : list (string * A)) key :
  inherited key = false ->
  get_property table key
  = match assoc key table with Some a => Own a | None => Undefined end.
Proof. unfold get_property. intros ->. now destruct (assoc key table). Qed.

Lemma getFallbackVideos_not_inherited m k :
  inherited k = false ->
  getFallbackVideos m k
  = Returns match first_fallback m (fallbacks_of k) with
            | Some videos => videos
            | None => firstn 1 (availableVideos m)
            end.
Proof.
  intros H. unfold getFallbackVideos, fallbacks_of.
  rewrite (get_property_not_inherited _ _ H).
  destruct (assoc k fallbackMap); destruct (first_fallback m _); reflexivity.
Qed.

(** The fallback lists are finite and the walk is a recursion on the list:
    every emotion of the table has at most three fallbacks. *)
Lemma fallbacks_of_short k : length (fallbacks_of k) <= 3.
Proof.
  unfold fallbacks_of.
  destruct (assoc k fallbackMap) as [l|] eqn:A; [|simpl; lia].
  unfold fallbackMap in A. simpl in A.
  repeat match type of A with
         | (if ?b then _ else _) = _ => destruct b
         end; try discriminate; injection A as <-; simpl; lia.
Qed.

(** C8, as it holds.  On an initialized mapper, for every emotion whose
    lowercase form is not the name of a property that plain objects
    inherit: when videos are indexed under the emotion, one of them is
    returned, the first one when the most recent is preferred; otherwise
    the fallback list of the emotion is walked in order and a video of the
    first fallback emotion that has some is returned; when no fallback has
    any, the first of all available videos is returned, or null when there
    is none. *)
Theorem getVideoForEmotion_resolves m e preferRecent random :
  initialized m = true ->
  inherited (Js.toLowerCase e) = false ->
  (forall v vs, indexed m (Js.toLowerCase e) = v :: vs ->
     exists v', getVideoForEmotion m e preferRecent random = Returns (Some v')
                /\ In v' (v :: vs) /\ (preferRecent = true -> v' = v)) /\
  (forall skipped f rest v vs,
     indexed m (Js.toLowerCase e) = [] ->
     fallbacks_of (Js.toLowerCase e) = (skipped ++ f :: rest)%list ->
     (forall g, In g skipped -> indexed m g = []) ->
     indexed m f = v :: vs ->
     exists v', getVideoForEmotion m e preferRecent random = Returns (Some v')
                /\ In v' (v :: vs) /\ (preferRecent = true -> v' = v)) /\
  (indexed m (Js.toLowerCase e) = [] ->
   (forall g, In g (fallbacks_of (Js.toLowerCase e)) -> indexed m g = []) ->
   getVideoForEmotion m e preferRecent random
   = Returns (head (availableVideos m))).
Proof.
  intros Init NotInh.
  assert (pick : forall (v : video) (vs : list video),
    exists v',
      (if preferRecent then Returns (Some v)
       else Returns (nth_error (v :: vs) (random mod length (v :: vs))))
      = Returns (Some v') /\ In v' (v :: vs) /\ (preferRecent = true -> v' = v)).
  { intros v vs. destruct preferRecent.
    - exists v. split; [reflexivity|]. split; [now left | reflexivity].
    - destruct (nth_error (v :: vs) (random mod length (v :: vs))) as [v'|] eqn:N.
      + exists v'. split; [reflexivity|].
        split; [eapply nth_error_In; eauto | discriminate].
      + apply nth_error_None in N.
        pose proof (Nat.mod_upper_bound random (length (v :: vs))) as B.
        simpl in *. lia. }
  unfold getVideoForEmotion. rewrite Init. simpl negb. cbv iota.
  rewrite some_videos_indexed, (getFallbackVideos_not_inherited _ _ NotInh).
  split; [|split].
  - intros v vs ->. apply pick.
  - intros skipped f rest v vs -> -> Hs Hf.
    rewrite (first_fallback_first _ _ _ _ _ _ Hs Hf). apply pick.
  - intros -> Hall. rewrite (first_fallback_none _ _ Hall).
    destruct (availableVideos m) as [|v vs]; cbn [firstn head]; [reflexivity|].
    destruct preferRecent; [reflexivity|].
    cbn [length]. now rewrite Nat.mod_1_r.
Qed.

(** A mapper that is not initialized gives null. *)
Lemma getVideoForEmotion_uninitialized m e preferRecent random :
  initialized m = false ->
  getVideoForEmotion m e preferRecent random = Returns None.
Proof. unfold getVideoForEmotion. now intros ->. Qed.

(** The index that [buildEmotionMap] builds holds, under each emotion, the
    videos of that emotion in their order: a video returned for an emotion
    that is indexed is a video of that emotion. *)
Lemma buildEmotionMap_fold videos : forall acc k,
  default [] (fold_left buildEmotionMap_step videos acc !! k)
  = (default [] (acc !! k)
     ++ List.filter (fun v => String.eqb (emotion v) k) videos)%list.
Proof.
  induction videos as [|v videos IH]; intros acc k; simpl.
  - now rewrite app_nil_r.
  - rewrite IH. unfold buildEmotionMap_step.
    destruct (String.eqb_spec (emotion v) k) as [->|Hne].
    + rewrite lookup_insert_eq. simpl. now rewrite <- app_assoc.
    + now rewrite lookup_insert_ne.
Qed.

Lemma buildEmotionMap_indexed videos k :
  default [] (buildEmotionMap videos !! k)
  = List.filter (fun v => String.eqb (emotion v) k) videos.
Proof.
  unfold buildEmotionMap. rewrite buildEmotionMap_fold.
  now rewrite lookup_empty.
Qed.

End Resolve.

Lemma getVideoForEmotion_resolves_witness :
  (forall v vs,
     VideoEmotionMapper.indexed Sample.ready_mapper (Js.toLowerCase "Joy") = v :: vs ->
     exists v',
       VideoEmotionMapper.getVideoForEmotion Sample.ready_mapper "Joy" true 0
       = Returns (Some v')
       /\ In v' (v :: vs) /\ (true = true -> v' = v)) /\
  (forall skipped f rest v vs,
     VideoEmotionMapper.indexed Sample.ready_mapper (Js.toLowerCase "Joy") = [] ->
     VideoEmotionMapper.fallbacks_of (Js.toLowerCase "Joy")
     = (skipped ++ f :: rest)%list ->
     (forall g, In g skipped -> VideoEmotionMapper.indexed Sample.ready_mapper g = []) ->
     VideoEmotionMapper.indexed Sample.ready_mapper f = v :: vs ->
     exists v',
       VideoEmotionMapper.getVideoForEmotion Sample.ready_mapper "Joy" true 0
       = Returns (Some v')
       /\ In v' (v :: vs) /\ (true = true -> v' = v)) /\
  (VideoEmotionMapper.indexed Sample.ready_mapper (Js.toLowerCase "Joy") = [] ->
   (forall g, In g (VideoEmotionMapper.fallbacks_of (Js.toLowerCase "Joy")) ->
              VideoEmotionMapper.indexed Sample.ready_mapper g = []) ->
   VideoEmotionMapper.getVideoForEmotion Sample.ready_mapper "Joy" true 0
   = Returns (head (VideoEmotionMapper.availableVideos Sample.ready_mapper))).
Proof.
  apply (getVideoForEmotion_resolves Sample.ready_mapper "Joy" true 0).
  - reflexivity.
  - reflexivity.
Defined.

Example resolve_joy :
  VideoEmotionMapper.getVideoForEmotion Sample.ready_mapper "Joy" true 0
  = Returns (Some Sample.joy_video).
Proof. vm_compute. reflexivity. Qed.

(** Anger has no video; neither have disgust and fear, its first fallbacks;
    neutral, the third, has one. *)
Example resolve_anger_by_fallback :
  VideoEmotionMapper.getVideoForEmotion Sample.ready_mapper "anger" true 0
  = Returns (Some Sample.neutral_video).
Proof. vm_compute. reflexivity. Qed.

(** C8, as stated, fails.  After [refresh()] on a new mapper the video of
    joy is indexed, and [getVideoForEmotion('joy')] returns null: the
    mapper is not initialized. *)
Lemma getVideoForEmotion_not_initialized_null :
  VideoEmotionMapper.indexed Sample.refreshed_mapper "joy" = [Sample.joy_video] /\
  VideoEmotionMapper.getVideoForEmotion Sample.refreshed_mapper "joy" true 0
  = Returns None.
Proof. split; vm_compute; reflexivity. Qed.

(** The lookup in the fallback table does not test for own properties:
    [getVideoForEmotion('constructor')] throws. *)
Example getVideoForEmotion_constructor_throws :
  VideoEmotionMapper.getVideoForEmotion Sample.ready_mapper "constructor" true 0
  = Throws "fallbacks is not iterable".
Proof. vm_compute. reflexivity. Qed.

(** ** The sessions of the server *)

Section Sessions.

Import Server.

Lemma lookup_alter_at {A} (f : A -> A) (m : gmap string A) id id' :
  alter f id m !! id' = if decide (id = id') then f <$> m !! id' else m !! id'.
Proof. rewrite lookup_alter. case_decide; subst; reflexivity. Qed.

Lemma busy_on_session s id id' f :
  busy (on_session id f s) id'
  = match sessions s !! id' with
    | Some x => isProcessing (if decide (id = id') then f x else x)
    | None => false
    end.
Proof.
  unfold busy, on_session. simpl. rewrite lookup_alter_at.
  destruct (decide (id = id')), (sessions s !! id'); reflexivity.
Qed.

Lemma busy_push_turn s id id' t :
  busy (on_session id (push_turn t) s) id' = busy s id'.
Proof.
  rewrite busy_on_session. unfold busy.
  destruct (sessions s !! id'); [|reflexivity]. now case_decide.
Qed.

(** *** A submission while the session is busy *)

(** While a run is suspended again after a resumption, the flag of its
    session is as it was: a run only clears the flag when it ends. *)
Lemma resume_suspended_keeps_flag now k a s s' k' id :
  resume now k a s = (s', Some k') ->
  busy s' id = busy s id /\ socket_of k' = socket_of k.
Proof.
  destruct k as [id0|r|r response rt de descr|r response rt at' de video custom];
    destruct a as [text|response'|a|audio]; simpl;
    try (intros [= <- <-]; auto; fail).
  - (* the transcription *)
    unfold resume_transcription. destruct text as [text|error].
    + destruct (Js.truthy text && Js.truthy (Js.trim text));
        intros [= <- <-]. simpl. split; [|reflexivity].
      unfold emit, send, busy. simpl. rewrite lookup_alter_at.
      destruct (decide (id0 = id)); destruct (sessions s !! id); reflexivity.
    + intros [=].
  - (* the reply *)
    unfold resume_response, with_standard_video, ask_for_audio.
    repeat case_match; intros [= <- <-]; simpl; split; try reflexivity;
      unfold busy; simpl; rewrite lookup_alter_at;
      destruct (decide (run_socket r = id)); destruct (sessions s !! id);
      reflexivity.
  - (* the character *)
    unfold resume_character, with_standard_video, ask_for_audio.
    repeat case_match; intros [= <- <-]; simpl; split; reflexivity.
  - (* the voice *)
    unfold resume_audio. repeat case_match; intros [=].
Qed.

Lemma text_input_accepted now id text s x :
  sessions s !! id = Some x ->
  isProcessing x = false ->
  Js.truthy text && Js.truthy (Js.trim text) = true ->
  exists s1 r,
    Payloads.on_text_input_data now id (Payloads.Data (Payloads.Text text)) s
    = (s1, Some (AwaitResponse r)) /\
    run_origin r = TextInput /\ run_socket r = id /\ run_text r = text /\
    busy s1 id = true.
Proof.
  intros X P T. apply andb_true_iff in T as [T1 T2].
  unfold Payloads.on_text_input_data, on_text_input. rewrite X, P, T1, T2.
  cbn [orb negb]. eexists _, _. split; [reflexivity|].
  repeat split. rewrite busy_push_turn.
  change (busy (on_session id (set_isProcessing true) s) id = true).
  rewrite busy_on_session, X. now rewrite decide_True.
Qed.

Lemma flag_cleared now id s s0 x :
  sessions s !! id = Some x ->
  Payloads.flag_cleared_by_event now id s s0 ->
  exists x0, sessions s0 !! id = Some x0 /\ isProcessing x0 = false.
Proof.
  intros X [->|[->|[error ->]]].
  - unfold on_interrupt. rewrite X. simpl.
    rewrite lookup_alter_at, decide_True, X by reflexivity. eauto.
  - unfold on_reset. rewrite X. simpl.
    rewrite lookup_alter_at, decide_True, X by reflexivity. eauto.
  - simpl. rewrite lookup_alter_at, decide_True, X by reflexivity. eauto.
Qed.


(** *** Reset *)

(** C7, as it holds.  On a session that exists, busy or not, [reset]
    empties the conversation history, clears the busy flag and emits
    [reset-complete]; the active custom characters and the other sessions
    are left as they are. *)
Theorem reset_clears_history_and_flag s id :
  is_Some (sessions s !! id) ->
  history (on_reset id s) id = [] /\
  busy (on_reset id s) id = false /\
  emitted (on_reset id s) = (emitted s ++ [(id, ResetComplete)])%list /\
  activeCustomCharacters (on_reset id s) = activeCustomCharacters s /\
  forall id', id' <> id -> sessions (on_reset id s) !! id' = sessions s !! id'.
Proof.
  intros [x Hx]. unfold on_reset, history, busy. rewrite Hx. simpl.
  rewrite lookup_alter_at, decide_True, Hx by reflexivity. simpl.
  repeat split. intros id' Hne. rewrite lookup_alter_ne by congruence.
  reflexivity.
Qed.

End Sessions.



Lemma reset_clears_history_and_flag_witness :
  Server.history (Server.on_reset Sample.talker Sample.pirate_in_progress)
    Sample.talker = [] /\
  Server.busy (Server.on_reset Sample.talker Sample.pirate_in_progress)
    Sample.talker = false /\
  Server.emitted (Server.on_reset Sample.talker Sample.pirate_in_progress)
  = (Server.emitted Sample.pirate_in_progress
     ++ [(Sample.talker, Server.ResetComplete)])%list /\
  Server.activeCustomCharacters
    (Server.on_reset Sample.talker Sample.pirate_in_progress)
  = Server.activeCustomCharacters Sample.pirate_in_progress /\
  forall id', id' <> Sample.talker ->
    Server.sessions (Server.on_reset Sample.talker Sample.pirate_in_progress) !! id'
    = Server.sessions Sample.pirate_in_progress !! id'.
Proof.
  apply (reset_clears_history_and_flag Sample.pirate_in_progress Sample.talker).
  vm_compute. eexists. reflexivity.
Defined.

(** C7, as stated, fails.  The talker has a custom character and a turn in
    progress: [reset] is carried out all the same, and the custom
    character is still active afterwards. *)
Lemma reset_while_busy_keeps_custom_character :
  Server.busy Sample.pirate_in_progress Sample.talker = true /\
  length (Server.history Sample.pirate_in_progress Sample.talker) = 2 /\
  Server.history (Server.on_reset Sample.talker Sample.pirate_in_progress)
    Sample.talker = [] /\
  Server.busy (Server.on_reset Sample.talker Sample.pirate_in_progress)
    Sample.talker = false /\
  Server.activeCustomCharacters
    (Server.on_reset Sample.talker Sample.pirate_in_progress) !! Sample.talker
  = Some {| Server.url :=
              Some "/videos/custom_variants/neutral_grumpy_pirate_6787d769_2025-09-01T10-00-00-000Z.mp4";
            Server.emotion := "neutral";
            Server.description := "grumpy pirate";
            Server.cached := false |}.
Proof. repeat split; vm_compute; reflexivity. Qed.

(** ** A turn that does not go well *)

Section Turns.

Import Server.

(** *** Nothing was said *)

(** An accepted audio submission whose transcript is empty or blank: the
    transcript is reported and the handler returns; the flag it has set
    stays set and no [idle] status follows. *)
Lemma blank_transcript_ends_the_run now id text s x :
  sessions s !! id = Some x ->
  isProcessing x = false ->
  Js.truthy text && Js.truthy (Js.trim text) = false ->
  exists s',
    drive [(now, Transcribed (Returns text))]
      (fst (on_audio_for_transcription id s))
      (snd (on_audio_for_transcription id s)) = (s', None) /\
    busy s' id = true /\
    emitted s' = (emitted s ++ [(id, Status "transcribing");
                                (id, TranscriptionResult text)])%list.
Proof.
  intros Hx Hp Hblank. unfold on_audio_for_transcription.
  rewrite Hx, Hp. simpl. unfold resume_transcription. rewrite Hblank.
  eexists. split; [reflexivity|]. split.
  - unfold busy. simpl. rewrite lookup_alter_at, decide_True, Hx by reflexivity.
    reflexivity.
  - simpl. now rewrite <- app_assoc.
Qed.

(** *** The voice synthesis fails *)

(** In a typed turn the bundle is still emitted and broadcast to the
    displays, without audio and with the error; its video is the standard
    video, if one was chosen. *)
Lemma typed_turn_voice_failure now error r response rt at' de video custom s :
  run_origin r = TextInput ->
  resume_audio now (Throws error) r response rt at' de video custom s
  = (back_to_idle (run_socket r)
       (broadcast {| display_audio := None;
                     display_video := standard <$> video;
                     display_text := response;
                     display_emotion := de;
                     display_customCharacter := None |}
          (emit (run_socket r)
             (ConversationComplete
                {| bundle_transcription := run_text r;
                   bundle_response := response;
                   bundle_emotion := de;
                   bundle_audio := None;
                   bundle_video := standard <$> video;
                   bundle_customCharacter := None;
                   bundle_timing := None;
                   bundle_error := Some "Failed to generate audio" |}) s)),
     None).
Proof. unfold resume_audio. now intros ->. Qed.

(** In a spoken turn an error and the [idle] status are emitted, and
    nothing else. *)
Lemma spoken_turn_voice_failure now error r response rt at' de video custom s :
  run_origin r = AudioForTranscription ->
  exists s',
    resume_audio now (Throws error) r response rt at' de video custom s
    = (s', None) /\
    emitted s' = (emitted s ++ [(run_socket r, Error "Failed to generate audio" error);
                                (run_socket r, Status "idle")])%list.
Proof.
  unfold resume_audio. intros ->. eexists. split; [reflexivity|].
  simpl. now rewrite <- app_assoc.
Qed.

End Turns.

(** C4 on the code.  The talker sends audio whose transcript is blank: the
    run ends there with the busy flag of the session still set and without
    an [idle] status (and without [conversation-complete]), and a text the
    talker types afterwards is ignored. *)
Lemma blank_transcript_leaves_session_busy :
  snd Sample.silence_transcribed = None /\
  Server.busy (fst Sample.silence_transcribed) Sample.talker = true /\
  Server.emitted_since Sample.two_clients (fst Sample.silence_transcribed)
  = [(Sample.talker, Server.Status "transcribing");
     (Sample.talker, Server.TranscriptionResult "  ")] /\
  Server.on_text_input 3000 Sample.talker "hello"
    (fst Sample.silence_transcribed)
  = (fst Sample.silence_transcribed, None).
Proof. repeat split; vm_compute; reflexivity. Qed.

(** C9 on the code.  The talker sends audio, the transcript and the reply
    arrive, the voice synthesis fails: the talker gets an error and the
    [idle] status; no [conversation-complete] is emitted and nothing is
    broadcast to the display. *)
Lemma spoken_turn_without_voice_is_not_completed :
  snd Sample.spoken_turn_without_voice = None /\
  Server.emitted_since Sample.two_clients (fst Sample.spoken_turn_without_voice)
  = [(Sample.talker, Server.Status "transcribing");
     (Sample.talker, Server.TranscriptionResult "hello there");
     (Sample.talker, Server.Status "thinking");
     (Sample.talker, Server.Status "generating-audio");
     (Sample.talker, Server.Error "Failed to generate audio" "quota exceeded");
     (Sample.talker, Server.Status "idle")].
Proof. split; vm_compute; reflexivity. Qed.

(** The same turn, typed: the bundle is emitted and broadcast without
    audio. *)
Example typed_turn_without_voice_is_completed :
  List.filter Server.is_conversation_complete
    (Server.emitted_since Sample.two_clients (fst Sample.typed_turn_without_voice))
  = [(Sample.talker,
      Server.ConversationComplete
        {| Server.bundle_transcription := "hello there";
           Server.bundle_response := "Hi! Nice to see you.";
           Server.bundle_emotion := "neutral";
           Server.bundle_audio := None;
           Server.bundle_video :=
             Some (Server.Standard "neutral_20250801_090000.mp4"
                     "/generated_files/neutral_20250801_090000.mp4" "neutral");
           Server.bundle_customCharacter := None;
           Server.bundle_timing := None;
           Server.bundle_error := Some "Failed to generate audio" |})] /\
  map fst (List.filter Server.is_display_content
             (Server.emitted_since Sample.two_clients
                (fst Sample.typed_turn_without_voice)))
  = [Sample.viewer].
Proof. split; vm_compute; reflexivity. Qed.

(** A typed turn for which a custom character was generated: when the
    voice synthesis fails, the bundle has no video at all. *)
Example typed_pirate_without_voice_has_no_video :
  Server.activeCustomCharacters (fst Sample.typed_pirate_without_voice)
    !! Sample.talker
  = Some {| Server.url :=
              Some "/videos/custom_variants/neutral_grumpy_pirate_6787d769_2025-09-01T10-00-00-000Z.mp4";
            Server.emotion := "neutral";
            Server.description := "grumpy pirate";
            Server.cached := false |} /\
  map (fun e => match snd e with
                | Server.ConversationComplete b => Server.bundle_video b
                | _ => None
                end)
    (List.filter Server.is_conversation_complete
       (Server.emitted_since Sample.two_clients
          (fst Sample.typed_pirate_without_voice)))
  = [None].
Proof. split; vm_compute; reflexivity. Qed.

(** ** Interrupt *)

Create HintDb tracks.

Section Interrupt.

Import Server.

Variables b b' : list (string * event).

Lemma tracks_on_session id f s s' :
  (forall x y, same_session x y -> same_session (f x) (f y)) ->
  tracks b b' s s' -> tracks b b' (on_session id f s) (on_session id f s').
Proof.
  intros Hf [(S & A) E]. split; [|exact E].
  split; [|exact A]. intros id'. simpl. rewrite !lookup_alter_at.
  case_decide; [|apply S].
  destruct (S id') as [x y Hxy|]; constructor. now apply Hf.
Qed.

Lemma same_session_push_turn t x y :
  same_session x y -> same_session (push_turn t x) (push_turn t y).
Proof. intros [H1 H2]. split; simpl; congruence. Qed.

Lemma same_session_set_isProcessing c c' x y :
  same_session x y -> same_session (set_isProcessing c x) (set_isProcessing c' y).
Proof. intros [H1 H2]. split; simpl; congruence. Qed.

Lemma tracks_send l s s' :
  tracks b b' s s' -> tracks b b' (send l s) (send l s').
Proof.
  intros [A (l0 & E & E')]. split; [exact A|].
  exists (l0 ++ l)%list. simpl. rewrite E, E', <- !app_assoc. auto.
Qed.

Lemma tracks_emit id e s s' :
  tracks b b' s s' -> tracks b b' (emit id e s) (emit id e s').
Proof. apply tracks_send. Qed.

Lemma tracks_broadcast c s s' :
  tracks b b' s s' -> tracks b b' (broadcast c s) (broadcast c s').
Proof.
  intros H. unfold broadcast, hologramConnections.
  destruct H as [A E]. pose proof A as (_ & -> & _).
  apply tracks_send. split; assumption.
Qed.

Lemma tracks_with_activeCustomCharacters f s s' :
  tracks b b' s s' ->
  tracks b b' (with_activeCustomCharacters f s) (with_activeCustomCharacters f s').
Proof.
  intros [(S & C & A & R) E]. split; [|exact E].
  split; [exact S|]. split; [exact C|]. split; [simpl; now rewrite A | exact R].
Qed.

Lemma tracks_with_customCharacterGenerator g s s' :
  tracks b b' s s' ->
  tracks b b' (with_customCharacterGenerator g s) (with_customCharacterGenerator g s').
Proof.
  intros [(S & C & A & P & V & M & G) E]. split; [|exact E].
  repeat split; assumption || reflexivity.
Qed.

Lemma tracks_count_conversation c s s' :
  tracks b b' s s' ->
  tracks b b' (count_conversation c s) (count_conversation c s').
Proof.
  intros [(S & C & A & P & V & M & G) E]. split; [|exact E].
  unfold alike. simpl. rewrite P, V. auto 10.
Qed.

Lemma tracks_back_to_idle id s s' :
  tracks b b' s s' -> tracks b b' (back_to_idle id s) (back_to_idle id s').
Proof.
  intros H. apply tracks_on_session; [apply same_session_set_isProcessing|].
  now apply tracks_emit.
Qed.

Lemma tracks_outer_catch m id e s s' :
  tracks b b' s s' -> tracks b b' (outer_catch m id e s) (outer_catch m id e s').
Proof.
  intros H. unfold outer_catch. do 2 apply tracks_emit.
  apply tracks_on_session; [apply same_session_set_isProcessing | exact H].
Qed.

Lemma tracks_with_standard_video now r response rt de s s' :
  tracks b b' s s' ->
  snd (with_standard_video now r response rt de s)
  = snd (with_standard_video now r response rt de s') /\
  tracks b b' (fst (with_standard_video now r response rt de s))
              (fst (with_standard_video now r response rt de s')).
Proof.
  intros H. unfold with_standard_video, ask_for_audio.
  pose proof H as [(_ & _ & _ & _ & _ & <- & _) _].
  destruct (VideoEmotionMapper.getVideoForEmotion _ _ _ _); simpl.
  - split; [reflexivity | now apply tracks_emit].
  - split; [reflexivity | now apply tracks_outer_catch].
Qed.

#[local] Hint Resolve tracks_emit tracks_broadcast tracks_count_conversation
  tracks_back_to_idle tracks_outer_catch tracks_with_activeCustomCharacters
  tracks_with_customCharacterGenerator same_session_push_turn
  same_session_set_isProcessing : tracks.

(** A resumption does not read the busy flags, and what it emits does not
    depend on what was emitted before. *)
Lemma resume_tracks now k a s s' :
  tracks b b' s s' ->
  snd (resume now k a s) = snd (resume now k a s') /\
  tracks b b' (fst (resume now k a s)) (fst (resume now k a s')).
Proof.
  intros H.
  destruct k as [id|r|r response rt de descr|r response rt at' de video custom];
    destruct a as [text|response'|a|audio]; simpl; auto.
  - (* the transcription *)
    unfold resume_transcription. destruct text as [text|error]; simpl.
    + destruct (Js.truthy text && Js.truthy (Js.trim text)); simpl.
      * split; [reflexivity|]. apply tracks_emit.
        apply tracks_on_session; auto with tracks.
      * auto with tracks.
    + auto with tracks.
  - (* the reply *)
    unfold resume_response.
    set (reset := match run_origin r with
                  | TextInput => isResetCommand (run_text r)
                  | AudioForTranscription => false
                  end).
    set (turn := {| role := "assistant"; content := response';
                    timestamp := now |}).
    assert (H1 : tracks b b'
      (if reset then with_activeCustomCharacters (delete (run_socket r))
                       (on_session (run_socket r) (push_turn turn) s)
       else on_session (run_socket r) (push_turn turn) s)
      (if reset then with_activeCustomCharacters (delete (run_socket r))
                       (on_session (run_socket r) (push_turn turn) s')
       else on_session (run_socket r) (push_turn turn) s')).
    { destruct reset; [apply tracks_with_activeCustomCharacters|];
        apply tracks_on_session; auto with tracks. }
    revert H1.
    generalize (if reset then with_activeCustomCharacters (delete (run_socket r))
                       (on_session (run_socket r) (push_turn turn) s)
                else on_session (run_socket r) (push_turn turn) s).
    generalize (if reset then with_activeCustomCharacters (delete (run_socket r))
                       (on_session (run_socket r) (push_turn turn) s')
                else on_session (run_socket r) (push_turn turn) s').
    intros t' t H1.
    pose proof H1 as [(_ & _ & <- & _) _].
    destruct (detectCustomCharacterRequest (run_text r)) as [request|];
      [destruct (Js.truthy request)|];
      try (simpl; split; [reflexivity | now apply tracks_emit]);
      (destruct (activeCustomCharacters t !! run_socket r) as [c|];
       [destruct (Js.truthy (description c) && negb reset)|]);
      try (now apply tracks_with_standard_video);
      simpl; (split; [reflexivity|]);
      destruct (run_origin r); auto with tracks.
  - (* the character *)
    unfold resume_character.
    pose proof H as [(_ & _ & _ & _ & _ & _ & <-) _].
    destruct (CustomCharacterGenerator.getOrCreateVariant _ _ _ _) as [g o].
    assert (H1 : tracks b b' (with_customCharacterGenerator g s)
                             (with_customCharacterGenerator g s'))
      by auto with tracks.
    destruct (match o with Returns res => _ | Throws _ => None end).
    + unfold ask_for_audio. simpl. split; [reflexivity|].
      auto with tracks.
    + now apply tracks_with_standard_video.
  - (* the voice *)
    unfold resume_audio. destruct audio as [audio|error].
    + simpl. split; [reflexivity|]. auto 6 with tracks.
    + destruct (run_origin r); simpl; (split; [reflexivity|]);
        auto 6 with tracks.
Qed.

Lemma drive_tracks answers : forall k s s',
  tracks b b' s s' ->
  snd (drive answers s k) = snd (drive answers s' k) /\
  tracks b b' (fst (drive answers s k)) (fst (drive answers s' k)).
Proof.
  induction answers as [|[now a] answers IH]; intros k s s' H; simpl.
  - auto.
  - destruct k as [k|]; [|auto].
    destruct (resume_tracks now k a s s' H) as [Hk Hs].
    destruct (resume now k a s) as [s1 k1], (resume now k a s') as [s1' k1'].
    simpl in Hk, Hs. subst k1'. now apply IH.
Qed.

End Interrupt.




(** ** The emotions the server asks videos for *)

Section Detected.

Import Server.

Lemma highest_from scores : forall e0 n0,
  fst (highest scores e0 n0) = e0 \/ In (fst (highest scores e0 n0)) (map fst scores).
Proof.
  induction scores as [|[e n] scores IH]; intros e0 n0; simpl.
  - now left.
  - destruct (n0 <? n)%nat.
    + destruct (IH e n) as [->|H]; [right; now left | right; now right].
    + destruct (IH e0 n0) as [->|H]; [now left | right; now right].
Qed.

(** [detectEmotionFromText] answers [neutral] or an emotion of its table. *)
Lemma detectEmotionFromText_known userInput aiResponse :
  In (detectEmotionFromText userInput aiResponse)
     ("neutral" :: map fst emotionPatterns).
Proof.
  unfold detectEmotionFromText.
  match goal with |- context [highest ?l ?e ?n] =>
    pose proof (highest_from l e n) as H; destruct (highest l e n) as [em sc]
  end.
  simpl fst in H. destruct (0 <? sc)%nat; [|now left].
  destruct H as [->|H]; [now left|]. right.
  rewrite map_map in H.
  assert (E : forall l : list (string * list string),
    map (fun x => fst (let '(emotion, patterns) := x in
                       (emotion, score
                          (Js.toLowerCase (userInput +:+ " " +:+ aiResponse))
                          patterns))) l
    = map fst l).
  { induction l as [|[e ps] l IH]; simpl; [reflexivity | now rewrite IH]. }
  now rewrite E in H.
Qed.

(** For such an emotion the lookup in the fallback table finds a list or
    nothing, never an inherited property: in the handlers
    [getVideoForEmotion] does not throw. *)
Lemma detected_emotion_resolves userInput aiResponse m :
  exists video,
    VideoEmotionMapper.getVideoForEmotion m
      (detectEmotionFromText userInput aiResponse) true 0 = Returns video.
Proof.
  pose proof (detectEmotionFromText_known userInput aiResponse) as H.
  simpl in H.
  unfold VideoEmotionMapper.getVideoForEmotion.
  destruct (negb (VideoEmotionMapper.initialized m)); [eexists; reflexivity|].
  assert (N : inherited (Js.toLowerCase (detectEmotionFromText userInput aiResponse))
              = false).
  { repeat (destruct H as [<-|H]; [vm_compute; reflexivity|]). destruct H. }
  rewrite some_videos_indexed, (getFallbackVideos_not_inherited _ _ N).
  repeat case_match; simplify_eq; eexists; reflexivity.
Qed.

End Detected.

(* ===================================================================== *)
(** * Further properties of the code *)
(* ===================================================================== *)

(** ** The shape of a cache key *)

Section KeyShape.

Import CustomCharacterGenerator JsFacts.

Lemma all_chars_app p (s t : string) :
  all_chars p (s +:+ t) = all_chars p s && all_chars p t.
Proof.
  induction s as [|c s IH]; simpl; [reflexivity|].
  now rewrite IH, andb_assoc.
Qed.

Lemma all_chars_take p n : forall s,
  all_chars p s = true -> all_chars p (Js.take n s) = true.
Proof.
  induction n as [|n IH]; intros [|c s]; simpl; auto.
  intros H. apply andb_prop in H as [Hc Hs]. now rewrite Hc, IH.
Qed.

Lemma length_take n : forall s,
  String.length (Js.take n s) = Nat.min n (String.length s).
Proof.
  induction n as [|n IH]; intros [|c s]; simpl; auto.
Qed.

Lemma length_append (s t : string) :
  String.length (s +:+ t) = String.length s + String.length t.
Proof. induction s as [|c s IH]; simpl; [reflexivity | now rewrite IH]. Qed.

Lemma length_map_chars f s :
  String.length (Js.map_chars f s) = String.length s.
Proof. induction s as [|c s IH]; simpl; [reflexivity | now rewrite IH]. Qed.

Lemma normalize_key_safe e d :
  all_chars is_key_safe (normalize e d) = true.
Proof.
  unfold normalize, Js.replace_chars.
  generalize (Js.toLowerCase (e +:+ "_" +:+ d)). intros s.
  induction s as [|c s IH]; simpl; [reflexivity|]. rewrite IH, andb_true_r.
  unfold is_key_safe, is_key_char.
  destruct (Js.is_lower_az c || Js.is_digit c) eqn:K; simpl; [|reflexivity].
  now rewrite K.
Qed.

Lemma length_normalize e d :
  String.length (normalize e d) = String.length e + 1 + String.length d.
Proof.
  unfold normalize, Js.replace_chars, Js.toLowerCase.
  rewrite !length_map_chars, !length_append. simpl. lia.
Qed.

(** The digest is thirty-two hexadecimal digits. *)
Lemma le_bytes_range n : forall x,
  Forall (fun b => (0 <= b < 256)%Z) (Md5.le_bytes n x).
Proof.
  induction n as [|n IH]; intros x; simpl; constructor; [|apply IH].
  apply Z.mod_pos_bound. lia.
Qed.

Lemma hex_digit_key_safe n :
  (0 <= n < 16)%Z -> is_key_safe (Md5.hex_digit n) = true.
Proof.
  intros H.
  assert (A : forallb (fun k => is_key_safe (Md5.hex_digit (Z.of_nat k)))
                (seq 0 16) = true) by (vm_compute; reflexivity).
  rewrite List.forallb_forall in A. specialize (A (Z.to_nat n)).
  rewrite Z2Nat.id in A by lia. apply A, in_seq. lia.
Qed.

Lemma hex_of_bytes_key_safe bs :
  Forall (fun b => (0 <= b < 256)%Z) bs ->
  all_chars is_key_safe (Md5.hex_of_bytes bs) = true /\
  String.length (Md5.hex_of_bytes bs) = 2 * length bs.
Proof.
  induction 1 as [|b bs Hb _ [IH1 IH2]]; simpl; [auto|].
  rewrite IH1, IH2, !hex_digit_key_safe; [split; [reflexivity | lia]| |].
  - apply Z.mod_pos_bound. lia.
  - split; [apply Z.div_pos; lia | apply Z.div_lt_upper_bound; lia].
Qed.

Lemma digest_hex_shape s :
  all_chars is_key_safe (Md5.digest_hex s) = true /\
  String.length (Md5.digest_hex s) = 32.
Proof.
  unfold Md5.digest_hex.
  match goal with |- context [Md5.hex_of_bytes ?bs] =>
    destruct (hex_of_bytes_key_safe bs) as [H1 H2] end.
  - repeat (apply Forall_app; split); apply le_bytes_range.
  - split; [exact H1|]. rewrite H2, !length_app. reflexivity.
Qed.

Lemma hex_digit_hex n :
  (0 <= n < 16)%Z -> Hex.is_hex_digit (Md5.hex_digit n) = true.
Proof.
  intros H.
  assert (A : forallb (fun k => Hex.is_hex_digit (Md5.hex_digit (Z.of_nat k)))
                (seq 0 16) = true) by (vm_compute; reflexivity).
  rewrite List.forallb_forall in A. specialize (A (Z.to_nat n)).
  rewrite Z2Nat.id in A by lia. apply A, in_seq. lia.
Qed.

Lemma hex_of_bytes_hex bs :
  Forall (fun b => (0 <= b < 256)%Z) bs ->
  all_chars Hex.is_hex_digit (Md5.hex_of_bytes bs) = true.
Proof.
  induction 1 as [|b bs Hb _ IH]; simpl; [auto|].
  rewrite IH, !hex_digit_hex; [reflexivity| |].
  - apply Z.mod_pos_bound. lia.
  - split; [apply Z.div_pos; lia | apply Z.div_lt_upper_bound; lia].
Qed.

Lemma digest_hex_hex s : all_chars Hex.is_hex_digit (Md5.digest_hex s) = true.
Proof.
  unfold Md5.digest_hex. apply hex_of_bytes_hex.
  repeat (apply Forall_app; split); apply le_bytes_range.
Qed.

(** X1. A cache key is made of lowercase letters, digits and underscores
    only, whatever the emotion and the description are: it is a prefix of
    one to thirty such characters, an underscore and eight hexadecimal
    digits, so that it has ten to thirty-nine characters. *)
Theorem generateCacheKey_shape e d :
  all_chars is_key_safe (generateCacheKey e d) = true /\
  10 <= String.length (generateCacheKey e d) <= 39 /\
  exists prefix digits,
    generateCacheKey e d = prefix +:+ "_" +:+ digits /\
    1 <= String.length prefix <= 30 /\
    String.length digits = 8 /\
    all_chars Hex.is_hex_digit digits = true.
Proof.
  unfold generateCacheKey.
  destruct (digest_hex_shape (normalize e d)) as [H1 H2].
  assert (P : 1 <= String.length (Js.take 30 (normalize e d)) <= 30).
  { rewrite length_take, length_normalize.
    destruct (Nat.min_spec 30 (String.length e + 1 + String.length d))
      as [[? ->]|[? ->]]; lia. }
  assert (D : String.length (Js.take 8 (Md5.digest_hex (normalize e d))) = 8).
  { rewrite length_take, H2. reflexivity. }
  split; [|split].
  - rewrite !all_chars_app, !all_chars_take; auto using normalize_key_safe.
  - rewrite !length_append, D. change (String.length "_") with 1. lia.
  - eexists _, _. split; [reflexivity|]. split; [exact P|]. split; [exact D|].
    apply all_chars_take, digest_hex_hex.
Qed.

End KeyShape.

(** ** What a call does to the cache *)

Section CacheEffects.

Import CustomCharacterGenerator.

(** X2. [checkCache] heals a stale entry: when the manifest has an entry for
    the pair but its file is gone and the manifest can be written, the call
    reports a miss, the entry is gone from the manifest in memory and from
    [manifest.json], the entries under other keys are as they were and no
    file is touched. *)
Theorem checkCache_evicts_stale_entry a st e d ent :
  recorded st e d = Some ent ->
  filename ent ∉ files st ->
  evict_saved a = true ->
  exists st',
    checkCache a st e d = (st', Returns None) /\
    recorded st' e d = None /\
    manifest st' = Some (manifest_json st') /\
    files st' = files st /\
    forall key, key <> generateCacheKey e d ->
      (manifest st' ≫= (.!! key)) = (manifest st ≫= (.!! key)).
Proof.
  unfold recorded, checkCache. intros Hrec Hfile Hsave.
  destruct (manifest st) as [m|] eqn:M; simpl in Hrec; [|discriminate].
  rewrite Hrec, decide_False by exact Hfile.
  unfold saveManifest. rewrite Hsave. simpl.
  eexists. split; [reflexivity|]. simpl.
  rewrite lookup_delete_eq. repeat split.
  intros key Hne. now rewrite lookup_delete_ne by congruence.
Qed.

Lemma saveManifest_synced ok msg st st' :
  saveManifest ok msg st = (st', Returns tt) ->
  manifest st' = Some (manifest_json st') /\ manifest st' = manifest st.
Proof.
  unfold saveManifest. destruct ok; [|discriminate].
  destruct (manifest st) as [m|] eqn:M; [|discriminate].
  intros [= <-]. simpl. auto.
Qed.

(** X3. A call that generates with success has written the manifest: when
    [getOrCreateVariant] returns [success] with [cached = false], the
    manifest in [manifest.json] is the manifest in memory. *)
Theorem getOrCreateVariant_persists a st e d st' r :
  getOrCreateVariant a st e d = (st', Returns r) ->
  success r = true -> cached r = false ->
  manifest st' = Some (manifest_json st').
Proof.
  unfold getOrCreateVariant.
  destruct (checkCache a st e d) as [st1 [[[p ent]|]|msg]];
    [intros [= <- <-]; discriminate | | discriminate].
  unfold generateVariant.
  destruct (generateCharacterImage a st1 d e) as [st2 image].
  repeat (case_match; simplify_eq); intros E Hs Hc; simplify_eq;
    simpl in *; try discriminate.
  all: match goal with H : saveManifest _ _ _ = (_, Returns ?u) |- _ =>
    destruct u; apply saveManifest_synced in H as [H _]; exact H end.
Qed.

Lemma saveManifest_frame ok msg st st' o :
  saveManifest ok msg st = (st', o) ->
  manifest st' = manifest st /\ files st' = files st /\ images st' = images st.
Proof.
  unfold saveManifest. repeat case_match; intros [= <- <-]; simpl; auto.
Qed.

(** X4. A call never deletes a file or an image, and it leaves the entries
    of the manifest under every other key as they were. *)
Theorem getOrCreateVariant_frame a st e d st' o :
  getOrCreateVariant a st e d = (st', o) ->
  files st ⊆ files st' /\ images st ⊆ images st' /\
  forall key, key <> generateCacheKey e d ->
    (manifest st' ≫= (.!! key)) = (manifest st ≫= (.!! key)).
Proof.
  unfold getOrCreateVariant, checkCache, generateVariant, generateCharacterImage.
  repeat (case_match; simplify_eq; simpl in * );
    intros; simplify_eq;
    repeat match goal with
           | H : saveManifest _ _ _ = _ |- _ =>
               apply saveManifest_frame in H as (? & ? & ?); simpl in *
           end;
    repeat match goal with
           | H : manifest ?x = _, H' : manifest ?x = _ |- _ =>
               rewrite H in H'; simplify_eq
           end;
    (split; [|split]);
    try (repeat match goal with
                | H : files ?x = _ |- context [files ?x] => rewrite H
                | H : images ?x = _ |- context [images ?x] => rewrite H
                end; simpl;
         first [reflexivity | apply union_subseteq_r]);
    intros key Hne; simpl;
    repeat match goal with
           | H : manifest ?x = _ |- context [manifest ?x] => rewrite H
           end; simpl;
    rewrite ?lookup_insert_ne, ?lookup_delete_ne by congruence; reflexivity.
Qed.

Lemma getOrCreateVariant_miss a st e d st' r :
  recorded st e d = None ->
  getOrCreateVariant a st e d = (st', Returns r) ->
  cached r = false.
Proof.
  unfold getOrCreateVariant, checkCache, recorded. intros R.
  destruct (manifest st) as [m|]; simpl in R; [|discriminate].
  rewrite R. destruct (generateVariant a st e d) as [st2 r2].
  now intros [= _ <-].
Qed.

(** X5. A call that fails, when the manifest could be written, leaves the
    manifest without an entry for the pair, whatever the download has left
    in the directory, so that the next call with the pair is not answered
    from the cache: a result it returns has [cached] false. *)
Theorem getOrCreateVariant_failure_leaves_no_entry a st e d st' r :
  getOrCreateVariant a st e d = (st', Returns r) ->
  success r = false ->
  entry_saved a = true ->
  recorded st' e d = None /\
  forall a2 st2 r2,
    getOrCreateVariant a2 st' e d = (st2, Returns r2) -> cached r2 = false.
Proof.
  intros H Hs Ha.
  assert (R : recorded st' e d = None).
  { revert H Hs.
    unfold getOrCreateVariant, checkCache, generateVariant,
      generateCharacterImage, recorded, saveManifest.
    rewrite Ha.
    repeat (case_match; simplify_eq; simpl in * );
      intros; simplify_eq; simpl in *; try discriminate;
      repeat match goal with
             | H : manifest ?x = _ |- context [manifest ?x] => rewrite H
             end; simpl; rewrite ?lookup_delete_eq; auto. }
  split; [exact R|]. intros a2 st2 r2. now apply getOrCreateVariant_miss.
Qed.

(** X6. The URL that [generateVariant] extracts from the answer of the
    video service is never empty, and it is one of the five places the
    code looks at; nothing is extracted exactly when all five are missing
    or empty. *)
Theorem extractVideoUrl_spec r :
  match extractVideoUrl (Some r) with
  | Some u =>
      u <> "" /\
      In (Some u) [data_video_url r; video_dot_url r; video_url r; url r;
                   output_video_url r]
  | None =>
      Forall (fun o => present o = false)
        [data_video_url r; video_dot_url r; video_url r; url r;
         output_video_url r]
  end.
Proof.
  unfold extractVideoUrl.
  assert (P : forall o u, present o = true -> o = Some u -> u <> "").
  { intros o u Hp ->. simpl in Hp. now destruct u. }
  destruct (present (data_video_url r)) eqn:H1;
    [destruct (data_video_url r) eqn:E; [|discriminate];
     split; [eapply P; eauto; now rewrite E | simpl; auto]|].
  destruct (present (video_dot_url r)) eqn:H2;
    [destruct (video_dot_url r) eqn:E; [|discriminate];
     split; [eapply P; eauto; now rewrite E | simpl; auto]|].
  destruct (present (video_url r)) eqn:H3;
    [destruct (video_url r) eqn:E; [|discriminate];
     split; [eapply P; eauto; now rewrite E | simpl; auto]|].
  destruct (present (url r)) eqn:H4;
    [destruct (url r) eqn:E; [|discriminate];
     split; [eapply P; eauto; now rewrite E | simpl; auto]|].
  destruct (present (output_video_url r)) eqn:H5;
    [destruct (output_video_url r) eqn:E; [|discriminate];
     split; [eapply P; eauto; now rewrite E | simpl; auto 6]|].
  repeat constructor; assumption.
Qed.

End CacheEffects.

Lemma checkCache_evicts_stale_entry_witness :
  exists st',
    CustomCharacterGenerator.checkCache Sample.morning Cases.stale_cache
      "neutral" "grumpy pirate" = (st', Returns None) /\
    CustomCharacterGenerator.recorded st' "neutral" "grumpy pirate" = None /\
    CustomCharacterGenerator.manifest st'
    = Some (CustomCharacterGenerator.manifest_json st') /\
    CustomCharacterGenerator.files st'
    = CustomCharacterGenerator.files Cases.stale_cache /\
    forall key,
      key <> CustomCharacterGenerator.generateCacheKey "neutral" "grumpy pirate" ->
      (CustomCharacterGenerator.manifest st' ≫= (.!! key))
      = (CustomCharacterGenerator.manifest Cases.stale_cache ≫= (.!! key)).
Proof.
  apply (checkCache_evicts_stale_entry Sample.morning Cases.stale_cache
           "neutral" "grumpy pirate" Cases.pirate_entry).
  - vm_compute. reflexivity.
  - simpl. apply not_elem_of_empty.
  - reflexivity.
Defined.

Lemma getOrCreateVariant_persists_witness :
  CustomCharacterGenerator.manifest (fst Sample.after_first_call)
  = Some (CustomCharacterGenerator.manifest_json (fst Sample.after_first_call)).
Proof.
  apply (getOrCreateVariant_persists Sample.morning Sample.empty_cache
           "neutral" "grumpy pirate" (fst Sample.after_first_call)
           Sample.first_result).
  - vm_compute. reflexivity.
  - reflexivity.
  - reflexivity.
Defined.

Lemma getOrCreateVariant_failure_leaves_no_entry_witness :
  CustomCharacterGenerator.files (fst Cases.after_failed_call)
  = {[ "neutral_grumpy_pirate_6787d769_2025-09-01T10-00-00-000Z.mp4" ]} /\
  CustomCharacterGenerator.recorded (fst Cases.after_failed_call)
    "neutral" "grumpy pirate" = None /\
  forall a2 st2 r2,
    CustomCharacterGenerator.getOrCreateVariant a2 (fst Cases.after_failed_call)
      "neutral" "grumpy pirate" = (st2, Returns r2) ->
    CustomCharacterGenerator.cached r2 = false.
Proof.
  split; [vm_compute; reflexivity|].
  apply (getOrCreateVariant_failure_leaves_no_entry Cases.download_cut
           Sample.empty_cache "neutral" "grumpy pirate"
           (fst Cases.after_failed_call) Cases.failed_result).
  - vm_compute. reflexivity.
  - reflexivity.
  - reflexivity.
Defined.

Lemma getOrCreateVariant_frame_witness :
  CustomCharacterGenerator.files Sample.empty_cache
  ⊆ CustomCharacterGenerator.files (fst Sample.after_first_call) /\
  CustomCharacterGenerator.images Sample.empty_cache
  ⊆ CustomCharacterGenerator.images (fst Sample.after_first_call) /\
  forall key,
    key <> CustomCharacterGenerator.generateCacheKey "neutral" "grumpy pirate" ->
    (CustomCharacterGenerator.manifest (fst Sample.after_first_call) ≫= (.!! key))
    = (CustomCharacterGenerator.manifest Sample.empty_cache ≫= (.!! key)).
Proof.
  apply (getOrCreateVariant_frame Sample.morning Sample.empty_cache
           "neutral" "grumpy pirate" (fst Sample.after_first_call)
           (snd Sample.after_first_call)).
  vm_compute. reflexivity.
Defined.

(** ** The description that [parseUserRequest] returns *)

Section CleanDescription.

Import CustomCharacterGenerator JsFacts.

Lemma collapse_spaces_from_clean s : forall in_run,
  has_double_space (Js.collapse_spaces_from in_run s) = false /\
  all_chars plain (Js.collapse_spaces_from in_run s) = true /\
  (in_run = true ->
   starts_with_space (Js.collapse_spaces_from in_run s) = false).
Proof.
  induction s as [|c s IH]; intros in_run; simpl; [auto|].
  destruct (Js.is_space c) eqn:Sc.
  - destruct in_run.
    + apply IH.
    + destruct (IH true) as (D & P & S). specialize (S eq_refl).
      split; [|split; [|discriminate]].
      * destruct (Js.collapse_spaces_from true s) as [|c' r] eqn:E;
          [reflexivity|]. simpl in S.
        change (has_double_space (String " " (String c' r)))
          with ((Js.is_space " " && Js.is_space c')
                || has_double_space (String c' r)).
        now rewrite S, andb_false_r.
      * simpl. exact P.
  - destruct (IH false) as (D & P & _).
    split; [|split].
    + destruct (Js.collapse_spaces_from false s) as [|c' r] eqn:E;
        [reflexivity|].
      change (has_double_space (String c (String c' r)))
        with ((Js.is_space c && Js.is_space c')
              || has_double_space (String c' r)).
      now rewrite Sc.
    + simpl. unfold plain at 1. now rewrite Sc, P.
    + simpl. intros _. exact Sc.
Qed.

Lemma has_double_space_cons c c' r :
  has_double_space (String c (String c' r))
  = (Js.is_space c && Js.is_space c') || has_double_space (String c' r).
Proof. reflexivity. Qed.

Lemma has_double_space_tail c s :
  has_double_space (String c s) = false -> has_double_space s = false.
Proof.
  destruct s as [|c' r]; [reflexivity|]. rewrite has_double_space_cons.
  intros H. now apply orb_false_elim in H as [_ H].
Qed.

Lemma trimStart_clean s :
  (has_double_space s = false -> has_double_space (Js.trimStart s) = false) /\
  (all_chars plain s = true -> all_chars plain (Js.trimStart s) = true) /\
  starts_with_space (Js.trimStart s) = false.
Proof.
  induction s as [|c s (ID & IP & IS)]; [repeat split; auto|].
  cbn [Js.trimStart]. destruct (Js.is_space c) eqn:Sc.
  - split; [|split; [|exact IS]].
    + intros H. apply ID. now apply has_double_space_tail in H.
    + intros H. apply IP. cbn [all_chars] in H.
      now apply andb_prop in H as [_ H].
  - repeat split; auto.
Qed.

Lemma trimEnd_cons c s :
  Js.trimEnd (String c s)
  = match Js.trimEnd s with
    | EmptyString => if Js.is_space c then EmptyString else String c EmptyString
    | r' => String c r'
    end.
Proof. reflexivity. Qed.

Lemma trimEnd_head c s c' r' :
  Js.trimEnd (String c s) = String c' r' -> c' = c.
Proof.
  rewrite trimEnd_cons. destruct (Js.trimEnd s); [destruct (Js.is_space c)|];
    congruence.
Qed.

Lemma trimEnd_clean s :
  (has_double_space s = false -> has_double_space (Js.trimEnd s) = false) /\
  (all_chars plain s = true -> all_chars plain (Js.trimEnd s) = true) /\
  (starts_with_space s = false -> starts_with_space (Js.trimEnd s) = false) /\
  ends_with_space (Js.trimEnd s) = false.
Proof.
  induction s as [|c s (ID & IP & IS & IE)]; [repeat split; auto|].
  rewrite trimEnd_cons. destruct (Js.trimEnd s) as [|c' r'] eqn:E.
  - destruct (Js.is_space c) eqn:Sc; [repeat split; auto|].
    repeat split; auto.
    intros H. cbn [all_chars] in *. apply andb_prop in H as [H _].
    now rewrite H.
  - repeat split.
    + intros H. rewrite has_double_space_cons.
      destruct s as [|c2 s2]; [discriminate|].
      rewrite (trimEnd_head _ _ _ _ E) in *.
      rewrite has_double_space_cons in H.
      apply orb_false_elim in H as [H1 H2]. now rewrite H1, ID.
    + intros H. cbn [all_chars] in *. apply andb_prop in H as [H1 H2].
      now rewrite H1, IP.
    + auto.
    + destruct r'; exact IE.
Qed.

(** X7. The description that [parseUserRequest] returns is clean: it does
    not begin or end with whitespace, it has no two whitespace characters
    in a row, and its only whitespace is the plain space. *)
Theorem parseUserRequest_description_clean userPrompt :
  starts_with_space (request_customDescription (parseUserRequest userPrompt)) = false /\
  ends_with_space (request_customDescription (parseUserRequest userPrompt)) = false /\
  has_double_space (request_customDescription (parseUserRequest userPrompt)) = false /\
  all_chars plain (request_customDescription (parseUserRequest userPrompt)) = true.
Proof.
  assert (clean : forall s,
    let r := Js.trim (Js.collapse_spaces s) in
    let descr := if Js.truthy r then r else "character" in
    starts_with_space descr = false /\ ends_with_space descr = false /\
    has_double_space descr = false /\ all_chars plain descr = true).
  { intros s.
    destruct (collapse_spaces_from_clean s false) as (D & P & _).
    fold (Js.collapse_spaces s) in D, P.
    destruct (trimStart_clean (Js.collapse_spaces s)) as (D1 & P1 & S1).
    destruct (trimEnd_clean (Js.trimStart (Js.collapse_spaces s)))
      as (D2 & P2 & S2 & E2).
    unfold Js.trim. cbv zeta.
    destruct (Js.truthy (Js.trimEnd (Js.trimStart (Js.collapse_spaces s)))).
    - auto 10.
    - repeat split; reflexivity. }
  unfold parseUserRequest, parse_cleaned.
  destruct (detect_keyword _ _) as [[em kw]|]; apply clean.
Qed.

End CleanDescription.

(** ** The emotion that [parseUserRequest] detects *)

Section DetectedKeyword.

Import CustomCharacterGenerator Keywords.

Lemma first_keyword_none lowered keywords :
  first_keyword lowered keywords = None <->
  Forall (fun k => Js.includes lowered k = false) keywords.
Proof.
  induction keywords as [|k ks IH]; simpl.
  - split; [constructor | reflexivity].
  - destruct (Js.includes lowered k) eqn:I.
    + split; [discriminate|]. intros H. inversion H. congruence.
    + rewrite IH. split; [now constructor | intros H; now inversion H].
Qed.

Lemma first_keyword_some lowered keywords k :
  first_keyword lowered keywords = Some k ->
  exists before after,
    keywords = (before ++ k :: after)%list /\
    Js.includes lowered k = true /\
    Forall (fun k' => Js.includes lowered k' = false) before.
Proof.
  induction keywords as [|k0 ks IH]; simpl; [discriminate|].
  destruct (Js.includes lowered k0) eqn:I.
  - intros [= <-]. exists [], ks. auto.
  - intros H. destruct (IH H) as (b & a & -> & Hk & Hb).
    exists (k0 :: b), a. auto.
Qed.

Lemma detect_keyword_none lowered table :
  detect_keyword lowered table = None <->
  Forall (fun k => Js.includes lowered k = false) (concat (map snd table)).
Proof.
  induction table as [|[em ks] table IH]; simpl.
  - split; [constructor | reflexivity].
  - rewrite Forall_app, <- IH, <- first_keyword_none.
    destruct (first_keyword lowered ks); split; try discriminate; auto.
    + intros [? _]. discriminate.
    + now intros [_ ?].
Qed.

Lemma detect_keyword_some lowered table em k :
  detect_keyword lowered table = Some (em, k) ->
  exists earlier keywords later before after,
    table = (earlier ++ (em, keywords) :: later)%list /\
    keywords = (before ++ k :: after)%list /\
    Js.includes lowered k = true /\
    Forall (fun k' => Js.includes lowered k' = false)
      (concat (map snd earlier) ++ before).
Proof.
  induction table as [|[em0 ks] table IH]; simpl; [discriminate|].
  destruct (first_keyword lowered ks) as [k0|] eqn:F.
  - intros [= <- <-].
    destruct (first_keyword_some _ _ _ F) as (b & a & -> & Hk & Hb).
    exists [], (b ++ k0 :: a)%list, table, b, a. auto.
  - intros H. destruct (IH H) as (ea & kws & la & b & a & -> & -> & Hk & Hb).
    exists ((em0, ks) :: ea), (b ++ k :: a)%list, la, b, a.
    repeat split; auto. simpl. rewrite <- app_assoc.
    apply Forall_app. split; [now apply first_keyword_none | exact Hb].
Qed.

(** X8. [parseUserRequest] answers [neutral] exactly when none of the
    keywords occurs in the prompt, letters compared without their case. *)
Theorem parseUserRequest_neutral_iff userPrompt :
  request_emotion (parseUserRequest userPrompt) = "neutral" <->
  Forall (fun keyword => occurs userPrompt keyword = false) all_keywords.
Proof.
  unfold parseUserRequest, parse_cleaned, occurs, all_keywords.
  rewrite <- detect_keyword_none.
  destruct (detect_keyword _ _) as [[em kw]|] eqn:D; simpl.
  - split; [|discriminate]. intros ->.
    apply detect_keyword_emotion in D. simpl in D.
    repeat (destruct D as [D|D]; [discriminate|]). destruct D.
  - split; reflexivity.
Qed.

(** X9. When a keyword occurs, the emotion is the one of the first keyword,
    in the order of the table, that occurs: no keyword of an earlier
    emotion occurs, and none that stands before it in the list of its own
    emotion. *)
Theorem parseUserRequest_first_keyword userPrompt :
  request_emotion (parseUserRequest userPrompt) <> "neutral" ->
  exists earlier keywords later before keyword after,
    emotionKeywords
    = (earlier ++ (request_emotion (parseUserRequest userPrompt), keywords)
               :: later)%list /\
    keywords = (before ++ keyword :: after)%list /\
    occurs userPrompt keyword = true /\
    Forall (fun k => occurs userPrompt k = false)
      (concat (map snd earlier) ++ before).
Proof.
  unfold parseUserRequest, parse_cleaned, occurs.
  destruct (detect_keyword _ _) as [[em kw]|] eqn:D; simpl; [|congruence].
  intros _.
  destruct (detect_keyword_some _ _ _ _ D) as (ea & kws & la & b & a & H).
  exists ea, kws, la, b, kw, a. exact H.
Qed.

End DetectedKeyword.

Lemma parseUserRequest_first_keyword_witness :
  exists earlier keywords later before keyword after,
    CustomCharacterGenerator.emotionKeywords
    = (earlier
       ++ (CustomCharacterGenerator.request_emotion
             (CustomCharacterGenerator.parseUserRequest "a nervous robot"),
           keywords) :: later)%list /\
    keywords = (before ++ keyword :: after)%list /\
    Keywords.occurs "a nervous robot" keyword = true /\
    Forall (fun k => Keywords.occurs "a nervous robot" k = false)
      (concat (map snd earlier) ++ before).
Proof.
  apply (parseUserRequest_first_keyword "a nervous robot").
  vm_compute. discriminate.
Defined.

(** [nervous] is a keyword of fear and of anxiety: fear comes first. *)
Example parse_nervous_is_fear :
  CustomCharacterGenerator.parseUserRequest "a nervous robot"
  = {| CustomCharacterGenerator.request_emotion := "fear";
       CustomCharacterGenerator.request_customDescription := "robot" |}.
Proof. vm_compute. reflexivity. Qed.

(** ** The description by default *)

Section Default.

Import CustomCharacterGenerator Keywords Leftover JsFacts.

Lemma is_space_lower_char c : Js.is_space c = true -> Js.lower_char c = c.
Proof.
  destruct c as [[] [] [] [] [] [] [] []]; vm_compute; intros H;
    first [reflexivity | discriminate H].
Qed.

Lemma blank_toLowerCase s : blank s = true -> Js.toLowerCase s = s.
Proof.
  unfold blank, Js.toLowerCase.
  induction s as [|c s IH]; [reflexivity|]. cbn [all_chars Js.map_chars].
  intros H. apply andb_true_iff in H as [Hc H].
  now rewrite (is_space_lower_char c Hc), IH.
Qed.

Lemma eqb_space c a :
  Js.is_space c = false -> Js.is_space a = true -> Ascii.eqb c a = false.
Proof.
  intros Hc Ha. destruct (Ascii.eqb_spec c a) as [->|]; [congruence | reflexivity].
Qed.

Lemma starts_with_blank_suffix k : forall x spaces,
  all_chars (fun c => negb (Js.is_space c)) k = true ->
  blank spaces = true ->
  Js.starts_with k (x +:+ spaces) = Js.starts_with k x.
Proof.
  unfold Js.starts_with, blank.
  induction k as [|c k IH]; intros x spaces K B; [now destruct x, spaces|].
  cbn [all_chars] in K. apply andb_true_iff in K as [Kc K].
  apply negb_true_iff in Kc.
  destruct x as [|a x].
  - destruct spaces as [|sp spaces]; [reflexivity|].
    cbn [all_chars] in B. apply andb_true_iff in B as [Bs _].
    change (EmptyString +:+ String sp spaces) with (String sp spaces).
    cbn [Js.starts_with_by]. unfold id.
    now rewrite (eqb_space c sp Kc Bs).
  - change (String a x +:+ spaces) with (String a (x +:+ spaces)).
    cbn [Js.starts_with_by]. destruct (Ascii.eqb (id c) (id a)); [|reflexivity].
    now apply IH.
Qed.

Lemma includes_blank_suffix k x : forall spaces,
  all_chars (fun c => negb (Js.is_space c)) k = true ->
  blank spaces = true ->
  Js.includes (x +:+ spaces) k = Js.includes x k.
Proof.
  intros spaces K. induction x as [|a x IH]; intros B.
  - change (EmptyString +:+ spaces) with spaces.
    induction spaces as [|sp spaces IHs].
    + reflexivity.
    + assert (B' : blank spaces = true).
      { unfold blank in *. cbn [all_chars] in B.
        now apply andb_true_iff in B as [_ B]. }
      cbn [Js.includes]. rewrite (IHs B').
      pose proof (starts_with_blank_suffix k EmptyString (String sp spaces) K B)
        as S.
      change (EmptyString +:+ String sp spaces) with (String sp spaces) in S.
      rewrite S. cbn [Js.includes]. now rewrite orb_false_r, orb_diag.
  - change (String a x +:+ spaces) with (String a (x +:+ spaces)).
    cbn [Js.includes]. rewrite (IH B).
    pose proof (starts_with_blank_suffix k (String a x) spaces K B) as S.
    change (String a x +:+ spaces) with (String a (x +:+ spaces)) in S.
    now rewrite S.
Qed.

Lemma keywords_without_space :
  Forall (fun k => all_chars (fun c => negb (Js.is_space c)) k = true)
    all_keywords.
Proof. repeat constructor. Qed.

Lemma no_keyword_before_spaces x spaces :
  blank spaces = true ->
  Forall (fun k => Js.includes x k = false) all_keywords ->
  Forall (fun k => Js.includes (x +:+ spaces) k = false) all_keywords.
Proof.
  intros B. pose proof keywords_without_space as K. revert K.
  induction all_keywords as [|k l IH]; intros K H; [constructor|].
  inversion K as [|? ? K1 K2]; inversion H as [|? ? Hk Hl]; subst.
  constructor; [|now apply IH]. now rewrite includes_blank_suffix.
Qed.

Lemma trimStart_blank s : blank s = true -> Js.trimStart s = EmptyString.
Proof.
  unfold blank. induction s as [|c s IH]; [reflexivity|].
  cbn [all_chars Js.trimStart]. intros H.
  apply andb_true_iff in H as [Hc H]. rewrite Hc. now apply IH.
Qed.

Lemma collapse_spaces_blank s : forall in_run,
  blank s = true -> blank (Js.collapse_spaces_from in_run s) = true.
Proof.
  unfold blank. induction s as [|c s IH]; intros in_run; [reflexivity|].
  cbn [all_chars Js.collapse_spaces_from]. intros H.
  apply andb_true_iff in H as [Hc H]. rewrite Hc.
  destruct in_run; [now apply IH|].
  cbn [all_chars]. now rewrite (IH true H).
Qed.

Lemma cleaned_blank s :
  blank s = true -> Js.trim (Js.collapse_spaces s) = EmptyString.
Proof.
  intros B. unfold Js.trim, Js.collapse_spaces.
  now rewrite (trimStart_blank _ (collapse_spaces_blank s false B)).
Qed.

Lemma strip_article_blank s : blank s = true -> strip_article s = s.
Proof.
  unfold blank. destruct s as [|c s]; [reflexivity|].
  cbn [all_chars]. intros H. apply andb_true_iff in H as [Hc _].
  assert (N : forall x, Js.is_space x = false ->
                        Ascii.eqb (Js.lower_char x) (Js.lower_char c) = false).
  { intros x Hx. rewrite (is_space_lower_char c Hc).
    destruct (Ascii.eqb_spec (Js.lower_char x) c) as [E|]; [|reflexivity].
    assert (L : Js.is_space (Js.lower_char x) = false).
    { clear -Hx. destruct x as [[] [] [] [] [] [] [] []];
        vm_compute in Hx |- *; first [reflexivity | discriminate Hx]. }
    congruence. }
  unfold strip_article, strip_word, Js.starts_with_ci.
  cbn [Js.starts_with_by]. now rewrite !N by reflexivity.
Qed.

Lemma neutral_default x :
  Forall (fun k => Js.includes (Js.toLowerCase x) k = false) all_keywords ->
  Js.trim (Js.collapse_spaces (strip_article x)) = EmptyString ->
  parseUserRequest x = default_for "neutral".
Proof.
  intros N C. unfold parseUserRequest, parse_cleaned.
  apply detect_keyword_none in N. rewrite N, C. reflexivity.
Qed.

Lemma first_keyword_first lowered before k after :
  Js.includes lowered k = true ->
  Forall (fun k' => Js.includes lowered k' = false) before ->
  first_keyword lowered (before ++ k :: after) = Some k.
Proof.
  intros K. induction 1 as [|b before Hb _ IH]; simpl; [now rewrite K|].
  now rewrite Hb.
Qed.

Lemma detect_keyword_first lowered earlier : forall em before k after later,
  Js.includes lowered k = true ->
  Forall (fun k' => Js.includes lowered k' = false)
    (concat (map snd earlier) ++ before) ->
  detect_keyword lowered (earlier ++ (em, (before ++ k :: after)%list) :: later)
  = Some (em, k).
Proof.
  induction earlier as [|[em0 kws0] earlier IH]; intros em before k after later K F.
  - cbn [app detect_keyword]. simpl in F.
    now rewrite (first_keyword_first lowered before k after K F).
  - cbn [map snd concat] in F. rewrite <- app_assoc in F.
    apply Forall_app in F as [F0 F].
    cbn [app detect_keyword].
    apply first_keyword_none in F0. rewrite F0. now apply IH.
Qed.

Lemma lower_char_letter c x :
  In x ["a"; "n"; "t"; "h"; "e"]%char ->
  Js.lower_char c = x ->
  Js.is_space c = false /\
  Ascii.eqb (Js.lower_char x) (Js.lower_char c) = true /\
  forall y, In y ["a"; "n"; "t"; "h"; "e"]%char -> y <> x ->
            Ascii.eqb (Js.lower_char y) (Js.lower_char c) = false.
Proof.
  intros Hx E. subst x. simpl in Hx. split; [|split].
  - destruct c as [[] [] [] [] [] [] [] []]; try reflexivity;
      vm_compute in Hx; intuition discriminate.
  - destruct Hx as [H|[H|[H|[H|[H|[]]]]]]; rewrite <- H; reflexivity.
  - intros y Hy N. simpl in Hy.
    destruct Hx as [H|[H|[H|[H|[H|[]]]]]]; rewrite <- H in *;
      destruct Hy as [<-|[<-|[<-|[<-|[<-|[]]]]]];
      first [reflexivity | congruence].
Qed.

Lemma article_alone article spaces :
  In (Js.toLowerCase article) articles ->
  blank spaces = true ->
  spaces <> EmptyString ->
  strip_article (article +:+ spaces) = Js.trimStart spaces.
Proof.
  intros A B N. destruct spaces as [|sp rest]; [congruence|].
  assert (Hsp : Js.is_space sp = true).
  { unfold blank in B. cbn [all_chars] in B.
    now apply andb_true_iff in B as [B _]. }
  cbn [Js.trimStart]. rewrite Hsp.
  unfold articles in A. simpl in A.
  destruct A as [A|[A|[A|[]]]]; symmetry in A.
  - destruct article as [|c1 [|? ?]]; try discriminate A.
    injection A as A1.
    destruct (lower_char_letter c1 "a" ltac:(simpl; tauto) A1) as (_ & E1 & _).
    change (String c1 EmptyString +:+ String sp rest)
      with (String c1 (String sp rest)).
    unfold strip_article, strip_word, Js.starts_with_ci.
    cbn [Js.starts_with_by String.length Js.drop].
    now rewrite E1, Hsp.
  - destruct article as [|c1 [|c2 [|? ?]]]; try discriminate A.
    injection A as A1 A2.
    destruct (lower_char_letter c1 "a" ltac:(simpl; tauto) A1) as (_ & E1 & _).
    destruct (lower_char_letter c2 "n" ltac:(simpl; tauto) A2) as (S2 & E2 & _).
    change (String c1 (String c2 EmptyString) +:+ String sp rest)
      with (String c1 (String c2 (String sp rest))).
    unfold strip_article, strip_word, Js.starts_with_ci.
    cbn [Js.starts_with_by String.length Js.drop].
    now rewrite E1, E2, S2, Hsp.
  - destruct article as [|c1 [|c2 [|c3 [|? ?]]]]; try discriminate A.
    injection A as A1 A2 A3.
    destruct (lower_char_letter c1 "t" ltac:(simpl; tauto) A1) as (_ & E1 & D1).
    destruct (lower_char_letter c2 "h" ltac:(simpl; tauto) A2) as (_ & E2 & _).
    destruct (lower_char_letter c3 "e" ltac:(simpl; tauto) A3) as (_ & E3 & _).
    change (String c1 (String c2 (String c3 EmptyString)) +:+ String sp rest)
      with (String c1 (String c2 (String c3 (String sp rest)))).
    unfold strip_article, strip_word, Js.starts_with_ci.
    cbn [Js.starts_with_by String.length Js.drop].
    rewrite (D1 "a"%char) by (simpl; intuition discriminate).
    now rewrite E1, E2, E3, Hsp.
Qed.

Lemma article_kept article :
  In (Js.toLowerCase article) articles ->
  Js.trim (Js.collapse_spaces (strip_article article)) = article /\
  article <> EmptyString.
Proof.
  intros A. unfold articles in A. simpl in A.
  destruct A as [A|[A|[A|[]]]]; symmetry in A.
  - destruct article as [|c1 [|? ?]]; try discriminate A.
    injection A as A1.
    destruct (lower_char_letter c1 "a" ltac:(simpl; tauto) A1) as (S1 & E1 & D1).
    split; [|discriminate].
    unfold strip_article, strip_word, Js.starts_with_ci.
    cbn [Js.starts_with_by String.length Js.drop].
    rewrite E1, (D1 "t"%char) by (simpl; intuition discriminate).
    unfold Js.trim, Js.collapse_spaces.
    cbn [Js.collapse_spaces_from]. rewrite S1.
    cbn [Js.collapse_spaces_from Js.trimStart]. rewrite S1.
    cbn [Js.trimEnd]. now rewrite S1.
  - destruct article as [|c1 [|c2 [|? ?]]]; try discriminate A.
    injection A as A1 A2.
    destruct (lower_char_letter c1 "a" ltac:(simpl; tauto) A1) as (S1 & E1 & D1).
    destruct (lower_char_letter c2 "n" ltac:(simpl; tauto) A2) as (S2 & E2 & _).
    split; [|discriminate].
    unfold strip_article, strip_word, Js.starts_with_ci.
    cbn [Js.starts_with_by String.length Js.drop].
    rewrite E1, E2, S2, (D1 "t"%char) by (simpl; intuition discriminate).
    unfold Js.trim, Js.collapse_spaces.
    cbn [Js.collapse_spaces_from]. rewrite S1, S2.
    cbn [Js.collapse_spaces_from Js.trimStart]. rewrite S1.
    cbn [Js.trimEnd]. now rewrite S2.
  - destruct article as [|c1 [|c2 [|c3 [|? ?]]]]; try discriminate A.
    injection A as A1 A2 A3.
    destruct (lower_char_letter c1 "t" ltac:(simpl; tauto) A1) as (S1 & E1 & D1).
    destruct (lower_char_letter c2 "h" ltac:(simpl; tauto) A2) as (S2 & E2 & _).
    destruct (lower_char_letter c3 "e" ltac:(simpl; tauto) A3) as (S3 & E3 & _).
    split; [|discriminate].
    unfold strip_article, strip_word, Js.starts_with_ci.
    cbn [Js.starts_with_by String.length Js.drop].
    rewrite (D1 "a"%char) by (simpl; intuition discriminate).
    rewrite E1, E2, E3.
    unfold Js.trim, Js.collapse_spaces.
    cbn [Js.collapse_spaces_from]. rewrite S1, S2, S3.
    cbn [Js.collapse_spaces_from Js.trimStart]. rewrite S1.
    cbn [Js.trimEnd]. now rewrite S3.
Qed.

Lemma no_keyword_in_article article :
  In (Js.toLowerCase article) articles ->
  Forall (fun k => Js.includes (Js.toLowerCase article) k = false) all_keywords.
Proof.
  unfold articles. simpl.
  intros [<-|[<-|[<-|[]]]]; repeat constructor.
Qed.

(** C10, as it holds.  For every prompt, [parseUserRequest] returns one of
    the eight emotions joy, anger, fear, disgust, anxiety, sadness, calm,
    neutral, and a description that is not empty.  The description is
    ["character"] when the prompt is blank; when the prompt is an article
    ([a], [an], [the], in any case of the letters) followed by whitespace
    only; and when the prompt without the occurrences of the first keyword
    that occurs in it is blank.  An article is removed only where
    whitespace follows it: when the prompt without the occurrences of that
    keyword, trimmed, is an article, this article is the description. *)
Theorem parseUserRequest_total userPrompt :
  In (request_emotion (parseUserRequest userPrompt)) parsed_emotions /\
  request_customDescription (parseUserRequest userPrompt) <> EmptyString /\
  (blank userPrompt = true ->
   parseUserRequest userPrompt = default_for "neutral") /\
  (forall article spaces,
     In (Js.toLowerCase article) articles ->
     blank spaces = true -> spaces <> EmptyString ->
     userPrompt = article +:+ spaces ->
     parseUserRequest userPrompt = default_for "neutral") /\
  (forall emotion keyword,
     first_occurring userPrompt emotion keyword ->
     blank (Js.remove_all_ci userPrompt keyword) = true ->
     parseUserRequest userPrompt = default_for emotion) /\
  (forall emotion keyword article,
     first_occurring userPrompt emotion keyword ->
     Js.trim (Js.remove_all_ci userPrompt keyword) = article ->
     In (Js.toLowerCase article) articles ->
     parseUserRequest userPrompt
     = {| request_emotion := emotion; request_customDescription := article |}).
Proof.
  split; [|split; [|split; [|split; [|split]]]].
  - unfold parseUserRequest, parse_cleaned.
    destruct (detect_keyword _ _) as [[em kw]|] eqn:D; simpl.
    + apply detect_keyword_emotion in D. simpl in D. intuition.
    + intuition.
  - unfold parseUserRequest. destruct (parse_cleaned userPrompt) as [em descr].
    simpl. now destruct descr.
  - intros B. apply neutral_default.
    + rewrite (blank_toLowerCase _ B).
      pose proof (no_keyword_before_spaces EmptyString userPrompt B) as H.
      apply H. repeat constructor.
    + rewrite (strip_article_blank _ B). now apply cleaned_blank.
  - intros article spaces A B N ->. apply neutral_default.
    + unfold Js.toLowerCase. rewrite map_chars_app.
      fold (Js.toLowerCase article). fold (Js.toLowerCase spaces).
      rewrite (blank_toLowerCase _ B).
      apply no_keyword_before_spaces; [exact B|].
      now apply no_keyword_in_article.
    + rewrite (article_alone article spaces A B N).
      apply cleaned_blank. unfold blank.
      now rewrite (trimStart_blank _ B).
  - intros emotion keyword (earlier & kws & later & before & after & T & K & O & F) B.
    unfold parseUserRequest, parse_cleaned. rewrite T, K.
    unfold occurs in O, F.
    rewrite (detect_keyword_first _ earlier emotion before keyword after later O F).
    unfold Js.trim at 2. rewrite (trimStart_blank _ B). reflexivity.
  - intros emotion keyword article
      (earlier & kws & later & before & after & T & K & O & F) E A.
    unfold parseUserRequest, parse_cleaned. rewrite T, K.
    unfold occurs in O, F.
    rewrite (detect_keyword_first _ earlier emotion before keyword after later O F).
    rewrite E. destruct (article_kept article A) as [-> N].
    destruct article; [congruence | reflexivity].
Qed.

End Default.

(** C10, as stated, fails.  The keyword is removed and what is left is
    trimmed before the article is looked for, and an article is removed
    only when whitespace follows it: an article that the removal of the
    keyword leaves alone stays, and is the description, whereas the same
    article followed by a space and nothing else gives the default. *)
Lemma parseUserRequest_keeps_lone_article :
  CustomCharacterGenerator.parseUserRequest "a happy"
  = {| CustomCharacterGenerator.request_emotion := "joy";
       CustomCharacterGenerator.request_customDescription := "a" |} /\
  CustomCharacterGenerator.parseUserRequest "The sad"
  = {| CustomCharacterGenerator.request_emotion := "sadness";
       CustomCharacterGenerator.request_customDescription := "The" |} /\
  CustomCharacterGenerator.parseUserRequest "a "
  = {| CustomCharacterGenerator.request_emotion := "neutral";
       CustomCharacterGenerator.request_customDescription := "character" |}.
Proof. repeat split; vm_compute; reflexivity. Qed.

Lemma parseUserRequest_total_witness :
  CustomCharacterGenerator.parseUserRequest "Happy" = Leftover.default_for "joy" /\
  CustomCharacterGenerator.parseUserRequest "An  "
  = Leftover.default_for "neutral" /\
  CustomCharacterGenerator.parseUserRequest "   "
  = Leftover.default_for "neutral" /\
  CustomCharacterGenerator.parseUserRequest "An angry"
  = {| CustomCharacterGenerator.request_emotion := "anger";
       CustomCharacterGenerator.request_customDescription := "An" |}.
Proof.
  split; [|split; [|split]]; cycle 3.
  - apply (proj2 (proj2 (proj2 (proj2 (proj2 (parseUserRequest_total "An angry")))))
             "anger" "angry" "An").
    + exists [("joy", ["happy"; "joyful"; "cheerful"; "excited"; "elated"])],
        ["angry"; "mad"; "furious"; "rage"; "upset"],
        (tl (tl CustomCharacterGenerator.emotionKeywords)), [],
        ["mad"; "furious"; "rage"; "upset"].
      split; [reflexivity|]. split; [reflexivity|].
      split; [reflexivity | repeat constructor].
    + reflexivity.
    + simpl. tauto.
  - apply (proj1 (proj2 (proj2 (proj2 (proj2 (parseUserRequest_total "Happy")))))
             "joy" "happy").
    + exists [], ["happy"; "joyful"; "cheerful"; "excited"; "elated"],
        (tl CustomCharacterGenerator.emotionKeywords), [],
        ["joyful"; "cheerful"; "excited"; "elated"].
      split; [reflexivity|]. split; [reflexivity|].
      split; [reflexivity | constructor].
    + reflexivity.
  - apply (proj1 (proj2 (proj2 (proj2 (parseUserRequest_total "An  "))))
             "An" "  ").
    + simpl. tauto.
    + reflexivity.
    + discriminate.
    + reflexivity.
  - apply (proj1 (proj2 (proj2 (parseUserRequest_total "   ")))).
    reflexivity.
Defined.

(** ** Clearing the cache, and the route that generates *)

Section Admin.

Import CustomCharacterGenerator CacheAdmin.

Lemma unlink_each_frame message listing : forall st st' o,
  unlink_each message listing st = (st', o) ->
  manifest st' = manifest st /\ manifest_json st' = manifest_json st /\
  images st' = images st /\ files st' ⊆ files st.
Proof.
  induction listing as [|f listing IH]; intros st st' o; simpl.
  - intros [= <- <-]. auto.
  - destruct (String.eqb f "manifest.json"); [apply IH|].
    destruct (String.eqb f images_directory); [intros [= <- <-]; auto|].
    destruct (decide (f ∈ files st)); [|intros [= <- <-]; auto].
    intros H. destruct (IH _ _ _ H) as (M & J & I & F). simpl in *.
    repeat split; auto. etrans; [exact F|]. apply subseteq_difference_l.
    reflexivity.
Qed.

Lemma unlink_each_directory message listing : forall st,
  In images_directory listing ->
  exists st', unlink_each message listing st = (st', Throws message).
Proof.
  induction listing as [|f listing IH]; intros st; simpl; [intros []|].
  intros [->|H].
  - simpl. eauto.
  - destruct (String.eqb f "manifest.json"); [now apply IH|].
    destruct (String.eqb f images_directory); [eauto|].
    destruct (decide (f ∈ files st)); [now apply IH | eauto].
Qed.

Lemma first_images_directory listing :
  In images_directory listing ->
  exists before after,
    listing = (before ++ images_directory :: after)%list /\
    ~ In images_directory before.
Proof.
  induction listing as [|f listing IH]; [intros []|].
  destruct (String.eq_dec f images_directory) as [->|N].
  - intros _. exists [], listing. split; [reflexivity | intros []].
  - intros [E|H]; [congruence|].
    destruct (IH H) as (before & after & -> & B).
    exists (f :: before), after. split; [reflexivity|].
    intros [E|H']; [congruence | contradiction].
Qed.

Lemma unlink_each_stops message after before : forall st,
  ~ In images_directory before ->
  exists st',
    unlink_each message (before ++ images_directory :: after) st
    = (st', Throws message) /\
    manifest st' = manifest st /\
    manifest_json st' = manifest_json st /\
    images st' = images st /\
    files st' ⊆ files st /\
    (forall f, f ∈ files st -> f ∉ files st' ->
               In f before /\ f <> "manifest.json") /\
    (NoDup before ->
     (forall f, In f before -> f <> "manifest.json" -> f ∈ files st) ->
     forall f, In f before -> f <> "manifest.json" -> f ∉ files st').
Proof.
  induction before as [|f before IH]; intros st NI.
  - exists st. cbn [app unlink_each].
    change (String.eqb images_directory "manifest.json") with false.
    rewrite String.eqb_refl. cbv iota.
    repeat split; auto; try contradiction.
  - assert (NI' : ~ In images_directory before) by (intros H; apply NI; now right).
    assert (Nf : f <> images_directory) by (intros ->; apply NI; now left).
    cbn [app unlink_each].
    destruct (String.eqb_spec f "manifest.json") as [->|Hm].
    + destruct (IH st NI') as (st' & E & M & J & I & F & R & A).
      exists st'. split; [exact E|]. repeat split; auto.
      * destruct (R f H H0) as [? _]. now right.
      * now apply (R f).
      * intros ND All g [<-|Hg] Hgm; [congruence|].
        inversion ND as [|? ? _ ND']; subst.
        apply A; auto. intros h Hh. apply All. now right.
    + apply String.eqb_neq in Nf. rewrite Nf.
      destruct (decide (f ∈ files st)) as [Hin|Hout].
      * destruct (IH (remove_file f st) NI') as (st' & E & M & J & I & F & R & A).
        simpl in M, J, I, F, R, A.
        exists st'. split; [exact E|]. split; [exact M|]. split; [exact J|].
        split; [exact I|]. split; [|split].
        -- etrans; [exact F|]. apply subseteq_difference_l. reflexivity.
        -- intros g Hg Hg'. destruct (String.eq_dec g f) as [->|Ngf].
           ++ split; [now left | exact Hm].
           ++ destruct (R g) as [H1 H2]; [|exact Hg'|split; [now right | exact H2]].
              apply elem_of_difference. split; [exact Hg|].
              rewrite elem_of_singleton. exact Ngf.
        -- intros ND All g Hg Hgm. inversion ND as [|? ? Hf ND']; subst.
           destruct Hg as [<-|Hg].
           ++ intros H. apply F in H. apply elem_of_difference in H as [_ H].
              apply H. now apply elem_of_singleton.
           ++ apply A; auto. intros h Hh Hhm.
              apply elem_of_difference. split; [apply All; [now right | exact Hhm]|].
              rewrite elem_of_singleton. intros ->.
              apply Hf, list_elem_of_In, Hh.
      * exists st. split; [reflexivity|].
        split; [reflexivity|]. split; [reflexivity|]. split; [reflexivity|].
        split; [reflexivity|]. split.
        -- intros g Hg Hg'. contradiction.
        -- intros ND All g Hg Hgm. exfalso. apply Hout, All; [now left | exact Hm].
Qed.

(** X10. In a cache directory that holds the directory of the generated
    images, which [initializeCache] creates, [clearCache] never gets to the
    end: it throws when it unlinks the directory.  The manifest in memory,
    [manifest.json] and the images are left as they were, and the only
    files that are gone are files listed before the directory; when the
    names listed before it are distinct and all there, as in a listing
    that [readdir] has just made, each of them but [manifest.json] is
    gone. *)
Theorem clearCache_stops_at_images_directory listing saved message st :
  In images_directory listing ->
  exists st' before after,
    listing = (before ++ images_directory :: after)%list /\
    ~ In images_directory before /\
    clearCache listing saved message st = (st', Throws message) /\
    manifest st' = manifest st /\
    manifest_json st' = manifest_json st /\
    images st' = images st /\
    files st' ⊆ files st /\
    (forall f, f ∈ files st -> f ∉ files st' ->
               In f before /\ f <> "manifest.json") /\
    (NoDup before ->
     (forall f, In f before -> f <> "manifest.json" -> f ∈ files st) ->
     forall f, In f before -> f <> "manifest.json" -> f ∉ files st').
Proof.
  intros H. unfold clearCache.
  destruct (first_images_directory listing H) as (before & after & -> & NI).
  destruct (unlink_each_stops message after before st NI) as (st' & E & R).
  rewrite E. exists st', before, after. auto.
Qed.

Lemma unlink_each_all message listing : forall st,
  NoDup listing ->
  ~ In images_directory listing ->
  (forall f, In f listing -> f <> "manifest.json" -> f ∈ files st) ->
  exists st',
    unlink_each message listing st = (st', Returns tt) /\
    forall f, f ∈ files st' <->
              f ∈ files st /\ (~ In f listing \/ f = "manifest.json").
Proof.
  induction listing as [|f listing IH]; intros st ND NI All; simpl.
  - eexists. split; [reflexivity|]. intros f. tauto.
  - inversion ND as [|? ? Hf ND']; subst.
    destruct (String.eqb_spec f "manifest.json") as [->|Hm].
    + destruct (IH st ND') as (st' & E & F).
      * intros H. apply NI. now right.
      * intros g Hg. apply All. now right.
      * exists st'. split; [exact E|]. intros g. rewrite F.
        split; intros [H1 H2]; (split; [exact H1|]).
        -- destruct H2 as [H2|H2]; [|now right].
           destruct (String.eq_dec g "manifest.json") as [->|]; [now right|].
           left. intros [<-|?]; [congruence | contradiction].
        -- destruct H2 as [H2|H2]; [|now right]. left. intros ?. apply H2.
           now right.
    + destruct (String.eqb_spec f images_directory) as [->|Hd];
        [exfalso; apply NI; now left|].
      rewrite decide_True by (apply All; [now left | exact Hm]).
      destruct (IH (remove_file f st) ND') as (st' & E & F).
      * intros H. apply NI. now right.
      * intros g Hg Hgm. simpl. apply elem_of_difference. split.
        -- apply All; [now right | exact Hgm].
        -- rewrite elem_of_singleton. intros ->.
           apply Hf, list_elem_of_In, Hg.
      * exists st'. split; [exact E|]. intros g. rewrite F. simpl.
        rewrite elem_of_difference, elem_of_singleton.
        split.
        -- intros [[H1 H2] H3]. split; [exact H1|].
           destruct H3 as [H3|H3]; [|now right]. left.
           intros [<-|?]; [congruence | contradiction].
        -- intros [H1 H2]. destruct H2 as [H2 | ->].
           ++ split; [split; [exact H1|]|].
              ** intros ->. apply H2. now left.
              ** left. intros ?. apply H2. now right.
           ++ split; [split; [exact H1 | congruence]|]. now right.
Qed.

(** X11. In a cache directory without subdirectory, the one of the
    generator that keeps no images, [clearCache] does clear: when the
    listing has each file once and the manifest can be written, every
    listed file is gone, and the manifest is empty in memory and in
    [manifest.json], so that every pair is a miss afterwards. *)
Theorem clearCache_clears listing message st :
  NoDup listing ->
  ~ In images_directory listing ->
  (forall f, In f listing -> f <> "manifest.json" -> f ∈ files st) ->
  exists st',
    clearCache listing true message st = (st', Returns tt) /\
    manifest st' = Some ∅ /\ manifest_json st' = ∅ /\
    (forall f, In f listing -> f <> "manifest.json" -> f ∉ files st') /\
    forall e d, recorded st' e d = None.
Proof.
  intros ND NI All. unfold clearCache.
  destruct (unlink_each_all message listing st ND NI All) as (st1 & E & F).
  rewrite E. simpl. eexists. split; [reflexivity|]. simpl.
  split; [reflexivity|]. split; [reflexivity|]. split.
  - intros f Hf Hm Hin. apply F in Hin as [_ [H|H]]; contradiction.
  - intros e d. unfold recorded. simpl. apply lookup_empty.
Qed.

(** X12. Asking [POST /generate] twice for the same prompt: when the first
    answer is 200, the second answer is 200 as well, with [cached] true and
    the same emotion, description and video path, whatever the outside
    answers the second time, and the second request changes nothing in the
    cache. *)
Theorem post_generate_twice a1 a2 io1 io2 prompt st st1 r1 e1 :
  post_generate a1 io1 prompt st = (st1, r1, e1) ->
  status r1 = 200 ->
  exists r2 e2,
    post_generate a2 io2 prompt st1 = (st1, r2, e2) /\
    status r2 = 200 /\ json_cached r2 = Some true /\
    json_videoPath r2 = json_videoPath r1 /\
    json_emotion r2 = json_emotion r1 /\
    json_description r2 = json_description r1.
Proof.
  unfold post_generate.
  destruct (negb (Js.truthy prompt)); [intros [= <- <- <-]; discriminate|].
  destruct (getOrCreateVariant a1 st _ _) as [st' [res|msg]] eqn:G;
    [|intros [= <- <- <-]; discriminate].
  destruct (success res) eqn:S; intros [= <- <- <-]; [|discriminate].
  intros _.
  destruct (getOrCreateVariant_success _ _ _ _ _ _ G S)
    as (ent & Rec & File & Path & Meta).
  unfold getOrCreateVariant. rewrite (checkCache_hit a2 _ _ _ _ Rec File).
  simpl. eexists. eexists. split; [reflexivity|]. simpl.
  rewrite Path. auto.
Qed.

End Admin.

Lemma clearCache_stops_at_images_directory_witness :
  exists st' before after,
    CacheListing.file_first
    = (before ++ CacheAdmin.images_directory :: after)%list /\
    ~ In CacheAdmin.images_directory before /\
    CacheAdmin.clearCache CacheListing.file_first true
      "EISDIR: illegal operation on a directory, unlink"
      (fst Sample.after_first_call)
    = (st', Throws "EISDIR: illegal operation on a directory, unlink") /\
    CustomCharacterGenerator.manifest st'
    = CustomCharacterGenerator.manifest (fst Sample.after_first_call) /\
    CustomCharacterGenerator.manifest_json st'
    = CustomCharacterGenerator.manifest_json (fst Sample.after_first_call) /\
    CustomCharacterGenerator.images st'
    = CustomCharacterGenerator.images (fst Sample.after_first_call) /\
    CustomCharacterGenerator.files st'
    ⊆ CustomCharacterGenerator.files (fst Sample.after_first_call) /\
    (forall f,
       f ∈ CustomCharacterGenerator.files (fst Sample.after_first_call) ->
       f ∉ CustomCharacterGenerator.files st' ->
       In f before /\ f <> "manifest.json") /\
    (NoDup before ->
     (forall f, In f before -> f <> "manifest.json" ->
                f ∈ CustomCharacterGenerator.files (fst Sample.after_first_call)) ->
     forall f, In f before -> f <> "manifest.json" ->
               f ∉ CustomCharacterGenerator.files st').
Proof.
  apply (clearCache_stops_at_images_directory CacheListing.file_first true
           "EISDIR: illegal operation on a directory, unlink"
           (fst Sample.after_first_call)).
  simpl. auto.
Defined.

Lemma clearCache_clears_witness :
  exists st',
    CacheAdmin.clearCache Cases.listing_without_images true "" 
      (fst Sample.after_first_call) = (st', Returns tt) /\
    CustomCharacterGenerator.manifest st' = Some ∅ /\
    CustomCharacterGenerator.manifest_json st' = ∅ /\
    (forall f, In f Cases.listing_without_images -> f <> "manifest.json" ->
               f ∉ CustomCharacterGenerator.files st') /\
    forall e d, CustomCharacterGenerator.recorded st' e d = None.
Proof.
  apply (clearCache_clears Cases.listing_without_images ""
           (fst Sample.after_first_call)).
  - apply NoDup_cons_2;
      [|apply NoDup_cons_2; [apply not_elem_of_nil | apply NoDup_nil_2]].
    intros H. apply list_elem_of_In in H. simpl in H.
    destruct H as [H|[]]. discriminate.
  - simpl. intros [H|[H|[]]]; discriminate.
  - intros f [<-|[<-|[]]] Hm; [congruence|].
    refine (bool_decide_unpack _ _). vm_compute. reflexivity.
Defined.

Lemma post_generate_twice_witness :
  exists r2 e2,
    CacheAdmin.post_generate Sample.noon false "a grumpy pirate"
      (fst (fst Cases.first_request))
    = (fst (fst Cases.first_request), r2, e2) /\
    CacheAdmin.status r2 = 200 /\ CacheAdmin.json_cached r2 = Some true /\
    CacheAdmin.json_videoPath r2
    = CacheAdmin.json_videoPath (snd (fst Cases.first_request)) /\
    CacheAdmin.json_emotion r2
    = CacheAdmin.json_emotion (snd (fst Cases.first_request)) /\
    CacheAdmin.json_description r2
    = CacheAdmin.json_description (snd (fst Cases.first_request)).
Proof.
  apply (post_generate_twice Sample.morning Sample.noon true false
           "a grumpy pirate" Sample.empty_cache
           (fst (fst Cases.first_request)) (snd (fst Cases.first_request))
           (snd Cases.first_request)).
  - vm_compute. reflexivity.
  - reflexivity.
Defined.

(** ** Scanning the videos and choosing the most recent *)

Section Scanning.

Import VideoEmotionMapper Scan ScanFacts.

Lemma insert_by_timestamp_perm v l :
  Permutation (insert_by_timestamp v l) (v :: l).
Proof.
  induction l as [|w l IH]; simpl; [reflexivity|].
  destruct (timestamp w <=? timestamp v)%Z; [reflexivity|].
  rewrite IH. apply perm_swap.
Qed.

Lemma sort_by_timestamp_perm l : Permutation (sort_by_timestamp l) l.
Proof.
  induction l as [|v l IH]; simpl; [reflexivity|].
  rewrite insert_by_timestamp_perm. now constructor.
Qed.

Lemma descending_Forall_le v l :
  descending l ->
  match l with
  | [] => True
  | w :: _ => (timestamp w <= timestamp v)%Z
  end ->
  Forall (fun w => (timestamp w <= timestamp v)%Z) l.
Proof.
  destruct l as [|w l]; [constructor|]. intros [F D] H.
  constructor; [exact H|].
  eapply Forall_impl; [exact F|]. simpl. intros x Hx. lia.
Qed.

Lemma insert_by_timestamp_descending v l :
  descending l -> descending (insert_by_timestamp v l).
Proof.
  induction l as [|w l IH]; intros D; simpl; [split; [constructor | exact I]|].
  destruct (timestamp w <=? timestamp v)%Z eqn:C.
  - apply Z.leb_le in C. split; [|exact D].
    now apply (descending_Forall_le v (w :: l)).
  - apply Z.leb_gt in C. destruct D as [F D]. split; [|now apply IH].
    rewrite insert_by_timestamp_perm. constructor; [lia | exact F].
Qed.

Lemma sort_by_timestamp_descending l : descending (sort_by_timestamp l).
Proof.
  induction l as [|v l IH]; simpl; [exact I|].
  now apply insert_by_timestamp_descending.
Qed.

Lemma extractEmotionFromFilename_known name :
  In (extractEmotionFromFilename name) emotions.
Proof.
  unfold extractEmotionFromFilename.
  destruct (find _ emotions) as [em|] eqn:F.
  - now apply find_some in F as [F _].
  - destruct (find _ emotionAliases) as [[al em]|] eqn:A; [|simpl; tauto].
    apply find_some in A as [A _]. simpl in A.
    repeat (destruct A as [[= <- <-]|A]; [simpl; tauto|]). destruct A.
Qed.

(** X13. What [scanGeneratedVideos] keeps: exactly one video for every
    listed name that ends with [.mp4], the most recent first, each under
    one of the twelve emotions of the mapper; and nothing when the
    directory cannot be read. *)
Theorem scanGeneratedVideos_result date generatedFilesPath readdir :
  match readdir with
  | Returns files =>
      Permutation (scanGeneratedVideos date generatedFilesPath readdir)
        (map (describe_file date generatedFilesPath)
           (List.filter (fun file => endsWith file ".mp4") files)) /\
      descending (scanGeneratedVideos date generatedFilesPath readdir) /\
      Forall (fun v => In (emotion v) emotions /\
                       endsWith (filename v) ".mp4" = true)
        (scanGeneratedVideos date generatedFilesPath readdir)
  | Throws _ => scanGeneratedVideos date generatedFilesPath readdir = []
  end.
Proof.
  destruct readdir as [files|msg]; [|reflexivity]. simpl.
  split; [apply sort_by_timestamp_perm|].
  split; [apply sort_by_timestamp_descending|].
  rewrite sort_by_timestamp_perm. apply List.Forall_forall. intros v Hv.
  apply in_map_iff in Hv as (file & <- & Hf).
  apply filter_In in Hf as [_ Hf]. simpl.
  split; [apply extractEmotionFromFilename_known | exact Hf].
Qed.

Lemma descending_filter p l :
  descending l -> descending (List.filter p l).
Proof.
  induction l as [|v l IH]; [auto|]. intros [F D]. simpl.
  destruct (p v); [|now apply IH]. split; [|now apply IH].
  apply List.Forall_forall. intros w Hw. apply filter_In in Hw as [Hw _].
  rewrite List.Forall_forall in F. now apply F.
Qed.

(** X14. On a mapper initialized from the directory, when there is a video
    of the emotion asked for, [getVideoForEmotion] returns one of that
    emotion, and none of that emotion is more recent. *)
Theorem getVideoForEmotion_most_recent date generatedFilesPath readdir e random v' :
  In v' (availableVideos (initialized_from date generatedFilesPath readdir)) ->
  emotion v' = Js.toLowerCase e ->
  exists v,
    getVideoForEmotion (initialized_from date generatedFilesPath readdir)
      e true random = Returns (Some v) /\
    In v (availableVideos (initialized_from date generatedFilesPath readdir)) /\
    emotion v = Js.toLowerCase e /\
    (timestamp v' <= timestamp v)%Z.
Proof.
  unfold initialized_from, initialize, getVideoForEmotion. simpl.
  set (videos := scanGeneratedVideos date generatedFilesPath readdir).
  intros Hin Hem.
  assert (D : descending videos).
  { destruct readdir; [apply sort_by_timestamp_descending | exact I]. }
  pose proof (buildEmotionMap_indexed videos (Js.toLowerCase e)) as B.
  pose proof (descending_filter
    (fun v => String.eqb (emotion v) (Js.toLowerCase e)) videos D) as DF.
  assert (Hf : In v' (List.filter
    (fun v => String.eqb (emotion v) (Js.toLowerCase e)) videos)).
  { apply filter_In. split; [exact Hin|]. now apply String.eqb_eq. }
  rewrite <- B in DF, Hf.
  destruct (buildEmotionMap videos !! Js.toLowerCase e) as [[|v vs]|];
    simpl in Hf, DF, B; try contradiction.
  simpl. exists v. split; [reflexivity|].
  assert (Hv : In v (List.filter
    (fun v => String.eqb (emotion v) (Js.toLowerCase e)) videos))
    by (rewrite <- B; now left).
  apply filter_In in Hv as [Hv1 Hv2]. apply String.eqb_eq in Hv2.
  split; [exact Hv1|]. split; [exact Hv2|].
  destruct Hf as [->|Hf]; [lia|].
  destruct DF as [F _]. rewrite List.Forall_forall in F. now apply F.
Qed.

Lemma first_fallback_from m l videos :
  first_fallback m l = Some videos ->
  exists f, videos = indexed m f /\ videos <> [].
Proof.
  induction l as [|f l IH]; simpl; [discriminate|].
  rewrite some_videos_indexed.
  destruct (indexed m f) as [|v vs] eqn:E; [exact IH|].
  intros [= <-]. exists f. split; [now rewrite E | discriminate].
Qed.

(** X15. On a mapper initialized from any list of videos, and for an
    emotion that is not the name of an inherited property, a video that
    [getVideoForEmotion] returns is one of the available videos, and null
    is returned only when there is no video at all. *)
Theorem getVideoForEmotion_null_iff_no_video scanned e preferRecent random :
  inherited (Js.toLowerCase e) = false ->
  (forall v,
     getVideoForEmotion (initialize scanned create) e preferRecent random
     = Returns (Some v) -> In v scanned) /\
  (getVideoForEmotion (initialize scanned create) e preferRecent random
   = Returns None <-> scanned = []).
Proof.
  intros NI. unfold getVideoForEmotion. simpl.
  set (m := initialize scanned create).
  change (buildEmotionMap scanned) with (emotionVideoMap m).
  rewrite some_videos_indexed, (getFallbackVideos_not_inherited m _ NI).
  assert (Ix : forall k v, In v (indexed m k) -> In v scanned).
  { intros k v. unfold indexed, m. simpl. rewrite buildEmotionMap_indexed.
    intros H. now apply filter_In in H as [H _]. }
  assert (pick : forall (l : list video),
    l <> [] -> (forall v, In v l -> In v scanned) ->
    (forall v, match l with
               | [] => Returns None
               | v0 :: vs =>
                   if preferRecent then Returns (Some v0)
                   else Returns (nth_error (v0 :: vs)
                                   (random mod length (v0 :: vs)))
               end = Returns (Some v) -> In v scanned) /\
    (match l with
     | [] => Returns None
     | v0 :: vs =>
         if preferRecent then Returns (Some v0)
         else Returns (nth_error (v0 :: vs) (random mod length (v0 :: vs)))
     end = Returns None <-> scanned = [])).
  { intros [|v0 vs] Hne Hl; [congruence|].
    assert (Hs : scanned <> []).
    { intros E. specialize (Hl v0 (or_introl eq_refl)). now rewrite E in Hl. }
    destruct preferRecent.
    - split; [intros v [= <-]; apply Hl; now left|].
      split; [discriminate | contradiction].
    - pose proof (Nat.mod_upper_bound random (length (v0 :: vs))) as Bd.
      destruct (nth_error (v0 :: vs) (random mod length (v0 :: vs)))
        as [w|] eqn:N.
      + split; [intros v [= <-]; apply Hl; eapply nth_error_In; eauto|].
        split; [discriminate | contradiction].
      + apply nth_error_None in N. simpl in *. lia. }
  destruct (indexed m (Js.toLowerCase e)) as [|v0 vs] eqn:E.
  - destruct (first_fallback m (fallbacks_of (Js.toLowerCase e)))
      as [videos|] eqn:F.
    + destruct (first_fallback_from _ _ _ F) as (f & -> & Hne).
      apply pick; [exact Hne | apply Ix].
    + change (availableVideos m) with scanned.
      destruct scanned as [|w ws]; simpl.
      * split; [discriminate | tauto].
      * destruct preferRecent;
          (split; [intros v [= <-]; now left | split; discriminate]).
  - apply (pick (v0 :: vs)); [discriminate|].
    intros v H. apply (Ix (Js.toLowerCase e)). now rewrite E.
Qed.

End Scanning.

Lemma getVideoForEmotion_most_recent_witness :
  exists v,
    VideoEmotionMapper.getVideoForEmotion
      (Scan.initialized_from Scan.utc "generated_files" Listings.directory)
      "JOY" true 0 = Returns (Some v) /\
    In v (VideoEmotionMapper.availableVideos
            (Scan.initialized_from Scan.utc "generated_files" Listings.directory)) /\
    VideoEmotionMapper.emotion v = Js.toLowerCase "JOY" /\
    (VideoEmotionMapper.timestamp Listings.older
     <= VideoEmotionMapper.timestamp v)%Z.
Proof.
  apply (getVideoForEmotion_most_recent Scan.utc "generated_files"
           Listings.directory "JOY" 0 Listings.older).
  - vm_compute. right. right. left. reflexivity.
  - reflexivity.
Defined.

Lemma getVideoForEmotion_null_iff_no_video_witness :
  (forall v,
     VideoEmotionMapper.getVideoForEmotion
       (VideoEmotionMapper.initialize [Sample.joy_video] VideoEmotionMapper.create)
       "Sadness" false 5 = Returns (Some v) -> In v [Sample.joy_video]) /\
  (VideoEmotionMapper.getVideoForEmotion
     (VideoEmotionMapper.initialize [Sample.joy_video] VideoEmotionMapper.create)
     "Sadness" false 5 = Returns None <-> [Sample.joy_video] = []).
Proof.
  apply (getVideoForEmotion_null_iff_no_video [Sample.joy_video] "Sadness" false 5).
  reflexivity.
Defined.

(** ** The two detectors of the server *)

Section Detectors.

Import Server JsFacts Words.

Lemma all_chars_of_list p l :
  all_chars p (string_of_list_ascii l) = forallb p l.
Proof. induction l as [|c l IH]; simpl; [reflexivity | now rewrite IH]. Qed.

Lemma forallb_rev {A} (p : A -> bool) l : forallb p (rev l) = forallb p l.
Proof.
  induction l as [|x l IH]; simpl; [reflexivity|].
  rewrite forallb_app, IH. simpl. rewrite andb_true_r. apply andb_comm.
Qed.

Lemma starts_with_space_char c r :
  Js.starts_with " " (String c r) = Ascii.eqb " " c.
Proof.
  unfold Js.starts_with. cbn [Js.starts_with_by]. unfold id.
  now destruct (Ascii.eqb " " c).
Qed.

Lemma split_space_words s : forall cur,
  forallb in_word cur = true ->
  all_chars (fun c => negb (is_punctuation c)) s = true ->
  Forall (fun w => all_chars in_word w = true) (Js.split_from " " 0 cur s).
Proof.
  induction s as [|c r IH]; intros cur Hc Hs; cbn [Js.split_from].
  - constructor; [|constructor].
    rewrite all_chars_of_list, forallb_rev. exact Hc.
  - cbn [all_chars] in Hs. apply andb_true_iff in Hs as [Hp Hs].
    rewrite starts_with_space_char.
    change (String.length " " - 1)%nat with 0%nat.
    destruct (Ascii.eqb " " c) eqn:E.
    + constructor; [|now apply IH].
      rewrite all_chars_of_list, forallb_rev. exact Hc.
    + apply IH; [|exact Hs]. cbn [forallb]. rewrite Hc, andb_true_r.
      unfold in_word. rewrite Hp, andb_true_r, Ascii.eqb_sym. now rewrite E.
Qed.

Lemma all_chars_remove_chars p s :
  all_chars (fun c => negb (p c)) (Js.remove_chars p s) = true.
Proof.
  induction s as [|c r IH]; simpl; [reflexivity|].
  destruct (p c) eqn:E; [exact IH|]. simpl. now rewrite E, IH.
Qed.

Lemma all_chars_trimStart p s :
  all_chars p s = true -> all_chars p (Js.trimStart s) = true.
Proof.
  induction s as [|c r IH]; simpl; [auto|]. intros H.
  destruct (Js.is_space c); [|exact H].
  apply andb_true_iff in H as [_ H]. now apply IH.
Qed.

Lemma all_chars_trimEnd p s :
  all_chars p s = true -> all_chars p (Js.trimEnd s) = true.
Proof.
  induction s as [|c r IH]; [auto|]. intros H.
  cbn [all_chars] in H. apply andb_true_iff in H as [Hc H].
  specialize (IH H). cbn [Js.trimEnd].
  destruct (Js.trimEnd r) as [|c' r'].
  - destruct (Js.is_space c); simpl; [reflexivity | now rewrite Hc].
  - cbn [all_chars] in *. now rewrite Hc, IH.
Qed.

Lemma in_word_lower_char c : in_word c = true -> in_word (Js.lower_char c) = true.
Proof.
  destruct c as [[] [] [] [] [] [] [] []]; vm_compute; intros H;
    first [reflexivity | discriminate H].
Qed.

Lemma all_chars_toLowerCase w :
  all_chars in_word w = true -> all_chars in_word (Js.toLowerCase w) = true.
Proof.
  unfold Js.toLowerCase.
  induction w as [|c r IH]; cbn [all_chars Js.map_chars]; [auto|]. intros H.
  apply andb_true_iff in H as [Hc H].
  now rewrite (in_word_lower_char c Hc), IH.
Qed.

Lemma character_words_words rounds : forall words kept,
  Forall (fun w => all_chars in_word w = true) words ->
  Forall (fun w => is_word w = true) kept ->
  (length kept <= 1)%nat ->
  Forall (fun w => is_word w = true) (character_words rounds words kept) /\
  (length (character_words rounds words kept) <= 2)%nat.
Proof.
  induction rounds as [|n IH]; intros words kept Hw Hk Hl;
    cbn [character_words].
  - split; [exact Hk | lia].
  - destruct words as [|w rest]; [split; [exact Hk | lia]|].
    inversion Hw as [|? ? Hw1 Hw2]; subst.
    destruct (negb (is_stop_word (Js.toLowerCase w))
              && (1 <? String.length (Js.toLowerCase w))%nat) eqn:C;
      [|now apply IH].
    apply andb_true_iff in C as [_ C]. apply Nat.ltb_lt in C.
    assert (Hk' : Forall (fun w => is_word w = true)
                    (kept ++ [Js.toLowerCase w])%list).
    { apply Forall_app. split; [exact Hk|]. constructor; [|constructor].
      unfold is_word. rewrite (all_chars_toLowerCase w Hw1), andb_true_r.
      destruct (Js.toLowerCase w); [simpl in C; lia | reflexivity]. }
    assert (Hl' : (length (kept ++ [Js.toLowerCase w])%list <= 2)%nat).
    { rewrite length_app. simpl. lia. }
    destruct (Nat.le_gt_cases 2 (length (kept ++ [Js.toLowerCase w])%list))
      as [D|D].
    + apply Nat.leb_le in D. rewrite D. split; [exact Hk' | exact Hl'].
    + match goal with |- context [if ?c then _ else _] => destruct c end;
        [split; [exact Hk' | exact Hl']|].
      apply IH; [exact Hw2 | exact Hk' | lia].
Qed.

Lemma describe_words part :
  exists words,
    describe part = Js.join " " words /\
    (1 <= length words <= 2)%nat /\
    Forall (fun w => is_word w = true) words.
Proof.
  unfold describe.
  set (description := Js.trim (Js.remove_chars is_punctuation (Js.trim part))).
  assert (Hd : all_chars (fun c => negb (is_punctuation c)) description = true).
  { apply all_chars_trimEnd, all_chars_trimStart, all_chars_remove_chars. }
  pose proof (split_space_words description [] eq_refl Hd) as Hs.
  change (Js.split_from " " 0 [] description)
    with (Js.split description " ") in Hs.
  destruct (character_words_words 4 (Js.split description " ") []
              Hs (List.Forall_nil _) (Nat.le_0_l _)) as [K L].
  destruct (character_words 4 (Js.split description " ") []) as [|k ks] eqn:E.
  - destruct (Js.split description " ") as [|w ws].
    + exists ["character"]. repeat split; simpl; auto.
    + inversion Hs as [|? ? Hw _]; subst.
      destruct (Js.truthy w) eqn:T.
      * exists [w]. repeat split; simpl; auto.
        constructor; [|constructor]. unfold is_word. now rewrite T, Hw.
      * exists ["character"]. repeat split; simpl; auto.
  - exists (k :: ks). repeat split; [simpl; lia | exact L | exact K].
Qed.

Lemma split_from_length sep : forall s skip cur,
  (1 <= length (Js.split_from sep skip cur s))%nat.
Proof.
  induction s as [|c r IH]; intros skip cur; simpl; [lia|].
  destruct skip; [|apply IH].
  destruct (Js.starts_with sep (String c r)); [simpl; lia | apply IH].
Qed.

Lemma split_includes sep s : forall cur,
  Js.truthy sep = true ->
  Js.includes s sep = true ->
  (2 <= length (Js.split_from sep 0 cur s))%nat.
Proof.
  induction s as [|c r IH]; intros cur Hsep H.
  - destruct sep; [discriminate Hsep | discriminate H].
  - cbn [Js.includes] in H. cbn [Js.split_from].
    destruct (Js.starts_with sep (String c r)).
    + simpl. pose proof (split_from_length sep r (String.length sep - 1) []).
      lia.
    + simpl in H. now apply IH.
Qed.

Lemma describe_first_describes text triggers :
  Forall (fun t => Js.truthy t = true) triggers ->
  existsb (Js.includes text) triggers = true ->
  exists part, describe_first text triggers = describe part.
Proof.
  induction triggers as [|t ts IH]; intros Ht H; [discriminate H|].
  inversion Ht as [|? ? Ht1 Ht2]; subst. cbn [describe_first existsb] in *.
  destruct (Js.includes text t) eqn:I.
  - pose proof (split_includes t text [] Ht1 I) as L.
    change (Js.split_from t 0 [] text) with (Js.split text t) in L.
    destruct (Js.split text t) as [|p0 [|part rest]]; simpl in L; try lia.
    now exists part.
  - now apply IH.
Qed.

(** X16. What [detectCustomCharacterRequest] returns, when it is not [null],
    is one or two words joined by a space, each of them not empty and free
    of spaces and of the punctuation marks [?!.,;:]: the description of the
    character is never the empty string. *)
Theorem detectCustomCharacterRequest_words userInput :
  detectCustomCharacterRequest userInput = None \/
  exists words,
    detectCustomCharacterRequest userInput = Some (Js.join " " words) /\
    (1 <= length words <= 2)%nat /\
    Forall (fun w => is_word w = true) words /\
    Js.truthy (Js.join " " words) = true.
Proof.
  unfold detectCustomCharacterRequest.
  destruct (existsb _ customTriggers) eqn:E; [right | now left].
  destruct (describe_first_describes (Js.toLowerCase userInput) customTriggers)
    as [part ->]; [repeat constructor | exact E |].
  destruct (describe_words part) as (words & -> & L & W).
  exists words. repeat split; try tauto.
  destruct words as [|w [|w' ws]]; simpl in L; try lia;
    inversion W as [|? ? W1 _]; subst;
    apply andb_true_iff in W1 as [W1 _]; destruct w; try discriminate W1;
    reflexivity.
Qed.

Lemma highest_spec scores : forall e0 n0,
  (highest scores e0 n0 = (e0, n0) /\
   Forall (fun x => (snd x <= n0)%nat) scores) \/
  (exists before e n after,
     scores = (before ++ (e, n) :: after)%list /\
     highest scores e0 n0 = (e, n) /\
     (n0 < n)%nat /\
     Forall (fun x => (snd x < n)%nat) before /\
     Forall (fun x => (snd x <= n)%nat) after).
Proof.
  induction scores as [|[e n] scores IH]; intros e0 n0; simpl.
  - left. split; [reflexivity | constructor].
  - destruct (n0 <? n)%nat eqn:C.
    + apply Nat.ltb_lt in C. right.
      destruct (IH e n) as [[H F]|(before & e' & n' & after & -> & H & L & B & A)].
      * exists [], e, n, scores. simpl. repeat split; auto.
      * exists ((e, n) :: before), e', n', after. simpl.
        split; [reflexivity|]. split; [exact H|]. split; [lia|].
        split; [|exact A]. constructor; [simpl; lia | exact B].
    + apply Nat.ltb_ge in C.
      destruct (IH e0 n0) as [[H F]|(before & e' & n' & after & -> & H & L & B & A)].
      * left. split; [exact H|]. constructor; [simpl; lia | exact F].
      * right. exists ((e, n) :: before), e', n', after. simpl.
        split; [reflexivity|]. split; [exact H|]. split; [lia|].
        split; [|exact A]. constructor; [simpl; lia | exact B].
Qed.

(** X17. [detectEmotionFromText] returns ['neutral'] when no pattern of any
    emotion occurs in the two texts; otherwise it returns the emotion of
    the highest score, and of the emotions that reach this score the one
    that comes first in the table. *)
Theorem detectEmotionFromText_highest userInput aiResponse :
  let combinedText := Js.toLowerCase (userInput +:+ " " +:+ aiResponse) in
  (detectEmotionFromText userInput aiResponse = "neutral" /\
   Forall (fun x => score combinedText (snd x) = 0%nat) emotionPatterns) \/
  (exists before emotion patterns after,
     emotionPatterns = (before ++ (emotion, patterns) :: after)%list /\
     detectEmotionFromText userInput aiResponse = emotion /\
     (0 < score combinedText patterns)%nat /\
     Forall (fun x => (score combinedText (snd x)
                       < score combinedText patterns)%nat) before /\
     Forall (fun x => (score combinedText (snd x)
                       <= score combinedText patterns)%nat) after).
Proof.
  intros combinedText. unfold detectEmotionFromText. fold combinedText.
  set (scored := fun '(emotion, patterns) =>
                   (emotion : string, score combinedText patterns)).
  destruct (highest_spec (map scored emotionPatterns) "neutral" 0%nat)
    as [[H F]|(before & e & n & after & S & H & L & B & A)].
  - left. rewrite H. split; [reflexivity|].
    rewrite List.Forall_map in F. eapply List.Forall_impl; [|exact F].
    intros [em ps]. simpl. lia.
  - right. rewrite H. apply Nat.ltb_lt in L as L'. rewrite L'.
    apply map_eq_app in S as (l1 & l2 & E & <- & S2).
    destruct l2 as [|[em ps] l2]; [discriminate S2|].
    simpl in S2. injection S2 as <- <- <-.
    exists l1, em, ps, l2. repeat split; auto.
    + rewrite List.Forall_map in B. eapply List.Forall_impl; [|exact B].
      now intros [em' ps'].
    + rewrite List.Forall_map in A. eapply List.Forall_impl; [|exact A].
      now intros [em' ps'].
Qed.

End Detectors.

(** ** What a run touches, and how it ends *)

Section Runs.

Import Server ServerFacts.

Lemma confined_refl id s : confined id s s.
Proof.
  repeat split; auto. exists []. split; [now rewrite app_nil_r | constructor].
Qed.

Lemma confined_trans id s1 s2 s3 :
  confined id s1 s2 -> confined id s2 s3 -> confined id s1 s3.
Proof.
  intros (C1 & M1 & F1 & l1 & E1 & R1) (C2 & M2 & F2 & l2 & E2 & R2).
  split; [congruence|]. split; [congruence|]. split.
  - intros id' N. destruct (F1 id' N) as [A1 B1], (F2 id' N) as [A2 B2].
    split; congruence.
  - exists (l1 ++ l2)%list. split; [rewrite E2, E1; now rewrite app_assoc|].
    apply Forall_app. split; [exact R1|].
    eapply List.Forall_impl; [|exact R2]. unfold routed, hologramConnections.
    rewrite C1. tauto.
Qed.

Lemma confined_on_session id f s : confined id s (on_session id f s).
Proof.
  split; [reflexivity|]. split; [reflexivity|]. split.
  - intros id' N. split; [|reflexivity]. simpl.
    rewrite lookup_alter_at. now rewrite decide_False by congruence.
  - exists []. split; [simpl; now rewrite app_nil_r | constructor].
Qed.

Lemma confined_emit id e s : confined id s (emit id e s).
Proof.
  repeat split; auto. exists [(id, e)]. split; [reflexivity|].
  constructor; [now left | constructor].
Qed.

Lemma confined_broadcast id c s : confined id s (broadcast c s).
Proof.
  repeat split; auto. eexists. split; [reflexivity|].
  apply List.Forall_forall. intros [id' e] H.
  apply in_map_iff in H as (x & [= <- <-] & H). right. split; [reflexivity | exact H].
Qed.

Lemma confined_activeCustomCharacters id f s :
  (forall m id', id' <> id -> f m !! id' = m !! id') ->
  confined id s (with_activeCustomCharacters f s).
Proof.
  intros Hf. split; [reflexivity|]. split; [reflexivity|]. split.
  - intros id' N. split; [reflexivity|]. simpl. now apply Hf.
  - exists []. split; [simpl; now rewrite app_nil_r | constructor].
Qed.

Lemma confined_customCharacterGenerator id g s :
  confined id s (with_customCharacterGenerator g s).
Proof.
  repeat split; auto. exists []. split; [simpl; now rewrite app_nil_r | constructor].
Qed.

Lemma confined_count_conversation id b s :
  confined id s (count_conversation b s).
Proof.
  repeat split; auto. exists []. split; [simpl; now rewrite app_nil_r | constructor].
Qed.

Lemma confined_step id s1 s2 s3 :
  confined id s2 s3 -> confined id s1 s2 -> confined id s1 s3.
Proof. intros H1 H2. exact (confined_trans id s1 s2 s3 H2 H1). Qed.

Ltac confine :=
  repeat first
    [ apply confined_refl
    | eapply confined_step;
      [ first [ apply confined_on_session | apply confined_emit
              | apply confined_broadcast
              | apply confined_customCharacterGenerator
              | apply confined_count_conversation
              | apply confined_activeCustomCharacters; intros m id' N;
                first [ now apply lookup_delete_ne
                      | now apply lookup_insert_ne ] ] | ] ].

Lemma confined_back_to_idle id s : confined id s (back_to_idle id s).
Proof. unfold back_to_idle. confine. Qed.

Lemma confined_outer_catch m id e s : confined id s (outer_catch m id e s).
Proof. unfold outer_catch. confine. Qed.

Lemma confined_with_standard_video now r response rt de s :
  confined (run_socket r) s
    (fst (with_standard_video now r response rt de s)).
Proof.
  unfold with_standard_video, ask_for_audio.
  destruct (VideoEmotionMapper.getVideoForEmotion _ _ _ _); simpl.
  - confine.
  - apply confined_outer_catch.
Qed.

Lemma socket_of_with_standard_video now r response rt de s k :
  snd (with_standard_video now r response rt de s) = Some k ->
  socket_of k = run_socket r.
Proof.
  unfold with_standard_video, ask_for_audio.
  destruct (VideoEmotionMapper.getVideoForEmotion _ _ _ _); simpl;
    [now intros [= <-] | discriminate].
Qed.

Lemma resume_confined now k a s :
  confined (socket_of k) s (fst (resume now k a s)) /\
  forall k', snd (resume now k a s) = Some k' -> socket_of k' = socket_of k.
Proof.
  destruct k as [id|r|r response rt de description
                 |r response rt at' de video custom], a as [t|resp|g|audio];
    cbn [resume socket_of fst snd];
    try (split; [apply confined_refl | now intros k' [= <-]]).
  - unfold resume_transcription. destruct t as [text|error]; cbn [fst snd].
    + destruct (Js.truthy text && Js.truthy (Js.trim text)); cbn [fst snd];
        (split; [confine | intros k'; try discriminate; now intros [= <-]]).
    + split; [apply confined_outer_catch | discriminate].
  - unfold resume_response. cbv zeta.
    match goal with
    | |- context [if ?c then with_activeCustomCharacters ?f ?x else ?y] =>
        set (s2 := if c then with_activeCustomCharacters f x else y)
    end.
    assert (C2 : confined (run_socket r) s s2).
    { unfold s2.
      match goal with |- context [if ?c then _ else _] => destruct c end;
        confine. }
    clearbody s2.
    assert (W : forall de,
      confined (run_socket r) s
        (fst (with_standard_video now r resp (now - run_startTime r) de s2)) /\
      forall k', snd (with_standard_video now r resp (now - run_startTime r) de s2)
                 = Some k' -> socket_of k' = run_socket r).
    { intros de. split; [|apply socket_of_with_standard_video].
      eapply confined_step; [apply confined_with_standard_video | exact C2]. }
    repeat case_match; cbn [fst snd]; try apply W;
      (split; [first [exact C2
                     | eapply confined_step; [apply confined_emit | exact C2]]
              | now intros k' [= <-]]).
  - unfold resume_character.
    destruct (CustomCharacterGenerator.getOrCreateVariant _ _ _ _) as [g' res].
    cbv zeta.
    set (s1 := with_customCharacterGenerator g' s).
    assert (C1 : confined (run_socket r) s s1) by (unfold s1; confine).
    clearbody s1.
    assert (W :
      confined (run_socket r) s
        (fst (with_standard_video now r response rt de s1)) /\
      forall k', snd (with_standard_video now r response rt de s1)
                 = Some k' -> socket_of k' = run_socket r).
    { split; [|apply socket_of_with_standard_video].
      eapply confined_step; [apply confined_with_standard_video | exact C1]. }
    repeat case_match; try apply W.
    all: unfold ask_for_audio; cbn [fst snd].
    all: split; [|now intros k' [= <-]].
    all: eapply confined_step; [apply confined_emit|].
    all: eapply confined_step; [|exact C1].
    all: apply confined_activeCustomCharacters; intros m id' N.
    all: now apply lookup_insert_ne.
  - unfold resume_audio.
    destruct audio as [audio|error]; [|destruct (run_origin r)]; cbn [fst snd];
      (split; [|discriminate]);
      (eapply confined_step; [apply confined_back_to_idle|]); confine.
Qed.

(** X18. A run, from any of its suspension points and whatever its
    collaborators answer, leaves the connections and the mapper as they
    are, touches no session and no custom character but those of its own
    socket, and emits on its own socket only, except for the
    [display-content] events, which go to the connections that have
    identified themselves as displays. *)
Theorem run_is_confined answers : forall k s,
  confined (socket_of k) s (fst (drive answers s (Some k))).
Proof.
  induction answers as [|[now a] rest IH]; intros k s; cbn [drive].
  - apply confined_refl.
  - destruct (resume_confined now k a s) as [C K].
    destruct (resume now k a s) as [s1 [k1|]]; cbn [fst snd] in *.
    + rewrite <- (K k1 eq_refl).
      eapply confined_step; [apply IH|]. now rewrite (K k1 eq_refl).
    + destruct rest as [|[? ?] ?]; exact C.
Qed.

Lemma busy_cleared id s :
  busy (on_session id (set_isProcessing false) s) id = false.
Proof.
  rewrite busy_on_session. destruct (sessions s !! id); [|reflexivity].
  now rewrite decide_True.
Qed.

Lemma last_snoc_event (l : list (string * event)) e : last (l ++ [e])%list = Some e.
Proof. apply last_snoc. Qed.

Lemma back_to_idle_ends id s :
  busy (back_to_idle id s) id = false /\
  last (emitted (back_to_idle id s)) = Some (id, Status "idle").
Proof.
  unfold back_to_idle. split; [apply busy_cleared|]. simpl. apply last_snoc.
Qed.

Lemma outer_catch_ends m id e s :
  busy (outer_catch m id e s) id = false /\
  last (emitted (outer_catch m id e s)) = Some (id, Status "idle").
Proof.
  unfold outer_catch. split.
  - change (busy (on_session id (set_isProcessing false) s) id = false).
    apply busy_cleared.
  - simpl. apply last_snoc.
Qed.

(** X19. When a run ends, the flag of its session is clear and the last
    event emitted is the [idle] status on its socket; the one exception is
    the transcript that is empty or blank, after which the sessions are
    left as they were. *)
Theorem run_ends_idle now k a s s' :
  resume now k a s = (s', None) ->
  (busy s' (socket_of k) = false /\
   last (emitted s') = Some (socket_of k, Status "idle")) \/
  (exists text,
     k = AwaitTranscription (socket_of k) /\
     a = Transcribed (Returns text) /\
     Js.truthy text && Js.truthy (Js.trim text) = false /\
     sessions s' = sessions s).
Proof.
  destruct k as [id|r|r response rt de description
                 |r response rt at' de video custom], a as [t|resp|g|audio];
    cbn [resume socket_of]; try discriminate.
  - unfold resume_transcription. destruct t as [text|error].
    + destruct (Js.truthy text && Js.truthy (Js.trim text)) eqn:B;
        [discriminate|]. intros [= <-]. right. exists text. auto.
    + intros [= <-]. left. apply outer_catch_ends.
  - unfold resume_response, with_standard_video, ask_for_audio.
    intros H. left.
    repeat case_match; simplify_eq; apply outer_catch_ends.
  - unfold resume_character, with_standard_video, ask_for_audio.
    intros H. left.
    repeat case_match; simplify_eq; apply outer_catch_ends.
  - unfold resume_audio. intros H. left.
    repeat case_match; simplify_eq; apply back_to_idle_ends.
Qed.

End Runs.

(** ** A typed turn, from the submission to the end of the run *)

Section TypedTurn.

Import Server ServerFacts.

Lemma completed_after r response s1 s2 s3 :
  suspended r s1 s2 -> completed r response s2 s3 -> completed r response s1 s3.
Proof.
  unfold suspended, completed.
  intros (H1 & l1 & E1 & F1) (H2 & B & l2 & b & E2 & F2 & T).
  split; [congruence|]. split; [exact B|].
  exists (l1 ++ l2)%list, b. split; [rewrite E2, E1; now rewrite app_assoc|].
  split; [|exact T]. now rewrite List.filter_app, F1, F2.
Qed.

Lemma with_standard_video_detected now r response rt text s :
  exists video,
    with_standard_video now r response rt (detectEmotionFromText text response) s
    = ask_for_audio now r response rt (detectEmotionFromText text response)
        video None s.
Proof.
  unfold with_standard_video.
  destruct (detected_emotion_resolves text response (videoEmotionMapper s))
    as [video ->].
  now exists video.
Qed.

Lemma history_same_sessions s s' id :
  sessions s' = sessions s -> history s' id = history s id.
Proof. unfold history. now intros ->. Qed.

Lemma history_back_to_idle id s : history (back_to_idle id s) id = history s id.
Proof.
  unfold back_to_idle, history. simpl. rewrite lookup_alter_at.
  rewrite decide_True by reflexivity. now destruct (sessions s !! id).
Qed.

Lemma filter_display c (l : list string) :
  List.filter is_conversation_complete (map (fun id => (id, DisplayContent c)) l)
  = [].
Proof. induction l as [|x l IH]; [reflexivity | exact IH]. Qed.

Lemma resume_after_reply now k a s r response :
  run_origin r = TextInput ->
  after_reply r response k ->
  match resume now k a s with
  | (s', Some k') => after_reply r response k' /\ suspended r s s'
  | (s', None) => completed r response s s'
  end.
Proof.
  intros O A.
  assert (same : suspended r s s).
  { split; [reflexivity|]. exists []. split; [now rewrite app_nil_r | reflexivity]. }
  destruct k as [id|r0|r0 response0 rt de description
                 |r0 response0 rt at' de video custom]; try contradiction;
    destruct a as [t|resp|g|audio]; cbn [resume]; try (split; [exact A | exact same]).
  - destruct A as (-> & -> & text & ->). unfold resume_character.
    destruct (CustomCharacterGenerator.getOrCreateVariant _ _ _ _) as [g' res].
    cbv zeta.
    destruct (with_standard_video_detected now r response rt text
                (with_customCharacterGenerator g' s)) as [video ->].
    unfold ask_for_audio.
    repeat case_match; simplify_eq;
      (split; [repeat split; eauto|]);
      (split; [reflexivity|]);
      (eexists; split; [reflexivity | reflexivity]).
  - destruct A as (-> & ->). unfold resume_audio. rewrite O.
    destruct audio as [audio|error];
      (split; [rewrite history_back_to_idle; reflexivity|]);
      (split; [apply busy_cleared|]);
      eexists _, _;
      (split; [unfold back_to_idle, broadcast, emit, send; simpl;
               rewrite <- !app_assoc; reflexivity|]);
      cbn [app List.filter is_conversation_complete snd];
      rewrite List.filter_app, filter_display;
      cbn [app List.filter is_conversation_complete snd String.eqb];
      (split; [reflexivity|]); split; reflexivity.
Qed.

Lemma drive_after_reply r response answers : forall k s s',
  run_origin r = TextInput ->
  after_reply r response k ->
  drive answers s (Some k) = (s', None) ->
  completed r response s s'.
Proof.
  induction answers as [|[now a] rest IH]; intros k s s' O A; cbn [drive];
    [discriminate|].
  pose proof (resume_after_reply now k a s r response O A) as R.
  destruct (resume now k a s) as [s1 [k1|]].
  - destruct R as [A1 S1]. intros D.
    eapply completed_after; [exact S1|]. exact (IH k1 s1 s' O A1 D).
  - destruct rest as [|[? ?] ?]; cbn [drive]; now intros [= <-].
Qed.

Lemma history_push_turn s id x t :
  sessions s !! id = Some x ->
  history (on_session id (push_turn t) s) id = (history s id ++ [t])%list.
Proof.
  intros H. unfold history, on_session. simpl.
  rewrite lookup_alter_at, decide_True, H by reflexivity. reflexivity.
Qed.

Lemma drive_reply r answers : forall s s' x,
  run_origin r = TextInput ->
  sessions s !! run_socket r = Some x ->
  drive answers s (Some (AwaitResponse r)) = (s', None) ->
  exists response t,
    completed r response
      (on_session (run_socket r) (push_turn (assistant_turn response t)) s) s'.
Proof.
  induction answers as [|[now a] rest IH]; intros s s' x O X; cbn [drive];
    [discriminate|].
  destruct a as [t|response|g|audio]; cbn [resume]; try (apply (IH s s' x O X)).
  unfold resume_response. cbv zeta. rewrite O.
  set (s1 := on_session _ _ s).
  match goal with
  | |- context [if ?c then with_activeCustomCharacters ?f ?y else ?z] =>
      set (reset := c);
      set (s2 := if reset then with_activeCustomCharacters f y else z)
  end.
  assert (S2 : suspended r s1 s2).
  { unfold s2. destruct reset;
      (split; [reflexivity|]); exists []; simpl; now rewrite app_nil_r. }
  clearbody s2.
  destruct (with_standard_video_detected now r response
              (now - run_startTime r) (run_text r) s2) as [video ->].
  unfold ask_for_audio.
  intros D. exists response, now. fold s1.
  eapply completed_after; [exact S2|].
  assert (G : forall s3 k3,
    suspended r s2 s3 -> after_reply r response k3 ->
    drive rest s3 (Some k3) = (s', None) -> completed r response s2 s').
  { intros s3 k3 S3 A3 D3. eapply completed_after; [exact S3|].
    exact (drive_after_reply r response rest k3 s3 s' O A3 D3). }
  assert (E0 : suspended r s2 s2).
  { split; [reflexivity|]. exists []. split; [now rewrite app_nil_r | reflexivity]. }
  assert (E1 : forall e,
    is_conversation_complete (run_socket r, e) = false ->
    suspended r s2 (emit (run_socket r) e s2)).
  { intros e He. split; [reflexivity|]. exists [(run_socket r, e)].
    split; [reflexivity|]. simpl. now rewrite He. }
  repeat case_match; simplify_eq; cbn iota beta in D;
    (eapply G; [| |exact D]);
    first [exact E0 | apply E1; reflexivity | simpl; eauto].
Qed.

(** X20. A typed turn that is accepted and runs to its end, whatever the
    collaborators answer: the history of the session has gained the turn of
    the user and then the turn of the assistant, the flag of the session is
    clear, and exactly one [conversation-complete] was emitted, on the
    socket of the turn, with the text and the reply of the turn. *)
Theorem typed_turn_completes now id text s s1 k answers s' :
  on_text_input now id text s = (s1, Some k) ->
  drive answers s1 (Some k) = (s', None) ->
  exists response t b,
    history s' id
    = (history s id ++ [user_turn text now; assistant_turn response t])%list /\
    busy s' id = false /\
    List.filter is_conversation_complete (emitted_since s s')
    = [(id, ConversationComplete b)] /\
    bundle_transcription b = text /\
    bundle_response b = response.
Proof.
  unfold on_text_input. destruct (sessions s !! id) as [x|] eqn:X; [|discriminate].
  destruct (_ || _); [discriminate|]. intros [= <- <-] D.
  set (r := {| run_origin := TextInput; run_socket := id; run_text := text;
               run_startTime := now |}) in D.
  set (s1 := on_session id _ _) in D.
  assert (X1 : sessions s1 !! run_socket r
               = Some (push_turn (user_turn text now) (set_isProcessing true x))).
  { unfold s1. simpl. rewrite !lookup_alter_at, !decide_True, X by reflexivity.
    reflexivity. }
  destruct (drive_reply r answers s1 s' _ eq_refl X1 D)
    as (response & t & H & B & l & b & E & F & T1 & T2).
  exists response, t, b. simpl in H, B, T1.
  split; [|split; [exact B|split; [|split; [exact T1 | exact T2]]]].
  - rewrite H. rewrite (history_push_turn s1 id _ _ X1).
    unfold s1, history. simpl.
    rewrite !lookup_alter_at, !decide_True, X by reflexivity. simpl.
    now rewrite <- app_assoc.
  - unfold emitted_since. rewrite E. unfold s1. simpl.
    rewrite <- app_assoc, drop_app_length. simpl. exact F.
Qed.

End TypedTurn.

(** ** Displays, and the phrase that drops a custom character *)

Section Displays.

Import Server ServerFacts.

Lemma set_connection_keys id c l :
  is_Some (assoc id l) -> map fst (set_connection id c l) = map fst l.
Proof.
  induction l as [|[id' c'] l IH]; simpl; [intros [? [=]]|].
  destruct (String.eqb id id') eqn:E; [|intros H; simpl; now rewrite IH].
  apply String.eqb_eq in E as ->. reflexivity.
Qed.

Lemma assoc_keys {A} id (l : list (string * A)) :
  is_Some (assoc id l) -> In id (map fst l).
Proof.
  induction l as [|[id' c'] l IH]; simpl; [intros [? [=]]|].
  destruct (String.eqb id id') eqn:E; [|intros H; right; now apply IH].
  apply String.eqb_eq in E as ->. now left.
Qed.

Lemma set_connection_displays id c l id' :
  is_Some (assoc id l) ->
  List.NoDup (map fst l) ->
  In id' (map fst (List.filter (fun x => isHologram (snd x)) (set_connection id c l)))
  <-> (if String.eqb id' id then isHologram c = true
       else In id' (map fst (List.filter (fun x => isHologram (snd x)) l))).
Proof.
  induction l as [|[id0 c0] l IH]; simpl; [intros [? [=]]|].
  intros H N. inversion N as [|? ? N1 N2]; subst.
  destruct (String.eqb id id0) eqn:E.
  - apply String.eqb_eq in E as ->. simpl.
    assert (Out : ~ In id0
      (map fst (List.filter (fun x => isHologram (snd x)) l))).
    { intros I. apply N1. apply in_map_iff in I as (x & <- & I).
      apply filter_In in I as [I _]. now apply in_map. }
    destruct (String.eqb id' id0) eqn:E'.
    + apply String.eqb_eq in E' as ->.
      destruct (isHologram c); simpl; [intuition|]. split; [tauto | discriminate].
    + apply String.eqb_neq in E'.
      destruct (isHologram c), (isHologram c0); simpl; intuition congruence.
  - specialize (IH H N2). simpl.
    destruct (String.eqb id' id) eqn:E'.
    + apply String.eqb_eq in E' as ->. apply String.eqb_neq in E.
      destruct (isHologram c0); simpl; rewrite IH; intuition congruence.
    + destruct (isHologram c0); simpl; rewrite IH; reflexivity.
Qed.

(** X21. After [identify] on a socket that has a session and a connection,
    the socket is among the connections that [display-content] is sent to
    exactly when the type given is ['hologram'] or ['mobile']; for the
    other sockets nothing changes, and the sockets connected are the
    same. *)
Theorem identify_selects_displays id type s :
  is_Some (sessions s !! id) ->
  is_Some (assoc id (connections s)) ->
  List.NoDup (map fst (connections s)) ->
  (In id (hologramConnections (on_identify id type s))
   <-> type = "hologram" \/ type = "mobile") /\
  (forall id', id' <> id ->
     In id' (hologramConnections (on_identify id type s))
     <-> In id' (hologramConnections s)) /\
  map fst (connections (on_identify id type s)) = map fst (connections s).
Proof.
  intros [x X] [c C] N. unfold on_identify, hologramConnections.
  rewrite X, C. simpl.
  assert (A : is_Some (assoc id (connections s))) by (now exists c).
  split; [|split].
  - rewrite (set_connection_displays id _ _ id A N), String.eqb_refl. simpl.
    rewrite orb_true_iff, !String.eqb_eq. reflexivity.
  - intros id' D. rewrite (set_connection_displays id _ _ id' A N).
    apply String.eqb_neq in D. now rewrite D.
  - now apply set_connection_keys.
Qed.

Lemma ask_for_standard_video now r response rt text s :
  exists video,
    with_standard_video now r response rt (detectEmotionFromText text response) s
    = (emit (run_socket r) (Status "generating-audio") s,
       Some (AwaitAudio r response rt now (detectEmotionFromText text response)
               video None)).
Proof.
  unfold with_standard_video.
  destruct (detected_emotion_resolves text response (videoEmotionMapper s))
    as [video ->].
  now exists video.
Qed.

(** X22. The phrases that drop the custom character are looked for in a
    typed turn only.  With a character active and no new character asked
    for, a typed turn with such a phrase removes the character and goes on
    with a standard video; a spoken turn with the same words keeps the
    character and asks the generator for it again. *)
Theorem reset_phrase_typed_not_spoken now response r s c :
  isResetCommand (run_text r) = true ->
  detectCustomCharacterRequest (run_text r) = None ->
  activeCustomCharacters s !! run_socket r = Some c ->
  Js.truthy (description c) = true ->
  match run_origin r with
  | TextInput =>
      activeCustomCharacters (fst (resume_response now response r s))
        !! run_socket r = None /\
      exists video,
        snd (resume_response now response r s)
        = Some (AwaitAudio r response (now - run_startTime r) now
                  (detectEmotionFromText (run_text r) response) video None)
  | AudioForTranscription =>
      activeCustomCharacters (fst (resume_response now response r s))
        !! run_socket r = Some c /\
      snd (resume_response now response r s)
      = Some (AwaitCharacter r response (now - run_startTime r)
                (detectEmotionFromText (run_text r) response) (description c))
  end.
Proof.
  intros R D A T. unfold resume_response. cbv zeta. rewrite D.
  destruct (run_origin r) eqn:O.
  - rewrite R. cbn [activeCustomCharacters with_activeCustomCharacters].
    rewrite lookup_delete_eq.
    match goal with |- context [with_standard_video ?n ?r ?a ?b ?c ?d] =>
      destruct (ask_for_standard_video n r a b (run_text r) d) as [video ->]
    end.
    split; [apply lookup_delete_eq | now exists video].
  - cbn [activeCustomCharacters on_session with_sessions].
    rewrite A, T. simpl. split; [exact A | reflexivity].
Qed.

End Displays.

Lemma run_ends_idle_witness :
  (Server.busy
     (fst (Server.resume 2000
             (Server.AwaitTranscription Sample.talker)
             (Server.Transcribed (Throws "no audio"))
             (fst Sample.silence_submitted)))
     (Server.socket_of (Server.AwaitTranscription Sample.talker)) = false /\
   last (Server.emitted
           (fst (Server.resume 2000
                   (Server.AwaitTranscription Sample.talker)
                   (Server.Transcribed (Throws "no audio"))
                   (fst Sample.silence_submitted))))
   = Some (Server.socket_of (Server.AwaitTranscription Sample.talker),
           Server.Status "idle")) \/
  (exists text,
     Server.AwaitTranscription Sample.talker
     = Server.AwaitTranscription
         (Server.socket_of (Server.AwaitTranscription Sample.talker)) /\
     Server.Transcribed (Throws "no audio") = Server.Transcribed (Returns text) /\
     Js.truthy text && Js.truthy (Js.trim text) = false /\
     Server.sessions
       (fst (Server.resume 2000
               (Server.AwaitTranscription Sample.talker)
               (Server.Transcribed (Throws "no audio"))
               (fst Sample.silence_submitted)))
     = Server.sessions (fst Sample.silence_submitted)).
Proof.
  apply (run_ends_idle 2000 (Server.AwaitTranscription Sample.talker)
           (Server.Transcribed (Throws "no audio"))
           (fst Sample.silence_submitted)).
  reflexivity.
Defined.

Lemma typed_turn_completes_witness :
  exists response t b,
    Server.history (fst Sample.typed_turn_without_voice) Sample.talker
    = (Server.history Sample.two_clients Sample.talker
       ++ [ServerFacts.user_turn "hello there" 1500;
           ServerFacts.assistant_turn response t])%list /\
    Server.busy (fst Sample.typed_turn_without_voice) Sample.talker = false /\
    List.filter Server.is_conversation_complete
      (Server.emitted_since Sample.two_clients
         (fst Sample.typed_turn_without_voice))
    = [(Sample.talker, Server.ConversationComplete b)] /\
    Server.bundle_transcription b = "hello there" /\
    Server.bundle_response b = response.
Proof.
  apply (typed_turn_completes 1500 Sample.talker "hello there"
           Sample.two_clients (fst Sample.typed)
           (Server.AwaitResponse
              {| Server.run_origin := Server.TextInput;
                 Server.run_socket := Sample.talker;
                 Server.run_text := "hello there";
                 Server.run_startTime := 1500 |})
           [(2000%Z, Server.Responded "Hi! Nice to see you.");
            (2500%Z, Server.Spoken (Throws "quota exceeded"))]).
  - vm_compute. reflexivity.
  - vm_compute. reflexivity.
Defined.

Lemma identify_selects_displays_witness :
  (In Sample.viewer
     (Server.hologramConnections
        (Server.on_identify Sample.viewer "mobile" Sample.two_clients))
   <-> "mobile" = "hologram" \/ "mobile" = "mobile") /\
  (forall id', id' <> Sample.viewer ->
     In id' (Server.hologramConnections
               (Server.on_identify Sample.viewer "mobile" Sample.two_clients))
     <-> In id' (Server.hologramConnections Sample.two_clients)) /\
  map fst (Server.connections
             (Server.on_identify Sample.viewer "mobile" Sample.two_clients))
  = map fst (Server.connections Sample.two_clients).
Proof.
  apply (identify_selects_displays Sample.viewer "mobile" Sample.two_clients).
  - vm_compute. eexists. reflexivity.
  - vm_compute. eexists. reflexivity.
  - vm_compute. repeat constructor; simpl; intuition discriminate.
Defined.

Lemma reset_phrase_typed_not_spoken_witness :
  Server.activeCustomCharacters
    (fst (Server.resume_response 70000 "Back to myself."
            Typed.be_normal Sample.pirate_in_progress))
    !! Sample.talker = None /\
  exists video,
    snd (Server.resume_response 70000 "Back to myself."
           Typed.be_normal Sample.pirate_in_progress)
    = Some (Server.AwaitAudio Typed.be_normal "Back to myself."
              (70000 - 65000) 70000
              (Server.detectEmotionFromText "be normal" "Back to myself.")
              video None).
Proof.
  apply (reset_phrase_typed_not_spoken 70000 "Back to myself." Typed.be_normal
           Sample.pirate_in_progress
           {| Server.url :=
                Some "/videos/custom_variants/neutral_grumpy_pirate_6787d769_2025-09-01T10-00-00-000Z.mp4";
              Server.emotion := "neutral";
              Server.description := "grumpy pirate";
              Server.cached := false |}).
  - reflexivity.
  - reflexivity.
  - vm_compute. reflexivity.
  - reflexivity.
Defined.

(** ** The reply of the character is at most three sentences long *)

Section Reply.

Import GeminiService Sentences.

Lemma string_of_list_app l : forall s,
  string_of_list_ascii l +:+ s = fold_right String s l.
Proof.
  induction l as [|c l IH]; intros s; [reflexivity|].
  change (String c (string_of_list_ascii l +:+ s)
          = String c (fold_right String s l)).
  now rewrite IH.
Qed.

Lemma match_sentences_body body : forall cur rest,
  forallb (fun c => negb (is_terminator c)) body = true ->
  match_sentences_from cur false (fold_right String rest body)
  = match_sentences_from (rev body ++ cur)%list false rest.
Proof.
  induction body as [|c body IH]; intros cur rest H; [reflexivity|].
  cbn [forallb] in H. apply andb_true_iff in H as [Hc H].
  cbn [fold_right match_sentences_from rev].
  apply negb_true_iff in Hc. rewrite Hc, (IH _ _ H), <- app_assoc. reflexivity.
Qed.

Lemma match_sentences_terminators terminators : forall cur it rest,
  forallb is_terminator terminators = true ->
  cur <> [] ->
  terminators <> [] ->
  match_sentences_from cur it (fold_right String rest terminators)
  = match_sentences_from (rev terminators ++ cur)%list true rest.
Proof.
  induction terminators as [|c ts IH]; intros cur it rest H C N; [congruence|].
  cbn [forallb] in H. apply andb_true_iff in H as [Hc H].
  cbn [fold_right match_sentences_from rev]. rewrite Hc.
  destruct cur as [|c0 cur]; [congruence|].
  destruct ts as [|t ts].
  - reflexivity.
  - rewrite (IH (c :: c0 :: cur) true rest H); [|discriminate|discriminate].
    now rewrite <- app_assoc.
Qed.

Lemma match_sentences_shaped x rest :
  shaped x ->
  match rest with
  | EmptyString => True
  | String c _ => is_terminator c = false
  end ->
  match_sentences (x +:+ rest) = x :: match_sentences rest.
Proof.
  intros (l & -> & body & ts & -> & B1 & B2 & T1 & T2) R.
  unfold match_sentences.
  rewrite string_of_list_app, fold_right_app.
  rewrite (match_sentences_body body _ _ B2), app_nil_r.
  rewrite (match_sentences_terminators ts _ _ _ T2); [|destruct body; [congruence|]| exact T1].
  - assert (E : rev (rev ts ++ rev body) = (body ++ ts)%list).
    { now rewrite rev_app_distr, !rev_involutive. }
    destruct rest as [|c r]; cbn [match_sentences_from]; [now rewrite E|].
    rewrite R. now rewrite E.
  - simpl. intros E. apply app_eq_nil in E as [_ E]. discriminate E.
Qed.

Lemma match_sentences_from_shaped s : forall cur it,
  reading cur it ->
  Forall shaped (match_sentences_from cur it s).
Proof.
  induction s as [|c r IH]; intros cur it Rd; cbn [match_sentences_from].
  - destruct it; [|constructor]. constructor; [|constructor].
    now exists (rev cur).
  - destruct (is_terminator c) eqn:T.
    + destruct cur as [|c0 cur]; [now apply IH|].
      apply IH. unfold reading in *. cbn [rev].
      destruct it.
      * destruct Rd as (body & ts & E & B1 & B2 & T1 & T2).
        exists body, (ts ++ [c])%list. cbn [rev] in E. rewrite E.
        split; [now rewrite app_assoc|]. split; [exact B1|]. split; [exact B2|].
        split; [now destruct ts|]. rewrite forallb_app, T2. simpl. now rewrite T.
      * exists (rev (c0 :: cur)), [c]. split; [reflexivity|].
        split; [cbn [rev]; now destruct (rev cur)|].
        split; [now rewrite forallb_rev|]. split; [discriminate|].
        simpl. now rewrite T.
    + destruct it.
      * constructor; [now exists (rev cur)|]. apply IH. simpl. now rewrite T.
      * apply IH. unfold reading in *. simpl. now rewrite T, Rd.
Qed.

Lemma shaped_after_space x : shaped x -> shaped (" " +:+ x).
Proof.
  intros (l & -> & body & ts & -> & B1 & B2 & T1 & T2).
  exists (" "%char :: body ++ ts)%list. split; [reflexivity|].
  exists (" "%char :: body), ts. split; [reflexivity|].
  split; [discriminate|]. split; [simpl; exact B2|]. split; assumption.
Qed.

Lemma append_assoc (a b c : string) : (a +:+ b) +:+ c = a +:+ (b +:+ c).
Proof.
  induction a as [|x a IH]; [reflexivity|].
  change (String x ((a +:+ b) +:+ c) = String x (a +:+ (b +:+ c))).
  now rewrite IH.
Qed.

Lemma append_empty (a : string) : a +:+ EmptyString = a.
Proof.
  induction a as [|x a IH]; [reflexivity|].
  change (String x (a +:+ EmptyString) = String x a). now rewrite IH.
Qed.

Lemma match_sentences_three s1 s2 s3 :
  shaped s1 -> shaped s2 -> shaped s3 ->
  match_sentences (Js.join " " [s1; s2; s3]) = [s1; " " +:+ s2; " " +:+ s3].
Proof.
  intros H1 H2 H3. cbn [Js.join].
  rewrite (match_sentences_shaped s1 _ H1) by reflexivity. f_equal.
  change (" " +:+ s2 +:+ " " +:+ s3) with (" " +:+ (s2 +:+ (" " +:+ s3))).
  rewrite <- (append_assoc " " s2).
  rewrite (match_sentences_shaped _ _ (shaped_after_space s2 H2)) by reflexivity.
  f_equal.
  pose proof (match_sentences_shaped _ EmptyString (shaped_after_space s3 H3) I)
    as E.
  now rewrite append_empty in E.
Qed.

(** X23. Whatever the model answers, and when the call fails as well, the
    reply that [generateResponse] returns holds at most three sentences:
    the expression that cuts the reply into sentences finds at most three
    in it. *)
Theorem generateResponse_at_most_three_sentences answer random :
  (length (match_sentences (generateResponse answer random)) <= 3)%nat.
Proof.
  destruct answer as [response|error]; cbn [generateResponse].
  - unfold clean. cbv zeta.
    set (cleanResponse := Js.trim (remove_actions (strip_role_prefix response))).
    pose proof (match_sentences_from_shaped cleanResponse [] false eq_refl) as F.
    fold (match_sentences cleanResponse) in F.
    destruct (match_sentences cleanResponse) as [|s1 [|s2 [|s3 [|s4 rest]]]] eqn:E;
      cbn [length Nat.ltb Nat.leb firstn]; try (rewrite E; simpl; lia).
    inversion F as [|? ? H1 F1]; subst.
    inversion F1 as [|? ? H2 F2]; subst.
    inversion F2 as [|? ? H3 F3]; subst.
    simpl Nat.ltb. cbv iota.
    rewrite (match_sentences_three s1 s2 s3 H1 H2 H3). simpl. lia.
  - pose proof (Nat.mod_upper_bound random (length fallbacks)) as B.
    change (length fallbacks) with 3%nat in *.
    destruct (random mod 3)%nat as [|[|[|n]]]; [vm_compute; lia ..|].
    simpl in B. lia.
Qed.

End Reply.

(** ** No call generates more than once *)

Section Generations.

Import CustomCharacterGenerator Tasks TaskFacts CallFacts.

Variables e d : string.

Lemma start_generations st st' t l :
  start e d st = (st', t, l) ->
  (length (filter (fun x => is_generation x = true) l)
   <= past_check (Some t))%nat.
Proof.
  unfold start, enter_generateVariant.
  repeat case_match; intros [= <- <- <-]; simpl; lia.
Qed.

Lemma move_generations who a s :
  (generations s <= past_check (first s) + past_check (second s))%nat ->
  (generations (move e d who a s)
   <= past_check (first (move e d who a s))
      + past_check (second (move e d who a s)))%nat.
Proof.
  intros H. unfold move, generations in *.
  assert (step : forall t st' t' l,
    match t with
    | None => start e d (cache s)
    | Some t => resume e d a (cache s) t
    end = (st', t', l) ->
    (past_check t + length (filter (fun x => is_generation x = true) l)
     <= past_check (Some t'))%nat).
  { intros [t|] st' t' l R.
    - destruct (resume_generations e d _ _ _ _ _ _ R) as [G1 G2].
      unfold past_check.
      destruct (before_generation t) eqn:B, (before_generation t') eqn:B';
        solve [ lia
              | destruct (G2 eq_refl) as [_ ->]; lia
              | destruct (G2 eq_refl) as [? _]; discriminate ].
    - apply start_generations in R. simpl. exact R. }
  destruct who.
  - specialize (step (first s)).
    destruct (match first s with None => _ | Some t => _ end) as [[st' t'] l].
    specialize (step st' t' l eq_refl). cbn [effects first second].
    rewrite count_generations_app. lia.
  - specialize (step (second s)).
    destruct (match second s with None => _ | Some t => _ end) as [[st' t'] l].
    specialize (step st' t' l eq_refl). cbn [effects first second].
    rewrite count_generations_app. lia.
Qed.

(** X24. Two calls of [getOrCreateVariant] with the same arguments, in any
    interleaving and whatever the outside answers, enter [generateVariant]
    twice at most: a call never generates a second time. *)
Theorem two_calls_generate_at_most_twice schedule st :
  (generations (run e d schedule (initial st)) <= 2)%nat.
Proof.
  assert (I : (generations (run e d schedule (initial st))
               <= past_check (first (run e d schedule (initial st)))
                  + past_check (second (run e d schedule (initial st))))%nat).
  { induction schedule as [|m schedule IH] using rev_ind.
    - simpl. unfold generations. simpl. lia.
    - rewrite run_snoc. now apply move_generations. }
  assert (B : forall t, (past_check t <= 1)%nat).
  { intros [t|]; simpl; [destruct (before_generation t)|]; lia. }
  pose proof (B (first (run e d schedule (initial st)))).
  pose proof (B (second (run e d schedule (initial st)))).
  lia.
Qed.

End Generations.

(** ** The text streamed to the voice service *)

Section Streaming.

Import ElevenLabsStream.

Lemma split_join_space s : forall cur,
  Js.join " " (Js.split_from " " 0 cur s) = string_of_list_ascii (rev cur) +:+ s.
Proof.
  induction s as [|c r IH]; intros cur; cbn [Js.split_from].
  - cbn [Js.join]. now rewrite append_empty.
  - rewrite starts_with_space_char.
    change (String.length " " - 1)%nat with 0%nat.
    destruct (Ascii.eqb " " c) eqn:E.
    + apply Ascii.eqb_eq in E as <-.
      pose proof (split_from_length " " r 0 []) as L.
      specialize (IH []).
      destruct (Js.split_from " " 0 [] r) as [|y l]; [simpl in L; lia|].
      cbn [Js.join]. cbn [Js.join] in IH. rewrite IH. reflexivity.
    + rewrite IH, !string_of_list_app. cbn [rev].
      now rewrite fold_right_app.
Qed.

Lemma spaced_cons word words :
  spaced (word :: words) = word +:+ " " +:+ spaced words.
Proof. reflexivity. Qed.

Lemma spaced_snoc pending word :
  spaced (pending ++ [word]) = spaced pending +:+ word +:+ " ".
Proof.
  induction pending as [|w pending IH]; [reflexivity|].
  change ((w :: pending) ++ [word])%list with (w :: (pending ++ [word]))%list.
  rewrite !spaced_cons, IH, !append_assoc. reflexivity.
Qed.

Lemma spaced_join words :
  words <> [] -> spaced words = Js.join " " words +:+ " ".
Proof.
  induction words as [|w words IH]; [congruence|]. intros _.
  destruct words as [|w' words]; [reflexivity|].
  rewrite spaced_cons, IH by discriminate.
  change (Js.join " " (w :: w' :: words))
    with (w +:+ " " +:+ Js.join " " (w' :: words)).
  now rewrite !append_assoc.
Qed.

Lemma mod_3_next n :
  (S n mod 3 = 0 \/ S n mod 3 = S (n mod 3))%nat.
Proof.
  pose proof (Nat.div_mod_eq n 3). pose proof (Nat.mod_upper_bound n 3).
  pose proof (Nat.div_mod_eq (S n) 3). pose proof (Nat.mod_upper_bound (S n) 3).
  lia.
Qed.

Lemma texts_pieces groups :
  texts (map piece groups) = spaced (concat groups).
Proof.
  induction groups as [|g groups IH]; [reflexivity|].
  cbn [map texts fold_right concat text piece]. fold (texts (map piece groups)).
  rewrite IH. clear IH.
  induction g as [|w g IH]; [reflexivity|].
  change ((w :: g) ++ concat groups)%list with (w :: (g ++ concat groups))%list.
  rewrite !spaced_cons, <- IH, !append_assoc. reflexivity.
Qed.

Lemma sendChunk_unhindered words : forall ticks chunkIndex pending,
  Forall unhindered ticks ->
  (length words < length ticks)%nat ->
  (length pending <= chunkIndex mod 3)%nat ->
  (words = [] -> pending = []) ->
  exists groups,
    sendChunk ticks words chunkIndex (spaced pending)
    = (map piece groups ++ [end_of_stream])%list /\
    concat groups = (pending ++ words)%list /\
    Forall (fun group => (1 <= length group <= 3)%nat) groups.
Proof.
  induction words as [|word rest IH]; intros ticks chunkIndex pending U L P E;
    (destruct ticks as [|t later]; [simpl in L; lia|]);
    inversion U as [|? ? (A & S1 & S2) U']; subst;
    cbn [sendChunk]; rewrite A; cbn [negb].
  - rewrite (E eq_refl). cbn [spaced fold_right]. rewrite S2.
    exists []. split; [reflexivity|]. split; [reflexivity | constructor].
  - cbv zeta. rewrite S1, <- spaced_snoc.
    assert (L' : (length rest < length later)%nat) by (simpl in L; lia).
    destruct ((S chunkIndex mod 3 =? 0)%nat
              || has_char is_pause (spaced (pending ++ [word]))
              || match rest with [] => true | _ :: _ => false end) eqn:D.
    + destruct (IH later (S chunkIndex) [] U' L' (Nat.le_0_l _) (fun _ => eq_refl))
        as (groups & E0 & C & F).
      change (spaced []) with EmptyString in E0. rewrite E0.
      exists ((pending ++ [word])%list :: groups).
      split; [reflexivity|]. split.
      * cbn [concat]. rewrite C, <- app_assoc. reflexivity.
      * constructor; [|exact F]. rewrite length_app. cbn [length].
        pose proof (Nat.mod_upper_bound chunkIndex 3). lia.
    + apply orb_false_iff in D as [D R]. apply orb_false_iff in D as [D _].
      apply Nat.eqb_neq in D.
      destruct (IH later (S chunkIndex) (pending ++ [word])%list U' L')
        as (groups & -> & C & F).
      * rewrite length_app. cbn [length].
        destruct (mod_3_next chunkIndex) as [Z|Z]; [congruence | lia].
      * intros ->. discriminate R.
      * exists groups. split; [reflexivity|]. split; [|exact F].
        rewrite C, <- app_assoc. reflexivity.
Qed.

(** X25. When nothing stops the stream and the timer runs once more than
    there are words, [streamTextInChunks] cuts the words of the text, in
    their order, into groups of one to three; it sends one message for each
    group, with the words of the group each followed by a space and with
    [flush] set when a [.], [!] or [?] is among them, and then the empty
    message that ends the stream.  The texts of these messages, put one
    after the other, are the text followed by a space: nothing of the text
    is lost, repeated or reordered. *)
Theorem streamTextInChunks_sends_the_text ticks text :
  Forall unhindered ticks ->
  (length (Js.split text " ") < length ticks)%nat ->
  exists groups,
    streamTextInChunks ticks text
    = (map piece groups ++ [end_of_stream])%list /\
    concat groups = Js.split text " " /\
    Forall (fun group => (1 <= length group <= 3)%nat) groups /\
    texts (map piece groups) = text +:+ " ".
Proof.
  intros U L. unfold streamTextInChunks.
  assert (N : Js.split text " " <> []).
  { intros N. pose proof (split_from_length " " text 0 []) as S.
    unfold Js.split in N. rewrite N in S. simpl in S. lia. }
  destruct (sendChunk_unhindered (Js.split text " ") ticks 0 [] U L
              (Nat.le_0_l _)) as (groups & E & C & F); [congruence|].
  cbn [app] in C.
  exists groups. split; [exact E|]. split; [exact C|]. split; [exact F|].
  rewrite texts_pieces, C, (spaced_join _ N).
  unfold Js.split. now rewrite split_join_space.
Qed.

End Streaming.

Lemma streamTextInChunks_sends_the_text_witness :
  exists groups,
    ElevenLabsStream.streamTextInChunks
      (repeat ElevenLabsStream.steady 5) "Hello there, friend"
    = (map ElevenLabsStream.piece groups
       ++ [ElevenLabsStream.end_of_stream])%list /\
    concat groups = Js.split "Hello there, friend" " " /\
    Forall (fun group => (1 <= length group <= 3)%nat) groups /\
    ElevenLabsStream.texts (map ElevenLabsStream.piece groups)
    = "Hello there, friend" +:+ " ".
Proof.
  apply (streamTextInChunks_sends_the_text
           (repeat ElevenLabsStream.steady 5) "Hello there, friend").
  - repeat constructor.
  - vm_compute. lia.
Defined.
